(** * tmate-ssh-client.c: the SSH connection race of a tmate session

    A shallow embedding of [tmate-ssh-client.c].  Every [struct
    tmate_ssh_client] lives in a heap indexed by its address; the session
    owns the TAILQ of client addresses, the pass-phrase cache and the
    encoder/decoder callback slots.  Calls into libssh, libevent and tmux
    are answered by an explicit environment record, and every externally
    visible call is appended to a log, newest first. *)

From Stdlib Require Import ZArith String Ascii List Lia.
From stdpp Require Import base option list gmap strings.

Open Scope string_scope.
Open Scope list_scope.

(** ** Data model *)

Abbreviation cid := nat.
Abbreviation handle := nat.

Inductive ssh_state :=
| SSH_NONE | SSH_INIT | SSH_CONNECT | SSH_AUTH_SERVER | SSH_AUTH_CLIENT
| SSH_OPEN_CHANNEL | SSH_BOOTSTRAP | SSH_READY.

Inductive ssh_rc := SSH_OK | SSH_ERROR | SSH_AGAIN.

Inductive ssh_auth_rc :=
| SSH_AUTH_SUCCESS | SSH_AUTH_DENIED | SSH_AUTH_PARTIAL
| SSH_AUTH_INFO | SSH_AUTH_AGAIN | SSH_AUTH_ERROR.

Inductive ssh_keytype :=
| SSH_KEYTYPE_UNKNOWN | SSH_KEYTYPE_DSS | SSH_KEYTYPE_RSA
| SSH_KEYTYPE_RSA1 | SSH_KEYTYPE_ECDSA.

(** [struct event ev_ssh]: [event_initialized] holds once the event has been
    assigned, and keeps holding after [event_del]. *)
Inductive ev_status := EvUnset | EvPending | EvDeleted.

Definition event_initialized (ev : ev_status) : bool :=
  match ev with EvUnset => false | _ => true end.

Record tmate_ssh_client := {
  server_ip : string;
  has_encoder : bool;
  state : ssh_state;
  session : option handle;
  channel : option handle;
  tried_passphrase : option string;
  ev_ssh : ev_status;
}.

Definition with_state (s : ssh_state) (cl : tmate_ssh_client) :=
  {| server_ip := server_ip cl; has_encoder := has_encoder cl; state := s;
     session := session cl; channel := channel cl;
     tried_passphrase := tried_passphrase cl; ev_ssh := ev_ssh cl |}.

Definition with_session (s : option handle) (cl : tmate_ssh_client) :=
  {| server_ip := server_ip cl; has_encoder := has_encoder cl; state := state cl;
     session := s; channel := channel cl;
     tried_passphrase := tried_passphrase cl; ev_ssh := ev_ssh cl |}.

Definition with_channel (ch : option handle) (cl : tmate_ssh_client) :=
  {| server_ip := server_ip cl; has_encoder := has_encoder cl; state := state cl;
     session := session cl; channel := ch;
     tried_passphrase := tried_passphrase cl; ev_ssh := ev_ssh cl |}.

Definition with_tried_passphrase (p : option string) (cl : tmate_ssh_client) :=
  {| server_ip := server_ip cl; has_encoder := has_encoder cl; state := state cl;
     session := session cl; channel := channel cl;
     tried_passphrase := p; ev_ssh := ev_ssh cl |}.

Definition with_ev_ssh (ev : ev_status) (cl : tmate_ssh_client) :=
  {| server_ip := server_ip cl; has_encoder := has_encoder cl; state := state cl;
     session := session cl; channel := channel cl;
     tried_passphrase := tried_passphrase cl; ev_ssh := ev |}.

(** The options read through [options_get_string] / [options_get_number]. *)
Record global_options := {
  tmate_identity : string;
  tmate_server_port : Z;
  tmate_server_rsa_fingerprint : string;
  tmate_server_ecdsa_fingerprint : string;
  log_level : Z;
}.

(** The mode of the first window pane, as far as [request_passphrase] looks
    at it: no mode, some mode that is not a password input, or the copy mode
    with [inputtype = WINDOW_COPY_PASSWORD]. *)
Inductive pane_mode :=
| NoMode
| OtherMode
| WINDOW_COPY_PASSWORD (inputprompt : string) (password_cb_private : cid).

Inductive ssh_option :=
| SSH_OPTIONS_HOST (v : string)
| SSH_OPTIONS_LOG_VERBOSITY (v : Z)
| SSH_OPTIONS_PORT (v : Z)
| SSH_OPTIONS_USER (v : string)
| SSH_OPTIONS_COMPRESSION (v : string)
| SSH_OPTIONS_IDENTITY (v : string).

(** Calls that leave the module. *)
Inductive event :=
| tmate_status_message (msg : string)
| tmate_debug (msg : string)
| TAILQ_INSERT_TAIL (c : cid)
| TAILQ_REMOVE (c : cid)
| event_add (c : cid)
| event_del (c : cid)
| ssh_options_set (h : option handle) (o : ssh_option)
| ssh_set_blocking (h : option handle) (blocking : bool)
| ssh_userauth_autopubkey (h : option handle) (pass : option string)
| ssh_is_connected (h : option handle)
| ssh_free (h : handle)
| free (c : cid)
| tmate_encoder_set_ready_callback (c : cid)
| tmate_decoder_init (c : cid)
| tmate_decoder_commit (len : Z)
| evbuffer_drain (len : Z).

(** The tmate session together with the rest of the process state this
    module touches. *)
Record world := {
  clients : list cid;
  heap : gmap nat tmate_ssh_client;
  need_passphrase : bool;
  passphrase : option string;
  encoder_ready_cb : option cid;
  decoder_cb : option cid;
  first_pane : pane_mode;
  options : global_options;
  log : list event;
  next_client : cid;
  next_handle : handle;
}.

Definition set_clients (l : list cid) (w : world) :=
  {| clients := l; heap := heap w; need_passphrase := need_passphrase w;
     passphrase := passphrase w; encoder_ready_cb := encoder_ready_cb w;
     decoder_cb := decoder_cb w; first_pane := first_pane w;
     options := options w; log := log w; next_client := next_client w;
     next_handle := next_handle w |}.

Definition set_heap (h : gmap nat tmate_ssh_client) (w : world) :=
  {| clients := clients w; heap := h; need_passphrase := need_passphrase w;
     passphrase := passphrase w; encoder_ready_cb := encoder_ready_cb w;
     decoder_cb := decoder_cb w; first_pane := first_pane w;
     options := options w; log := log w; next_client := next_client w;
     next_handle := next_handle w |}.

Definition set_need_passphrase (b : bool) (w : world) :=
  {| clients := clients w; heap := heap w; need_passphrase := b;
     passphrase := passphrase w; encoder_ready_cb := encoder_ready_cb w;
     decoder_cb := decoder_cb w; first_pane := first_pane w;
     options := options w; log := log w; next_client := next_client w;
     next_handle := next_handle w |}.

Definition set_passphrase (p : option string) (w : world) :=
  {| clients := clients w; heap := heap w; need_passphrase := need_passphrase w;
     passphrase := p; encoder_ready_cb := encoder_ready_cb w;
     decoder_cb := decoder_cb w; first_pane := first_pane w;
     options := options w; log := log w; next_client := next_client w;
     next_handle := next_handle w |}.

Definition set_callbacks (enc dec : option cid) (w : world) :=
  {| clients := clients w; heap := heap w; need_passphrase := need_passphrase w;
     passphrase := passphrase w; encoder_ready_cb := enc;
     decoder_cb := dec; first_pane := first_pane w;
     options := options w; log := log w; next_client := next_client w;
     next_handle := next_handle w |}.

Definition set_first_pane (m : pane_mode) (w : world) :=
  {| clients := clients w; heap := heap w; need_passphrase := need_passphrase w;
     passphrase := passphrase w; encoder_ready_cb := encoder_ready_cb w;
     decoder_cb := decoder_cb w; first_pane := m;
     options := options w; log := log w; next_client := next_client w;
     next_handle := next_handle w |}.

Definition set_log (l : list event) (w : world) :=
  {| clients := clients w; heap := heap w; need_passphrase := need_passphrase w;
     passphrase := passphrase w; encoder_ready_cb := encoder_ready_cb w;
     decoder_cb := decoder_cb w; first_pane := first_pane w;
     options := options w; log := l; next_client := next_client w;
     next_handle := next_handle w |}.

Definition set_next_client (n : cid) (w : world) :=
  {| clients := clients w; heap := heap w; need_passphrase := need_passphrase w;
     passphrase := passphrase w; encoder_ready_cb := encoder_ready_cb w;
     decoder_cb := decoder_cb w; first_pane := first_pane w;
     options := options w; log := log w; next_client := n;
     next_handle := next_handle w |}.

Definition set_next_handle (n : handle) (w : world) :=
  {| clients := clients w; heap := heap w; need_passphrase := need_passphrase w;
     passphrase := passphrase w; encoder_ready_cb := encoder_ready_cb w;
     decoder_cb := decoder_cb w; first_pane := first_pane w;
     options := options w; log := log w; next_client := next_client w;
     next_handle := n |}.

(** ** The monad: state, plus the ways the process stops *)

Inductive stop :=
| FatalExit (msg : string)      (* tmate_fatal *)
| AssertionFailure              (* a failed assert *)
| UseAfterFree (c : cid).       (* a released client is dereferenced *)

Inductive result (A : Type) :=
| Ret (a : A) (w : world)
| Stop (s : stop) (w : world).
Arguments Ret {A} a w.
Arguments Stop {A} s w.

Definition M (A : Type) := world -> result A.

Definition ret {A} (a : A) : M A := fun w => Ret a w.

Definition bind {A B} (m : M A) (k : A -> M B) : M B := fun w =>
  match m w with
  | Ret a w' => k a w'
  | Stop s w' => Stop s w'
  end.

Notation "x <- c1 ;; c2" := (bind c1 (fun x => c2))
  (at level 20, c1 at level 99, c2 at level 200, only parsing).
Notation "'exec' c1 ;; c2" := (bind c1 (fun _ => c2))
  (at level 20, c1 at level 99, c2 at level 200, only parsing).

Definition gets {A} (f : world -> A) : M A := fun w => Ret (f w) w.
Definition modify (f : world -> world) : M unit := fun w => Ret tt (f w).
Definition halt {A} (s : stop) : M A := fun w => Stop s w.

Definition emit (e : event) : M unit := modify (fun w => set_log (e :: log w) w).

(** [client->field]: the object must not have been released. *)
Definition deref (c : cid) : M tmate_ssh_client := fun w =>
  match heap w !! c with
  | Some cl => Ret cl w
  | None => Stop (UseAfterFree c) w
  end.

(** [client->field = v] *)
Definition update (c : cid) (f : tmate_ssh_client -> tmate_ssh_client) : M unit :=
  cl <- deref c ;;
  modify (fun w => set_heap (<[c := f cl]> (heap w)) w).

(** Modelled from the spec: the [tmate_fatal] macro is declared in tmate.h;
    section 7 classes these failures as fatal, i.e. process-terminating. *)
Definition tmate_fatal {A} (msg : string) : M A := halt (FatalExit msg).

Definition result_world {A} (r : result A) : world :=
  match r with Ret _ w => w | Stop _ w => w end.

(** The user-visible part of a log, newest first. *)
Fixpoint status_messages (l : list event) : list string :=
  match l with
  | [] => []
  | tmate_status_message m :: l' => m :: status_messages l'
  | _ :: l' => status_messages l'
  end.

(** ** Teardown: [__kill_ssh_client], [kill_ssh_client], [reconnect_ssh_client] *)

(** [TAILQ_REMOVE(&session->clients, client, node)].  The macro unlinks the
    node through its own [tqe_next] and [tqe_prev].  On a client that is in
    the TAILQ this is the removal below.  On a client that is not, it is
    the removal below (nothing changes) only if the client was the node
    removed last and the TAILQ has not changed since: the macro then
    rewrites the pointers it has already written.  Otherwise the links of
    the node are stale and the list the code is left with is not
    [clients]; every call is logged, so the log tells whether that has
    happened ([removals_exact]). *)
Definition tailq_remove (c : cid) : M unit :=
  exec emit (TAILQ_REMOVE c) ;;
  modify (fun w => set_clients (filter (λ x, x ≠ c) (clients w)) w).

Definition tailq_empty : M bool :=
  gets (fun w => match clients w with [] => true | _ => false end).

(** [fmt] and its arguments arrive already formatted; [None] is a NULL [fmt]. *)
Definition __kill_ssh_client (c : cid) (fmt : option string) : M unit :=
  cl <- deref c ;;
  empty <- tailq_empty ;;
  exec match fmt with
       | Some msg =>
           if empty then emit (tmate_status_message msg)
           else emit (tmate_debug ("Disconnecting " +:+ server_ip cl))
       | None => emit (tmate_debug ("Disconnecting " +:+ server_ip cl))
       end ;;
  exec (if event_initialized (ev_ssh cl)
        then exec emit (event_del c) ;; update c (with_ev_ssh EvDeleted)
        else ret tt) ;;
  exec match session cl with
       | Some h =>
           (* ssh_free() also frees the associated channels. *)
           exec emit (ssh_free h) ;;
           exec update c (with_session None) ;;
           update c (with_channel None)
       | None => ret tt
       end ;;
  update c (with_state SSH_NONE).

(** [free(client)] *)
Definition release (c : cid) : M unit :=
  exec emit (free c) ;;
  modify (fun w => set_heap (delete c (heap w)) w).

Definition kill_ssh_client (c : cid) (fmt : option string) : M unit :=
  cl <- deref c ;;
  exec tailq_remove c ;;
  exec __kill_ssh_client c fmt ;;
  release c.

(** The timer re-arming is compiled out ([#if 0]). *)
Definition reconnect_ssh_client (c : cid) (fmt : option string) : M unit :=
  cl <- deref c ;;
  exec tailq_remove c ;;
  __kill_ssh_client c fmt.

(** ** The environment of one invocation

    What libssh and the allocator answer while an entry point runs once.
    The handshake calls are made at most once per invocation, so one field
    each suffices; the non-blocking read is called in a loop and has a
    script. *)
Record answers := {
  ssh_new_ok : bool;
  ssh_channel_new_ok : bool;
  ssh_connect_rc : ssh_rc;
  ssh_get_publickey_ok : bool;
  ssh_get_publickey_hash_ok : bool;
  ssh_get_hexa_str : option string;
  ssh_key_type_is : ssh_keytype;
  ssh_userauth_autopubkey_rc : ssh_auth_rc;
  (* [Some len]: libssh calls the auth_function during the attempt, with a
     buffer of [len] bytes *)
  auth_function_called : option nat;
  ssh_channel_open_session_rc : ssh_rc;
  ssh_channel_request_subsystem_rc : ssh_rc;
  (* successive results of ssh_channel_read_nonblocking; past the end of the
     script the channel has nothing more to deliver (0) *)
  ssh_channel_read_nonblocking_lens : list Z;
  ssh_is_connected_now : bool;
  ssh_get_error_str : string;
  (* the memory xmalloc hands out is not cleared: what event_initialized
     finds in the [ev_ssh] of a new client, and its [tried_passphrase] *)
  xmalloc_ev_ssh_initialized : bool;
  xmalloc_tried_passphrase : option string;
}.

(** ** Helpers of the state machine *)

(** [strchr]: the suffix starting at the first occurrence, if any. *)
Fixpoint strchr (s : string) (ch : ascii) : option string :=
  match s with
  | EmptyString => None
  | String a s' => if Ascii.eqb a ch then Some s else strchr s' ch
  end.

Definition strlen (s : string) : nat := String.length s.

(** [strcmp]: negative, zero or positive. *)
Definition strcmp (a b : string) : Z :=
  match String.compare a b with
  | Eq => 0
  | Lt => -1
  | Gt => 1
  end%Z.

(** [get_identity] on the value of the "tmate-identity" option. *)
Definition get_identity_of (identity : string) : option string :=
  if Nat.eqb (strlen identity) 0 then None
  else match strchr identity "/"%char with
       | Some _ => Some identity                    (* xstrdup(identity) *)
       | None => Some ("%d/" +:+ identity)          (* xasprintf "%%d/%s" *)
       end.

Definition get_identity : M (option string) :=
  opts <- gets options ;;
  ret (get_identity_of (tmate_identity opts)).

(** [passphrase_callback]: returns what ends up in [buf]. *)
Definition passphrase_callback (c : cid) (len : nat) : M string :=
  cl <- deref c ;;
  exec modify (set_need_passphrase true) ;;
  p <- gets passphrase ;;
  match p with
  | Some s => ret (substring 0 len s)               (* strncpy *)
  | None => ret EmptyString                      (* strcpy of the empty string *)
  end.

Definition request_passphrase (c : cid) : M unit :=
  wp_mode <- gets first_pane ;;
  match wp_mode with
  | WINDOW_COPY_PASSWORD _ _ =>
      (* We are already requesting the passphrase *)
      ret tt
  | _ =>
      (* window_pane_reset_mode if a mode is set, then the copy mode is
         entered with a password input whose callback is this client *)
      modify (set_first_pane (WINDOW_COPY_PASSWORD "SSH key passphrase" c))
  end.

Definition register_session_fd_event (c : cid) : M unit :=
  cl <- deref c ;;
  if event_initialized (ev_ssh cl) then ret tt
  else
    exec emit (event_add c) ;;
    update c (with_ev_ssh EvPending).

(** [TAILQ_FOREACH_SAFE] over the clients as they stand on entry; the body
    removes nothing but the element it visits. *)
Fixpoint kill_other_clients (connected_client : cid) (l : list cid) : M unit :=
  match l with
  | [] => ret tt
  | c :: rest =>
      if Nat.eqb c connected_client then kill_other_clients connected_client rest
      else
        cl <- deref c ;;
        exec (if has_encoder cl then halt AssertionFailure else ret tt) ;;
        exec kill_ssh_client c None ;;
        kill_other_clients connected_client rest
  end.

Definition on_ssh_auth_server_complete (connected_client : cid) : M unit :=
  l <- gets clients ;;
  kill_other_clients connected_client l.

Fixpoint read_channel_loop (c : cid) (err : string) (lens : list Z) : M unit :=
  match lens with
  | [] => ret tt
  | len :: rest =>
      if (len <? 0)%Z then
        reconnect_ssh_client c (Some ("Error reading from channel: " +:+ err))
      else if (len =? 0)%Z then ret tt
      else
        exec emit (tmate_decoder_commit len) ;;
        read_channel_loop c err rest
  end.

Definition read_channel (e : answers) (c : cid) : M unit :=
  cl <- deref c ;;
  read_channel_loop c (ssh_get_error_str e) (ssh_channel_read_nonblocking_lens e).

(** [on_encoder_write]: [len] is the length of the evbuffer, [writes] the
    successive results of ssh_channel_write; past the end of the script the
    blocking write takes the whole buffer. *)
Fixpoint on_encoder_write (c : cid) (err : string) (writes : list Z) (len : Z) : M unit :=
  if (len =? 0)%Z then ret tt
  else
    cl <- deref c ;;
    match writes with
    | [] => emit (evbuffer_drain len)
    | written :: rest =>
        if (written <? 0)%Z then
          reconnect_ssh_client c (Some ("Error writing to channel: " +:+ err))
        else
          exec emit (evbuffer_drain written) ;;
          on_encoder_write c err rest (len - written)
    end.

(** ** The state machine: [on_ssh_client_event]

    One definition per [case] label, last label first; a case that falls
    through ends in a call of the next one.  [session] and [channel] are the
    locals of the same name, read from the client on entry. *)

Definition SSH_LOG_NOLOG : Z := 0.

Definition fresh_handle : M handle := fun w =>
  Ret (next_handle w) (set_next_handle (S (next_handle w)) w).

Definition case_SSH_READY (e : answers) (c : cid) (session : option handle) : M unit :=
  exec read_channel e c ;;
  exec emit (ssh_is_connected session) ;;
  if ssh_is_connected_now e then ret tt
  else reconnect_ssh_client c (Some "Disconnected").

Definition case_SSH_BOOTSTRAP (e : answers) (c : cid) (session : option handle) : M unit :=
  match ssh_channel_request_subsystem_rc e with
  | SSH_AGAIN => ret tt
  | SSH_ERROR =>
      reconnect_ssh_client c
        (Some ("Error initializing tmate: " +:+ ssh_get_error_str e))
  | SSH_OK =>
      exec emit (tmate_debug "Ready") ;;
      (* Writes are now performed in a blocking fashion *)
      exec emit (ssh_set_blocking session true) ;;
      exec update c (with_state SSH_READY) ;;
      exec emit (tmate_encoder_set_ready_callback c) ;;
      exec emit (tmate_decoder_init c) ;;
      exec modify (set_callbacks (Some c) (Some c)) ;;
      case_SSH_READY e c session
  end.

Definition case_SSH_OPEN_CHANNEL (e : answers) (c : cid) (session : option handle) : M unit :=
  match ssh_channel_open_session_rc e with
  | SSH_AGAIN => ret tt
  | SSH_ERROR =>
      reconnect_ssh_client c
        (Some ("Error opening channel: " +:+ ssh_get_error_str e))
  | SSH_OK =>
      exec emit (tmate_debug "Session opened, initalizing tmate") ;;
      exec update c (with_state SSH_BOOTSTRAP) ;;
      case_SSH_BOOTSTRAP e c session
  end.

Definition msg_keys_not_found : string :=
  "SSH keys not found. Run 'ssh-keygen' to create keys and try again.".

Definition msg_retry_passphrase : string :=
  "Can't load SSH key. Try typing passphrase again in case of typo. ctrl-c to abort.".

(** The [switch] on the result of ssh_userauth_autopubkey.  The test of
    [client->tried_passphrase] comes after the inner [if]: on the prompt
    branch it reads the field written on entry to the case; on the kill
    branch [kill_ssh_client] has released the client by then, and the test
    reads it all the same. *)
Definition switch_ssh_userauth_autopubkey (e : answers) (c : cid)
    (session : option handle) : M unit :=
  match ssh_userauth_autopubkey_rc e with
  | SSH_AUTH_AGAIN => ret tt
  | SSH_AUTH_PARTIAL | SSH_AUTH_INFO | SSH_AUTH_DENIED =>
      need <- gets need_passphrase ;;
      exec (if need then request_passphrase c
            else kill_ssh_client c (Some msg_keys_not_found)) ;;
      cl <- deref c ;;
      match tried_passphrase cl with
      | Some _ => emit (tmate_status_message msg_retry_passphrase)
      | None => ret tt
      end
  | SSH_AUTH_ERROR =>
      reconnect_ssh_client c (Some ("Auth error: " +:+ ssh_get_error_str e))
  | SSH_AUTH_SUCCESS =>
      exec emit (tmate_debug "Auth successful") ;;
      exec update c (with_state SSH_OPEN_CHANNEL) ;;
      case_SSH_OPEN_CHANNEL e c session
  end.

(** libssh calls the auth_function, [passphrase_callback], from inside
    ssh_userauth_autopubkey. *)
Definition case_SSH_AUTH_CLIENT (e : answers) (c : cid) (session : option handle) : M unit :=
  tried <- gets passphrase ;;
  exec update c (with_tried_passphrase tried) ;;
  exec emit (ssh_userauth_autopubkey session tried) ;;
  exec match auth_function_called e with
       | Some len => buf <- passphrase_callback c len ;; ret tt
       | None => ret tt
       end ;;
  switch_ssh_userauth_autopubkey e c session.

Definition msg_cannot_authenticate : string := "Cannot authenticate server".

(** The fingerprint the digest is compared with. *)
Definition server_hash_str (opts : global_options) (key_type : ssh_keytype) : string :=
  match key_type with
  | SSH_KEYTYPE_RSA => tmate_server_rsa_fingerprint opts
  | SSH_KEYTYPE_ECDSA => tmate_server_ecdsa_fingerprint opts
  | _ => EmptyString
  end.

(** [match = !strcmp(hash_str, server_hash_str)] *)
Definition host_key_match (opts : global_options) (key_type : ssh_keytype)
    (hash_str : string) : bool :=
  (strcmp hash_str (server_hash_str opts key_type) =? 0)%Z.

Definition case_SSH_AUTH_SERVER (e : answers) (c : cid) (session : option handle) : M unit :=
  exec (if ssh_get_publickey_ok e then ret tt
        else tmate_fatal "ssh_get_publickey") ;;
  if negb (ssh_get_publickey_hash_ok e) then
    kill_ssh_client c (Some msg_cannot_authenticate)
  else
    match ssh_get_hexa_str e with
    | None => tmate_fatal "malloc failed"
    | Some hash_str =>
        opts <- gets options ;;
        if negb (host_key_match opts (ssh_key_type_is e) hash_str) then
          kill_ssh_client c (Some msg_cannot_authenticate)
        else
          (* At this point, we abort other connection attempts to the other
             tmate servers, since we have reached the fastest one. *)
          cl <- deref c ;;
          exec emit (tmate_debug ("Connected to " +:+ server_ip cl)) ;;
          exec on_ssh_auth_server_complete c ;;
          exec update c (with_state SSH_AUTH_CLIENT) ;;
          case_SSH_AUTH_CLIENT e c session
    end.

Definition case_SSH_CONNECT (e : answers) (c : cid) (session : option handle) : M unit :=
  match ssh_connect_rc e with
  | SSH_AGAIN => register_session_fd_event c
  | SSH_ERROR =>
      reconnect_ssh_client c (Some ("Error connecting: " +:+ ssh_get_error_str e))
  | SSH_OK =>
      exec register_session_fd_event c ;;
      cl <- deref c ;;
      exec emit (tmate_debug ("Establishing connection to " +:+ server_ip cl)) ;;
      exec update c (with_state SSH_AUTH_SERVER) ;;
      case_SSH_AUTH_SERVER e c session
  end.

Definition case_SSH_INIT (e : answers) (c : cid) : M unit :=
  opts <- gets options ;;
  let verbosity := (SSH_LOG_NOLOG + log_level opts)%Z in
  let port := tmate_server_port opts in
  session <- (if ssh_new_ok e
              then h <- fresh_handle ;; ret (Some h) else ret None) ;;
  exec update c (with_session session) ;;
  match session with
  | None => tmate_fatal "cannot initialize"
  | Some _ =>
      channel <- (if ssh_channel_new_ok e
                  then h <- fresh_handle ;; ret (Some h) else ret None) ;;
      exec update c (with_channel channel) ;;
      match channel with
      | None => tmate_fatal "cannot initialize"
      | Some _ =>
          cl <- deref c ;;
          exec emit (ssh_set_blocking session false) ;;
          exec emit (ssh_options_set session (SSH_OPTIONS_HOST (server_ip cl))) ;;
          exec emit (ssh_options_set session (SSH_OPTIONS_LOG_VERBOSITY verbosity)) ;;
          exec emit (ssh_options_set session (SSH_OPTIONS_PORT port)) ;;
          exec emit (ssh_options_set session (SSH_OPTIONS_USER "tmate")) ;;
          exec emit (ssh_options_set session (SSH_OPTIONS_COMPRESSION "yes")) ;;
          identity <- get_identity ;;
          exec match identity with
               | Some i => emit (ssh_options_set session (SSH_OPTIONS_IDENTITY i))
               | None => ret tt
               end ;;
          exec update c (with_state SSH_CONNECT) ;;
          case_SSH_CONNECT e c session
      end
  end.

Definition on_ssh_client_event (e : answers) (c : cid) : M unit :=
  cl <- deref c ;;
  match state cl with
  | SSH_NONE => ret tt
  | SSH_INIT => case_SSH_INIT e c
  | SSH_CONNECT => case_SSH_CONNECT e c (session cl)
  | SSH_AUTH_SERVER => case_SSH_AUTH_SERVER e c (session cl)
  | SSH_AUTH_CLIENT => case_SSH_AUTH_CLIENT e c (session cl)
  | SSH_OPEN_CHANNEL => case_SSH_OPEN_CHANNEL e c (session cl)
  | SSH_BOOTSTRAP => case_SSH_BOOTSTRAP e c (session cl)
  | SSH_READY => case_SSH_READY e c (session cl)
  end.

Definition __on_ssh_client_event (e : answers) (arg : cid) : M unit :=
  on_ssh_client_event e arg.

Definition on_passphrase_read (e : answers) (pass : string) (private : cid) : M unit :=
  cl <- deref private ;;
  exec modify (set_passphrase (Some pass)) ;;
  on_ssh_client_event e private.

Definition connect_ssh_client (e : answers) (c : cid) : M unit :=
  cl <- deref c ;;
  match session cl with
  | None =>
      exec update c (with_state SSH_INIT) ;;
      on_ssh_client_event e c
  | Some _ => ret tt
  end.

Definition on_reconnect_timer (e : answers) (arg : cid) : M unit :=
  connect_ssh_client e arg.

(** The fields [tmate_ssh_client_alloc] assigns: server_ip, state, session,
    channel and has_encoder.  It assigns neither [ev_ssh] nor
    [tried_passphrase]; the two values here are what zeroed memory holds,
    and [xmalloc_fields] puts what the memory does hold in their place. *)
Definition fresh_client (ip : string) : tmate_ssh_client :=
  {| server_ip := ip; has_encoder := false; state := SSH_NONE;
     session := None; channel := None; tried_passphrase := None;
     ev_ssh := EvUnset |}.

(** The fields the allocator leaves as [xmalloc] returned them.  An
    [ev_ssh] that looks initialised is an event that was never added. *)
Definition xmalloc_fields (e : answers) (cl : tmate_ssh_client) : tmate_ssh_client :=
  with_ev_ssh (if xmalloc_ev_ssh_initialized e then EvDeleted else EvUnset)
    (with_tried_passphrase (xmalloc_tried_passphrase e) cl).

Definition tmate_ssh_client_alloc (e : answers) (ip : string) : M cid :=
  c <- gets next_client ;;
  exec modify (fun w => set_next_client (S c) w) ;;
  exec modify (fun w =>
         set_heap (<[c := xmalloc_fields e (fresh_client ip)]> (heap w)) w) ;;
  exec emit (TAILQ_INSERT_TAIL c) ;;
  exec modify (fun w => set_clients (clients w ++ [c]) w) ;;
  exec connect_ssh_client e c ;;
  ret c.

(** ** The reactor

    What can call into the module: the owner of the session allocating a
    client, libevent reporting the client's socket ready, the password
    prompt being confirmed, and the encoder having bytes to flush.  The
    reconnect timer is assigned but never added, so it never fires. *)
Inductive action :=
| Alloc (ip : string)
| SocketReady (c : cid)
| PassphraseTyped (text : string)
| EncoderReady (len : Z) (writes : list Z).

(** Modelled from the spec: the password prompt lives in window-copy.c; by
    the credential UI contract of section 6 it calls the registered callback
    once when the user confirms, and that ends the prompt. *)
Definition fire (a : action) (e : answers) (w : world) : option (result unit) :=
  match a with
  | Alloc ip => Some ((c <- tmate_ssh_client_alloc e ip ;; ret tt) w)
  | SocketReady c =>
      match heap w !! c with
      | Some cl =>
          match ev_ssh cl with
          | EvPending => Some (__on_ssh_client_event e c w)
          | _ => None
          end
      | None => None
      end
  | PassphraseTyped text =>
      match first_pane w with
      | WINDOW_COPY_PASSWORD _ c =>
          Some (on_passphrase_read e text c (set_first_pane NoMode w))
      | _ => None
      end
  | EncoderReady len writes =>
      match encoder_ready_cb w with
      | Some c => Some (on_encoder_write c (ssh_get_error_str e) writes len w)
      | None => None
      end
  end.

(** A run of the reactor; [None] when an action is not enabled or the
    process stops. *)
Fixpoint run (script : list (action * answers)) (w : world) : option world :=
  match script with
  | [] => Some w
  | (a, e) :: rest =>
      match fire a e w with
      | Some (Ret _ w') => run rest w'
      | _ => None
      end
  end.

(** A session before any client is allocated. *)
Definition boot (opts : global_options) : world :=
  {| clients := []; heap := ∅; need_passphrase := false; passphrase := None;
     encoder_ready_cb := None; decoder_cb := None; first_pane := NoMode;
     options := opts; log := []; next_client := 0; next_handle := 0 |}.

(** ** Teardown in closed form *)

(** The client as [__kill_ssh_client] leaves it: state NONE, the readiness
    notification cancelled if one was registered, and both handles null when
    there was a transport session to free. *)
Definition torn_down (cl : tmate_ssh_client) : tmate_ssh_client :=
  {| server_ip := server_ip cl; has_encoder := has_encoder cl;
     state := SSH_NONE; session := None;
     channel := match session cl with Some _ => None | None => channel cl end;
     tried_passphrase := tried_passphrase cl;
     ev_ssh := if event_initialized (ev_ssh cl) then EvDeleted else EvUnset |}.

(** The notice of a teardown: the message, when one is supplied and no
    client is left; a debug line otherwise. *)
Definition teardown_notice (cl : tmate_ssh_client) (fmt : option string)
    (remaining : list cid) : event :=
  match fmt, remaining with
  | Some msg, [] => tmate_status_message msg
  | _, _ => tmate_debug ("Disconnecting " +:+ server_ip cl)
  end.

(** What [__kill_ssh_client] logs, newest first. *)
Definition teardown_calls (c : cid) (cl : tmate_ssh_client) (fmt : option string)
    (remaining : list cid) : list event :=
  match session cl with Some h => [ssh_free h] | None => [] end ++
  (if event_initialized (ev_ssh cl) then [event_del c] else []) ++
  [teardown_notice cl fmt remaining].

Definition remaining_clients (c : cid) (w : world) : list cid :=
  filter (λ x, x ≠ c) (clients w).

(** The world after removal from the TAILQ and [__kill_ssh_client]. *)
Definition torn_down_world (c : cid) (cl : tmate_ssh_client) (fmt : option string)
    (w : world) : world :=
  set_heap (<[c := torn_down cl]> (heap w))
    (set_log (teardown_calls c cl fmt (remaining_clients c w)
              ++ TAILQ_REMOVE c :: log w)
       (set_clients (remaining_clients c w) w)).

(** The world after [free(client)]. *)
Definition released_world (c : cid) (w : world) : world :=
  set_heap (delete c (heap w)) (set_log (free c :: log w) w).

(** The debug lines of a log, newest first. *)
Fixpoint debug_messages (l : list event) : list string :=
  match l with
  | [] => []
  | tmate_debug m :: l' => m :: debug_messages l'
  | _ :: l' => debug_messages l'
  end.

(** What a teardown path logged, and the message policy it must follow:
    [calls] are the calls made on top of the log of [w]. *)
Definition follows_message_policy (cl : tmate_ssh_client) (fmt : option string)
    (w w' : world) : Prop :=
  exists calls,
    log w' = calls ++ log w /\
    match fmt with
    | Some msg =>
        (clients w' = [] ->
           status_messages calls = [msg] /\ debug_messages calls = []) /\
        (clients w' <> [] ->
           status_messages calls = [] /\
           debug_messages calls = ["Disconnecting " +:+ server_ip cl])
    | None =>
        status_messages calls = [] /\
        debug_messages calls = ["Disconnecting " +:+ server_ip cl]
    end.

(** ** Section 4.4 of the specification in its own words

    Both teardown operations remove the candidate from its session's
    collection, cancel any registered readiness notification, release the
    channel and transport-session handles together and set the state to
    NONE; the message is shown when one is supplied and the collection is
    now empty, and a debug line is logged otherwise.  Kill additionally
    releases the candidate object. *)

Definition spec_cancel_notification (ev : ev_status) : ev_status :=
  match ev with
  | EvUnset => EvUnset
  | EvPending | EvDeleted => EvDeleted
  end.

Definition spec_teardown (c : cid) (cl : tmate_ssh_client) (fmt : option string)
    (w : world) : world :=
  let remaining := filter (λ x, x ≠ c) (clients w) in
  let notice :=
    match fmt with
    | Some msg =>
        if decide (remaining = []) then tmate_status_message msg
        else tmate_debug ("Disconnecting " +:+ server_ip cl)
    | None => tmate_debug ("Disconnecting " +:+ server_ip cl)
    end in
  let cancel :=
    match ev_ssh cl with EvUnset => [] | _ => [event_del c] end in
  let free_handles :=
    match session cl with Some h => [ssh_free h] | None => [] end in
  {| clients := remaining;
     heap := <[c := {| server_ip := server_ip cl;
                       has_encoder := has_encoder cl;
                       state := SSH_NONE;
                       session := None;
                       channel := None;
                       tried_passphrase := tried_passphrase cl;
                       ev_ssh := spec_cancel_notification (ev_ssh cl) |}]> (heap w);
     need_passphrase := need_passphrase w;
     passphrase := passphrase w;
     encoder_ready_cb := encoder_ready_cb w;
     decoder_cb := decoder_cb w;
     first_pane := first_pane w;
     options := options w;
     log := free_handles ++ cancel ++ [notice; TAILQ_REMOVE c] ++ log w;
     next_client := next_client w;
     next_handle := next_handle w |}.

Definition spec_reconnectCandidate (c : cid) (cl : tmate_ssh_client)
    (fmt : option string) (w : world) : world :=
  spec_teardown c cl fmt w.

Definition spec_killCandidate (c : cid) (cl : tmate_ssh_client)
    (fmt : option string) (w : world) : world :=
  let w' := spec_teardown c cl fmt w in
  set_heap (delete c (heap w')) (set_log (free c :: log w') w').

(** The data-model invariant on the two handles of a client:
    [channel != NULL] implies [session != NULL]. *)
Definition handles_paired (cl : tmate_ssh_client) : Prop :=
  session cl = None -> channel cl = None.

(** ** Concrete sessions *)

Definition opts0 : global_options :=
  {| tmate_identity := "id_rsa";
     tmate_server_port := 22;
     tmate_server_rsa_fingerprint :=
       "1f:5a:c2:33:e0:91:7b:4d:08:6e:aa:15:c7:2b:f4:d9";
     tmate_server_ecdsa_fingerprint :=
       "7c:03:9e:b1:46:d2:58:0a:ef:31:84:6b:25:fa:90:cd";
     log_level := 0 |}.

(** Every call of the handshake succeeds at once, the server presents the
    pinned RSA key, nothing is readable yet. *)
Definition all_ok : answers :=
  {| ssh_new_ok := true; ssh_channel_new_ok := true; ssh_connect_rc := SSH_OK;
     ssh_get_publickey_ok := true; ssh_get_publickey_hash_ok := true;
     ssh_get_hexa_str := Some "1f:5a:c2:33:e0:91:7b:4d:08:6e:aa:15:c7:2b:f4:d9";
     ssh_key_type_is := SSH_KEYTYPE_RSA;
     ssh_userauth_autopubkey_rc := SSH_AUTH_SUCCESS;
     auth_function_called := None;
     ssh_channel_open_session_rc := SSH_OK;
     ssh_channel_request_subsystem_rc := SSH_OK;
     ssh_channel_read_nonblocking_lens := [];
     ssh_is_connected_now := true;
     ssh_get_error_str := "Socket error: disconnected";
     xmalloc_ev_ssh_initialized := false;
     xmalloc_tried_passphrase := None |}.

(** As [all_ok], but the connection is still in progress. *)
Definition connect_again : answers :=
  {| ssh_new_ok := true; ssh_channel_new_ok := true; ssh_connect_rc := SSH_AGAIN;
     ssh_get_publickey_ok := true; ssh_get_publickey_hash_ok := true;
     ssh_get_hexa_str := Some "1f:5a:c2:33:e0:91:7b:4d:08:6e:aa:15:c7:2b:f4:d9";
     ssh_key_type_is := SSH_KEYTYPE_RSA;
     ssh_userauth_autopubkey_rc := SSH_AUTH_SUCCESS;
     auth_function_called := None;
     ssh_channel_open_session_rc := SSH_OK;
     ssh_channel_request_subsystem_rc := SSH_OK;
     ssh_channel_read_nonblocking_lens := [];
     ssh_is_connected_now := true;
     ssh_get_error_str := "Socket error: disconnected";
     xmalloc_ev_ssh_initialized := false;
     xmalloc_tried_passphrase := None |}.

Definition world_after (script : list (action * answers)) : world :=
  default (boot opts0) (run script (boot opts0)).

(** Two clients, both waiting for their connection. *)
Definition two_connecting : world :=
  world_after [(Alloc "10.0.0.1", connect_again); (Alloc "10.0.0.2", connect_again)].

(** The first of them, as it stands in [two_connecting]. *)
Definition client0_connecting : tmate_ssh_client :=
  {| server_ip := "10.0.0.1"; has_encoder := false; state := SSH_CONNECT;
     session := Some 0; channel := Some 1; tried_passphrase := None;
     ev_ssh := EvPending |}.

(** [c] has been killed between [w] and [w'], and nothing else of the
    session has changed: the other clients, in the heap and in the TAILQ,
    the pass-phrase state, the callbacks and the prompt are as before. *)
Definition only_client_killed (c : cid) (w w' : world) : Prop :=
  heap w' !! c = None /\
  (c ∉ clients w') /\
  (forall c', c' <> c ->
     heap w' !! c' = heap w !! c' /\ (c' ∈ clients w' <-> c' ∈ clients w)) /\
  need_passphrase w' = need_passphrase w /\
  passphrase w' = passphrase w /\
  encoder_ready_cb w' = encoder_ready_cb w /\
  decoder_cb w' = decoder_cb w /\
  first_pane w' = first_pane w.

(** The world in which a connecting client reaches the AUTH_SERVER label:
    what the SSH_OK branch of [case SSH_CONNECT] has done by then. *)
Definition reaching_auth_server (c : cid) (w : world) : world :=
  result_world
    ((exec register_session_fd_event c ;;
      cl <- deref c ;;
      exec emit (tmate_debug ("Establishing connection to " +:+ server_ip cl)) ;;
      update c (with_state SSH_AUTH_SERVER)) w).

(** Client 0 of [two_connecting] at the AUTH_SERVER label. *)
Definition client0_authenticating : world := reaching_auth_server 0 two_connecting.

Definition client0_auth_server : tmate_ssh_client :=
  with_state SSH_AUTH_SERVER client0_connecting.

(** The server's key cannot be retrieved. *)
Definition publickey_fails : answers :=
  {| ssh_new_ok := true; ssh_channel_new_ok := true; ssh_connect_rc := SSH_OK;
     ssh_get_publickey_ok := false; ssh_get_publickey_hash_ok := true;
     ssh_get_hexa_str := Some "1f:5a:c2:33:e0:91:7b:4d:08:6e:aa:15:c7:2b:f4:d9";
     ssh_key_type_is := SSH_KEYTYPE_RSA;
     ssh_userauth_autopubkey_rc := SSH_AUTH_SUCCESS;
     auth_function_called := None;
     ssh_channel_open_session_rc := SSH_OK;
     ssh_channel_request_subsystem_rc := SSH_OK;
     ssh_channel_read_nonblocking_lens := [];
     ssh_is_connected_now := true;
     ssh_get_error_str := "Socket error: disconnected";
     xmalloc_ev_ssh_initialized := false;
     xmalloc_tried_passphrase := None |}.

(** The digest of the server's key cannot be computed. *)
Definition publickey_hash_fails : answers :=
  {| ssh_new_ok := true; ssh_channel_new_ok := true; ssh_connect_rc := SSH_OK;
     ssh_get_publickey_ok := true; ssh_get_publickey_hash_ok := false;
     ssh_get_hexa_str := None;
     ssh_key_type_is := SSH_KEYTYPE_RSA;
     ssh_userauth_autopubkey_rc := SSH_AUTH_SUCCESS;
     auth_function_called := None;
     ssh_channel_open_session_rc := SSH_OK;
     ssh_channel_request_subsystem_rc := SSH_OK;
     ssh_channel_read_nonblocking_lens := [];
     ssh_is_connected_now := true;
     ssh_get_error_str := "Socket error: disconnected";
     xmalloc_ev_ssh_initialized := false;
     xmalloc_tried_passphrase := None |}.

(** The server presents a DSS key. *)
Definition dss_key : answers :=
  {| ssh_new_ok := true; ssh_channel_new_ok := true; ssh_connect_rc := SSH_OK;
     ssh_get_publickey_ok := true; ssh_get_publickey_hash_ok := true;
     ssh_get_hexa_str := Some "1f:5a:c2:33:e0:91:7b:4d:08:6e:aa:15:c7:2b:f4:d9";
     ssh_key_type_is := SSH_KEYTYPE_DSS;
     ssh_userauth_autopubkey_rc := SSH_AUTH_SUCCESS;
     auth_function_called := None;
     ssh_channel_open_session_rc := SSH_OK;
     ssh_channel_request_subsystem_rc := SSH_OK;
     ssh_channel_read_nonblocking_lens := [];
     ssh_is_connected_now := true;
     ssh_get_error_str := "Socket error: disconnected";
     xmalloc_ev_ssh_initialized := false;
     xmalloc_tried_passphrase := None |}.

(** ** Frame conditions

    A relation [R] between the world before and after, and a set [S] of
    stops that may be reached from a world, are kept by a computation when
    they hold of every one of its outcomes. *)
Definition keeps (R : world -> world -> Prop) (S : world -> stop -> Prop)
    {A} (m : M A) : Prop :=
  forall w,
    match m w with
    | Ret _ w' => R w w'
    | Stop s w' => R w w' /\ S w s
    end.

(** ** The [has_encoder] flag *)

(** No allocated client has [has_encoder] set. *)
Definition encoder_never_set (w : world) : Prop :=
  forall c cl, heap w !! c = Some cl -> has_encoder cl = false.

(** The first client has completed its handshake inside
    [tmate_ssh_client_alloc]; a second one is allocated and waits for its
    connection. *)
Definition winner_and_latecomer : world :=
  world_after [(Alloc "10.0.0.1", all_ok); (Alloc "10.0.0.2", connect_again)].

Definition is_set_ready_callback (ev : event) : bool :=
  match ev with tmate_encoder_set_ready_callback _ => true | _ => false end.

(** ** Client authentication *)

(** The outcomes of ssh_userauth_autopubkey that share a [case] with
    SSH_AUTH_DENIED. *)
Definition auth_denied (rc : ssh_auth_rc) : Prop :=
  rc = SSH_AUTH_PARTIAL \/ rc = SSH_AUTH_INFO \/ rc = SSH_AUTH_DENIED.

(** The world when ssh_userauth_autopubkey has returned: the trial
    pass-phrase is recorded in the client, the call is logged, and
    [need_passphrase] is raised if libssh has called the auth_function. *)
Definition after_auth_attempt (e : answers) (c : cid) (cl : tmate_ssh_client)
    (w : world) : world :=
  set_need_passphrase
    (match auth_function_called e with
     | Some _ => true
     | None => need_passphrase w
     end)
    (set_heap (<[c := with_tried_passphrase (passphrase w) cl]> (heap w))
       (set_log (ssh_userauth_autopubkey (session cl) (passphrase w) :: log w) w)).

(** The retry hint, when one is due. *)
Definition retry_hint (tried : option string) : list event :=
  match tried with
  | Some _ => [tmate_status_message msg_retry_passphrase]
  | None => []
  end.

Definition is_password_prompt (m : pane_mode) : bool :=
  match m with WINDOW_COPY_PASSWORD _ _ => true | _ => false end.

(** The first pane once [request_passphrase] has run for [c]. *)
Definition prompt_requested (c : cid) (w : world) : world :=
  if is_password_prompt (first_pane w) then w
  else set_first_pane (WINDOW_COPY_PASSWORD "SSH key passphrase" c) w.

(** The log has only grown between [w] and [w']. *)
Definition log_extends (w w' : world) : Prop :=
  exists calls, log w' = calls ++ log w.

(** [e] with another outcome of the authentication attempt. *)
Definition with_userauth (rc : ssh_auth_rc) (cb : option nat) (e : answers) : answers :=
  {| ssh_new_ok := ssh_new_ok e; ssh_channel_new_ok := ssh_channel_new_ok e;
     ssh_connect_rc := ssh_connect_rc e;
     ssh_get_publickey_ok := ssh_get_publickey_ok e;
     ssh_get_publickey_hash_ok := ssh_get_publickey_hash_ok e;
     ssh_get_hexa_str := ssh_get_hexa_str e;
     ssh_key_type_is := ssh_key_type_is e;
     ssh_userauth_autopubkey_rc := rc;
     auth_function_called := cb;
     ssh_channel_open_session_rc := ssh_channel_open_session_rc e;
     ssh_channel_request_subsystem_rc := ssh_channel_request_subsystem_rc e;
     ssh_channel_read_nonblocking_lens := ssh_channel_read_nonblocking_lens e;
     ssh_is_connected_now := ssh_is_connected_now e;
     ssh_get_error_str := ssh_get_error_str e;
     xmalloc_ev_ssh_initialized := xmalloc_ev_ssh_initialized e;
     xmalloc_tried_passphrase := xmalloc_tried_passphrase e |}.

(** A single client whose authentication is in progress; libssh has found
    an encrypted key and called the auth_function, so [need_passphrase] is
    set, and no pass-phrase has been typed yet. *)
Definition awaiting_auth : world :=
  world_after [(Alloc "10.0.0.1", with_userauth SSH_AUTH_AGAIN (Some 256) all_ok)].


Definition client0_awaiting_auth : tmate_ssh_client :=
  {| server_ip := "10.0.0.1"; has_encoder := false; state := SSH_AUTH_CLIENT;
     session := Some 0; channel := Some 1; tried_passphrase := None;
     ev_ssh := EvPending |}.

(** ** The READY state *)

(** [e] with another script for the channel reads and another answer of
    ssh_is_connected. *)
Definition with_channel_io (lens : list Z) (connected : bool) (e : answers) : answers :=
  {| ssh_new_ok := ssh_new_ok e; ssh_channel_new_ok := ssh_channel_new_ok e;
     ssh_connect_rc := ssh_connect_rc e;
     ssh_get_publickey_ok := ssh_get_publickey_ok e;
     ssh_get_publickey_hash_ok := ssh_get_publickey_hash_ok e;
     ssh_get_hexa_str := ssh_get_hexa_str e;
     ssh_key_type_is := ssh_key_type_is e;
     ssh_userauth_autopubkey_rc := ssh_userauth_autopubkey_rc e;
     auth_function_called := auth_function_called e;
     ssh_channel_open_session_rc := ssh_channel_open_session_rc e;
     ssh_channel_request_subsystem_rc := ssh_channel_request_subsystem_rc e;
     ssh_channel_read_nonblocking_lens := lens;
     ssh_is_connected_now := connected;
     ssh_get_error_str := ssh_get_error_str e;
     xmalloc_ev_ssh_initialized := xmalloc_ev_ssh_initialized e;
     xmalloc_tried_passphrase := xmalloc_tried_passphrase e |}.

(** The only client of the session has completed its handshake. *)
Definition single_ready : world := world_after [(Alloc "10.0.0.1", all_ok)].

Definition client0_ready : tmate_ssh_client :=
  {| server_ip := "10.0.0.1"; has_encoder := false; state := SSH_READY;
     session := Some 0; channel := Some 1; tried_passphrase := None;
     ev_ssh := EvPending |}.

(** The channel read fails, and the session then reports itself
    disconnected. *)
Definition read_error : answers := with_channel_io [(-1)%Z] false all_ok.

Definition count_removals (c : cid) (l : list event) : nat :=
  length (List.filter (fun ev => match ev with
                                 | TAILQ_REMOVE c' => Nat.eqb c c'
                                 | _ => false
                                 end) l).

(** ** Further definitions: the rest of the module *)

(** The [fmt] passed to [reconnect_ssh_client] on a protocol error. *)
Definition error_message (prefix : string) (e : answers) : option string :=
  Some (prefix +:+ ssh_get_error_str e).

(** ** The worlds between two states of one invocation

    What each successful step of [on_ssh_client_event] has done when control
    falls through to the next [case] label; [cl] is the client as it was on
    entry to the step. *)

(** INIT done: both handles allocated, options set, state CONNECT. *)
Definition initialised (c : cid) (cl : tmate_ssh_client) (w : world) : world :=
  let h := next_handle w in
  let session := Some h in
  let opts := options w in
  set_heap
    (<[c := with_state SSH_CONNECT
              (with_channel (Some (S h)) (with_session session cl))]> (heap w))
    (set_log
       (match get_identity_of (tmate_identity opts) with
        | Some i => [ssh_options_set session (SSH_OPTIONS_IDENTITY i)]
        | None => []
        end ++
        [ssh_options_set session (SSH_OPTIONS_COMPRESSION "yes");
         ssh_options_set session (SSH_OPTIONS_USER "tmate");
         ssh_options_set session (SSH_OPTIONS_PORT (tmate_server_port opts));
         ssh_options_set session
           (SSH_OPTIONS_LOG_VERBOSITY (SSH_LOG_NOLOG + log_level opts)%Z);
         ssh_options_set session (SSH_OPTIONS_HOST (server_ip cl));
         ssh_set_blocking session false] ++ log w)
       (set_next_handle (S (S h)) w)).

(** The readiness event registered, if it was not yet. *)
Definition registered (c : cid) (cl : tmate_ssh_client) (w : world) : world :=
  if event_initialized (ev_ssh cl) then w
  else set_heap (<[c := with_ev_ssh EvPending cl]> (heap w))
         (set_log (event_add c :: log w) w).

Definition registered_client (cl : tmate_ssh_client) : tmate_ssh_client :=
  if event_initialized (ev_ssh cl) then cl else with_ev_ssh EvPending cl.

(** CONNECT done: event registered, state AUTH_SERVER. *)
Definition connected (c : cid) (cl : tmate_ssh_client) (w : world) : world :=
  let w1 := registered c cl w in
  set_heap (<[c := with_state SSH_AUTH_SERVER (registered_client cl)]> (heap w1))
    (set_log (tmate_debug ("Establishing connection to " +:+ server_ip cl)
              :: log w1) w1).

(** AUTH_SERVER done, on top of the world [w1] that the elimination of the
    siblings has left: state AUTH_CLIENT. *)
Definition server_authenticated (c : cid) (cl : tmate_ssh_client) (w1 : world) : world :=
  set_heap (<[c := with_state SSH_AUTH_CLIENT cl]> (heap w1)) w1.

(** AUTH_CLIENT done, on top of the world after the attempt: state
    OPEN_CHANNEL. *)
Definition client_authenticated (c : cid) (cl1 : tmate_ssh_client) (w1 : world) : world :=
  set_heap (<[c := with_state SSH_OPEN_CHANNEL cl1]> (heap w1))
    (set_log (tmate_debug "Auth successful" :: log w1) w1).

(** OPEN_CHANNEL done: state BOOTSTRAP. *)
Definition channel_opened (c : cid) (cl : tmate_ssh_client) (w : world) : world :=
  set_heap (<[c := with_state SSH_BOOTSTRAP cl]> (heap w))
    (set_log (tmate_debug "Session opened, initalizing tmate" :: log w) w).

(** BOOTSTRAP done: blocking writes, state READY, encoder and decoder
    callbacks wired to the client. *)
Definition bootstrapped (c : cid) (cl : tmate_ssh_client) (w : world) : world :=
  set_callbacks (Some c) (Some c)
    (set_heap (<[c := with_state SSH_READY cl]> (heap w))
       (set_log ([tmate_decoder_init c; tmate_encoder_set_ready_callback c;
                  ssh_set_blocking (session cl) true; tmate_debug "Ready"]
                 ++ log w) w)).

(** ** [read_channel] in closed form *)

(** The lengths committed to the decoder: the results before the first one
    that is not positive. *)
Fixpoint committed (lens : list Z) : list Z :=
  match lens with
  | [] => []
  | len :: rest => if (0 <? len)%Z then len :: committed rest else []
  end.

(** Whether the loop ends on a read error. *)
Fixpoint read_fails (lens : list Z) : bool :=
  match lens with
  | [] => false
  | len :: rest =>
      if (len <? 0)%Z then true
      else if (len =? 0)%Z then false
      else read_fails rest
  end.

Definition after_commits (lens : list Z) (w : world) : world :=
  set_log (rev (map tmate_decoder_commit (committed lens)) ++ log w) w.

Definition after_read_channel (e : answers) (c : cid) (cl : tmate_ssh_client)
    (w : world) : world :=
  let lens := ssh_channel_read_nonblocking_lens e in
  if read_fails lens then
    torn_down_world c cl
      (error_message "Error reading from channel: " e) (after_commits lens w)
  else after_commits lens w.

(** The client as [read_channel] leaves it. *)
Definition client_after_read (e : answers) (cl : tmate_ssh_client) : tmate_ssh_client :=
  if read_fails (ssh_channel_read_nonblocking_lens e) then torn_down cl else cl.

(** The whole of [case SSH_READY]. *)
Definition after_ready (e : answers) (c : cid) (cl : tmate_ssh_client)
    (w : world) : world :=
  let w1 := after_read_channel e c cl w in
  let w2 := set_log (ssh_is_connected (session cl) :: log w1) w1 in
  if ssh_is_connected_now e then w2
  else torn_down_world c (client_after_read e cl) (Some "Disconnected") w2.

(** ** The elimination of the siblings in closed form *)

(** The world after [kill_other_clients]: every client of [l] other than
    the connected one has been killed with a NULL message, in order. *)
Fixpoint kill_other_clients_world (connected_client : cid) (l : list cid)
    (w : world) : world :=
  match l with
  | [] => w
  | c :: rest =>
      if Nat.eqb c connected_client
      then kill_other_clients_world connected_client rest w
      else
        match heap w !! c with
        | Some cl =>
            kill_other_clients_world connected_client rest
              (released_world c (torn_down_world c cl None w))
        | None => w
        end
  end.

(** The siblings the elimination has to deal with are allocated and have
    their [has_encoder] flag clear. *)
Definition siblings_killable (connected_client : cid) (l : list cid)
    (w : world) : Prop :=
  forall c, c ∈ l -> c <> connected_client ->
    exists cl, heap w !! c = Some cl /\ has_encoder cl = false.

(** The session-wide state other than the clients and the log. *)
Definition same_session_state (w w' : world) : Prop :=
  need_passphrase w' = need_passphrase w /\
  passphrase w' = passphrase w /\
  encoder_ready_cb w' = encoder_ready_cb w /\
  decoder_cb w' = decoder_cb w /\
  first_pane w' = first_pane w /\
  options w' = options w /\
  next_client w' = next_client w /\
  next_handle w' = next_handle w.

(** INIT stopped by a failed allocation. *)
Definition init_failed (e : answers) (c : cid) (cl : tmate_ssh_client)
    (w : world) : world :=
  if ssh_new_ok e then
    set_heap (<[c := with_channel None (with_session (Some (next_handle w)) cl)]>
                (heap w))
      (set_next_handle (S (next_handle w)) w)
  else set_heap (<[c := with_session None cl]> (heap w)) w.

(** ** The TAILQ as the log tells it

    Every TAILQ_INSERT_TAIL and TAILQ_REMOVE of the module is in the log.
    [tailq_of] replays them, oldest first, on the list of the clients in
    the TAILQ and the client removed by the last change of the TAILQ.  A
    removal is exact when the client is in the TAILQ, or when it is that
    last client: the macro then rewrites pointers that already have the
    value it writes.  The replay is [None] once a removal was neither: a
    node with stale links was unlinked, and no list describes what the
    code is left with. *)
Definition tailq_step (ev : event) (q : list cid) (last : option cid)
    : option (list cid * option cid) :=
  match ev with
  | TAILQ_INSERT_TAIL c => Some (q ++ [c], None)
  | TAILQ_REMOVE c =>
      if bool_decide (c ∈ q) then Some (filter (λ x, x ≠ c) q, Some c)
      else if bool_decide (last = Some c) then Some (q, last)
      else None
  | _ => Some (q, last)
  end.

Fixpoint tailq_of (l : list event) : option (list cid * option cid) :=
  match l with
  | [] => Some ([], None)
  | ev :: older =>
      match tailq_of older with
      | Some (q, last) => tailq_step ev q last
      | None => None
      end
  end.

(** Every removal of the log was exact. *)
Definition removals_exact (l : list event) : bool :=
  match tailq_of l with Some _ => true | None => false end.

Definition is_tailq_call (ev : event) : bool :=
  match ev with
  | TAILQ_INSERT_TAIL _ | TAILQ_REMOVE _ => true
  | _ => false
  end.

(** Calls that leave the TAILQ alone. *)
Definition other_calls (calls : list event) : Prop :=
  Forall (fun ev => is_tailq_call ev = false) calls.

(** ** Well-formed sessions *)

(** The states in which the state machine returns to the reactor with the
    client still connected or connecting. *)
Definition active (s : ssh_state) : bool :=
  match s with
  | SSH_CONNECT | SSH_AUTH_CLIENT | SSH_OPEN_CHANNEL | SSH_BOOTSTRAP
  | SSH_READY => true
  | _ => false
  end.

(** The states after the server has been authenticated. *)
Definition past_auth_server (s : ssh_state) : bool :=
  match s with
  | SSH_AUTH_CLIENT | SSH_OPEN_CHANNEL | SSH_BOOTSTRAP | SSH_READY => true
  | _ => false
  end.

(** A client between two invocations: either it is in the session's TAILQ,
    in an active state, with both handles, and [register_session_fd_event]
    has run for it, so that event_initialized holds of its [ev_ssh]; or it
    has been torn down: out of the TAILQ, state NONE, both handles null, no
    event pending. *)
Definition at_rest (w : world) (c : cid) (cl : tmate_ssh_client) : Prop :=
  (c ∈ clients w /\ active (state cl) = true /\
   is_Some (session cl) /\ is_Some (channel cl) /\ ev_ssh cl <> EvUnset) \/
  ((c ∉ clients w) /\ state cl = SSH_NONE /\
   session cl = None /\ channel cl = None /\ ev_ssh cl <> EvPending).

(** Well-formedness of a session, the clients in [ex] being excused from
    the conditions on a client at rest: they are in the middle of an
    invocation. *)
Record wf (ex : cid -> Prop) (w : world) : Prop := {
  wf_nodup : NoDup (clients w);
  wf_listed : forall c, c ∈ clients w -> is_Some (heap w !! c);
  wf_live : forall c cl, heap w !! c = Some cl ->
    c < next_client w /\ has_encoder cl = false;
  wf_rest : forall c cl, ~ ex c -> heap w !! c = Some cl -> at_rest w c cl;
  wf_race : forall c1 c2 cl1 cl2, ~ ex c1 -> ~ ex c2 ->
    c1 ∈ clients w -> c2 ∈ clients w ->
    heap w !! c1 = Some cl1 -> heap w !! c2 = Some cl2 ->
    past_auth_server (state cl1) = true ->
    past_auth_server (state cl2) = true -> c1 = c2;
  wf_callbacks : encoder_ready_cb w = decoder_cb w;
  wf_prompt : is_password_prompt (first_pane w) = true ->
    need_passphrase w = true;
  wf_passphrase : passphrase w <> None -> need_passphrase w = true;
  wf_tailq : exists last, tailq_of (log w) = Some (clients w, last);
}.

Definition well_formed (w : world) : Prop := wf (fun _ => False) w.

(** No listed client other than [c] is past the authentication of the
    server. *)
Definition no_other_winner (c : cid) (w : world) : Prop :=
  forall c' cl', c' <> c -> c' ∈ clients w -> heap w !! c' = Some cl' ->
    past_auth_server (state cl') = false.

(** What the state machine run for [c] may end in, starting from a
    well-formed session: a well-formed session again; the process having
    stopped in [tmate_fatal]; or the read of [c->tried_passphrase] after
    [c] has been killed for want of a key: the attempt was denied,
    [need_passphrase] is clear, and the session is well-formed with [c]
    released.  Never a failed assertion, never another released client
    dereferenced. *)
Definition entry_outcome {A} (e : answers) (c : cid) (r : result A) : Prop :=
  match r with
  | Ret _ w' => well_formed w'
  | Stop s w' =>
      (exists msg, s = FatalExit msg) \/
      (s = UseAfterFree c /\ auth_denied (ssh_userauth_autopubkey_rc e) /\
       need_passphrase w' = false /\ heap w' !! c = None /\ well_formed w')
  end.

(** The client [c] is being run by the state machine: it is allocated,
    listed and both its handles are set; the rest of the session is
    well-formed. *)
Definition running (c : cid) (cl : tmate_ssh_client) (w : world) : Prop :=
  wf (fun x => x = c) w /\ heap w !! c = Some cl /\ c ∈ clients w /\
  is_Some (session cl) /\ is_Some (channel cl).

(** The world in which the winner enters AUTH_CLIENT: the siblings
    eliminated, the state advanced. *)
Definition race_won (c : cid) (cl : tmate_ssh_client) (w : world) : world :=
  server_authenticated c cl
    (kill_other_clients_world c (clients w)
       (set_log (tmate_debug ("Connected to " +:+ server_ip cl) :: log w) w)).

(** The new client when [tmate_ssh_client_alloc] calls
    [connect_ssh_client]. *)
Definition new_client (e : answers) (ip : string) : tmate_ssh_client :=
  xmalloc_fields e (fresh_client ip).

(** The world in which [tmate_ssh_client_alloc] calls
    [connect_ssh_client]: the new client is in the heap and at the tail of
    the TAILQ. *)
Definition allocated (e : answers) (ip : string) (w : world) : world :=
  let c := next_client w in
  set_clients (clients w ++ [c])
    (set_log (TAILQ_INSERT_TAIL c :: log w)
       (set_heap (<[c := new_client e ip]> (heap w))
          (set_next_client (S c) w))).

(** [connect_ssh_client] has set the state to INIT. *)
Definition entering_init (e : answers) (ip : string) (w : world) : world :=
  set_heap (<[next_client w := with_state SSH_INIT (new_client e ip)]>
              (heap (allocated e ip w))) (allocated e ip w).

(** What a reactor event may end in, starting from a well-formed
    session: a well-formed session again, unless it has made a removal
    that is not exact; or a stop in [tmate_fatal] or at the dereference of
    a released client. *)
Definition event_outcome (r : result unit) : Prop :=
  match r with
  | Ret _ w' => removals_exact (log w') = true -> well_formed w'
  | Stop s _ => (exists msg, s = FatalExit msg) \/ (exists c, s = UseAfterFree c)
  end.

(** [e] with other answers of ssh_new, ssh_channel_new and ssh_connect. *)
Definition with_init_answers (new_ok channel_ok : bool) (rc : ssh_rc)
    (e : answers) : answers :=
  {| ssh_new_ok := new_ok; ssh_channel_new_ok := channel_ok;
     ssh_connect_rc := rc;
     ssh_get_publickey_ok := ssh_get_publickey_ok e;
     ssh_get_publickey_hash_ok := ssh_get_publickey_hash_ok e;
     ssh_get_hexa_str := ssh_get_hexa_str e;
     ssh_key_type_is := ssh_key_type_is e;
     ssh_userauth_autopubkey_rc := ssh_userauth_autopubkey_rc e;
     auth_function_called := auth_function_called e;
     ssh_channel_open_session_rc := ssh_channel_open_session_rc e;
     ssh_channel_request_subsystem_rc := ssh_channel_request_subsystem_rc e;
     ssh_channel_read_nonblocking_lens := ssh_channel_read_nonblocking_lens e;
     ssh_is_connected_now := ssh_is_connected_now e;
     ssh_get_error_str := ssh_get_error_str e;
     xmalloc_ev_ssh_initialized := xmalloc_ev_ssh_initialized e;
     xmalloc_tried_passphrase := xmalloc_tried_passphrase e |}.

(** A fresh session in which the first client has just been put in state
    INIT by [connect_ssh_client]. *)
Definition first_client_in_init : world :=
  entering_init all_ok "10.0.0.1" (boot opts0).

(** The pass-phrase submitted last in a run of the reactor, [p0] if none
    is. *)
Fixpoint last_typed (script : list (action * answers)) (p0 : option string)
    : option string :=
  match script with
  | [] => p0
  | (PassphraseTyped text, _) :: rest => last_typed rest (Some text)
  | _ :: rest => last_typed rest p0
  end.

(** The options and the cached pass-phrase are those of [w]. *)
Definition cache_kept (w w' : world) : Prop :=
  options w' = options w /\ passphrase w' = passphrase w.

(** A client is denied with an encrypted key found, and the user types a
    pass-phrase. *)
Definition denied_then_typed : list (action * answers) :=
  [(Alloc "10.0.0.1", with_userauth SSH_AUTH_DENIED (Some 256) all_ok);
   (PassphraseTyped "secret", all_ok)].

(** [e] with other contents of the memory xmalloc returns. *)
Definition with_xmalloc (ev_initialized : bool) (tried : option string)
    (e : answers) : answers :=
  {| ssh_new_ok := ssh_new_ok e; ssh_channel_new_ok := ssh_channel_new_ok e;
     ssh_connect_rc := ssh_connect_rc e;
     ssh_get_publickey_ok := ssh_get_publickey_ok e;
     ssh_get_publickey_hash_ok := ssh_get_publickey_hash_ok e;
     ssh_get_hexa_str := ssh_get_hexa_str e;
     ssh_key_type_is := ssh_key_type_is e;
     ssh_userauth_autopubkey_rc := ssh_userauth_autopubkey_rc e;
     auth_function_called := auth_function_called e;
     ssh_channel_open_session_rc := ssh_channel_open_session_rc e;
     ssh_channel_request_subsystem_rc := ssh_channel_request_subsystem_rc e;
     ssh_channel_read_nonblocking_lens := ssh_channel_read_nonblocking_lens e;
     ssh_is_connected_now := ssh_is_connected_now e;
     ssh_get_error_str := ssh_get_error_str e;
     xmalloc_ev_ssh_initialized := ev_initialized;
     xmalloc_tried_passphrase := tried |}.

(** A READY client, then a second client; the channel read of the first
    fails and its session reports itself disconnected, so that it is torn
    down twice in a row. *)
Definition winner_lost : list (action * answers) :=
  [(Alloc "10.0.0.1", all_ok); (Alloc "10.0.0.2", connect_again);
   (SocketReady 0, read_error)].

(** The channel read fails, the session stays connected. *)
Definition read_error_connected : answers := with_channel_io [(-1)%Z] true all_ok.

(** A READY client is torn down by a read error, a second client is
    allocated and killed for presenting a DSS key; the encoder callback
    still belongs to the first. *)
Definition encoder_client_stale : list (action * answers) :=
  [(Alloc "10.0.0.1", all_ok); (Alloc "10.0.0.2", connect_again);
   (SocketReady 0, read_error_connected); (SocketReady 1, dss_key)].

(** No ssh_channel_write of the encoder fails in the run. *)
Definition writes_succeed (script : list (action * answers)) : Prop :=
  Forall (fun step : action * answers =>
            match fst step with
            | EncoderReady _ writes => Forall (fun n => (0 <= n)%Z) writes
            | _ => True
            end) script.

(** * Properties of the embedding *)

(** ** Elementary steps *)

Lemma deref_ok c cl w : heap w !! c = Some cl -> deref c w = Ret cl w.
Proof. intros H. unfold deref. now rewrite H. Qed.

Lemma update_ok c cl f w :
  heap w !! c = Some cl ->
  update c f w = Ret tt (set_heap (<[c := f cl]> (heap w)) w).
Proof. intros H. unfold update, bind. now rewrite (deref_ok _ _ _ H). Qed.

Lemma world_eq w1 w2 :
  clients w1 = clients w2 -> heap w1 = heap w2 ->
  need_passphrase w1 = need_passphrase w2 -> passphrase w1 = passphrase w2 ->
  encoder_ready_cb w1 = encoder_ready_cb w2 -> decoder_cb w1 = decoder_cb w2 ->
  first_pane w1 = first_pane w2 -> options w1 = options w2 ->
  log w1 = log w2 -> next_client w1 = next_client w2 ->
  next_handle w1 = next_handle w2 -> w1 = w2.
Proof. destruct w1, w2; simpl; intros; subst; reflexivity. Qed.

(** Symbolic execution of straight-line monadic code: reduce, and resolve
    each dereference from the hypotheses or from the preceding store. *)
Ltac mrun :=
  repeat (simpl;
          first [ rewrite lookup_insert_eq
                | match goal with
                  | H : heap _ !! _ = Some _ |- _ => rewrite H
                  end ]).

Ltac world_eq :=
  lazymatch goal with
  | |- Ret _ _ = Ret _ _ => apply f_equal
  | |- Stop _ _ = Stop _ _ => apply f_equal
  | _ => idtac
  end;
  apply world_eq; simpl;
  rewrite ?insert_insert_eq, ?delete_insert_eq; try reflexivity.

Lemma __kill_ssh_client_closed c cl fmt w :
  heap w !! c = Some cl ->
  __kill_ssh_client c fmt w =
  Ret tt (set_heap (<[c := torn_down cl]> (heap w))
            (set_log (teardown_calls c cl fmt (clients w) ++ log w) w)).
Proof.
  intros H. unfold __kill_ssh_client, teardown_calls, teardown_notice, torn_down.
  unfold bind, update, bind, deref, tailq_empty, gets, emit, modify, ret.
  rewrite H.
  destruct cl as [ip he st se ch tp ev]; simpl.
  destruct fmt as [msg|], (clients w) as [|x l] eqn:Hl, ev, se as [h|];
    mrun; world_eq.
Qed.

Lemma reconnect_ssh_client_closed c cl fmt w :
  heap w !! c = Some cl ->
  reconnect_ssh_client c fmt w = Ret tt (torn_down_world c cl fmt w).
Proof.
  intros H. unfold reconnect_ssh_client, bind at 1.
  rewrite (deref_ok _ _ _ H).
  unfold tailq_remove, bind, emit, modify. simpl.
  rewrite (__kill_ssh_client_closed c cl) by exact H.
  world_eq.
Qed.

Lemma kill_ssh_client_closed c cl fmt w :
  heap w !! c = Some cl ->
  kill_ssh_client c fmt w = Ret tt (released_world c (torn_down_world c cl fmt w)).
Proof.
  intros H. unfold kill_ssh_client, bind at 1.
  rewrite (deref_ok _ _ _ H).
  unfold tailq_remove, bind, emit, modify. simpl.
  rewrite (__kill_ssh_client_closed c cl) by exact H.
  unfold release, bind, emit, modify. simpl.
  world_eq.
Qed.

Lemma status_messages_teardown_calls c cl fmt remaining :
  status_messages (teardown_calls c cl fmt remaining) =
  match fmt, remaining with Some msg, [] => [msg] | _, _ => [] end.
Proof.
  unfold teardown_calls, teardown_notice.
  destruct (session cl), (event_initialized (ev_ssh cl)), fmt, remaining;
    reflexivity.
Qed.

Lemma debug_messages_teardown_calls c cl fmt remaining :
  debug_messages (teardown_calls c cl fmt remaining) =
  match fmt, remaining with
  | Some msg, [] => []
  | _, _ => ["Disconnecting " +:+ server_ip cl]
  end.
Proof.
  unfold teardown_calls, teardown_notice.
  destruct (session cl), (event_initialized (ev_ssh cl)), fmt, remaining;
    reflexivity.
Qed.

Lemma status_messages_app l1 l2 :
  status_messages (l1 ++ l2) = status_messages l1 ++ status_messages l2.
Proof.
  induction l1 as [|e l1 IH]; simpl; [reflexivity|].
  destruct e; simpl; rewrite ?IH; reflexivity.
Qed.

Lemma debug_messages_app l1 l2 :
  debug_messages (l1 ++ l2) = debug_messages l1 ++ debug_messages l2.
Proof.
  induction l1 as [|e l1 IH]; simpl; [reflexivity|].
  destruct e; simpl; rewrite ?IH; reflexivity.
Qed.

(** ** Claims about the teardown paths *)

Lemma torn_down_world_policy c cl fmt w :
  follows_message_policy cl fmt w (torn_down_world c cl fmt w).
Proof.
  exists (teardown_calls c cl fmt (remaining_clients c w) ++ [TAILQ_REMOVE c]).
  split.
  - simpl. now rewrite <- app_assoc.
  - rewrite status_messages_app, debug_messages_app,
      status_messages_teardown_calls, debug_messages_teardown_calls.
    simpl. destruct fmt as [msg|]; [|now destruct (remaining_clients c w)].
    destruct (remaining_clients c w); split; intros; try congruence; auto.
Qed.

Lemma released_world_policy c cl fmt w w' :
  follows_message_policy cl fmt w w' ->
  follows_message_policy cl fmt w (released_world c w').
Proof.
  intros (calls & Hlog & H). exists (free c :: calls). split.
  - simpl. now rewrite Hlog.
  - exact H.
Qed.

(** C7. Whenever [kill_ssh_client] or [reconnect_ssh_client] runs on a live
    client, the client is first removed from the session's clients; a
    supplied message is shown to the user (and no debug line is written)
    exactly when no client is left after the removal, and in every other
    case, siblings left or no message supplied, the user sees nothing and
    the single debug line "Disconnecting <ip>" is written. *)
Theorem failure_message_surfaced_iff_last (c : cid) (cl : tmate_ssh_client)
    (fmt : option string) (w : world) :
  heap w !! c = Some cl ->
  (exists w', kill_ssh_client c fmt w = Ret tt w' /\
              clients w' = remaining_clients c w /\
              follows_message_policy cl fmt w w') /\
  (exists w', reconnect_ssh_client c fmt w = Ret tt w' /\
              clients w' = remaining_clients c w /\
              follows_message_policy cl fmt w w').
Proof.
  intros H. split.
  - eexists. split; [apply kill_ssh_client_closed, H|].
    split; [reflexivity|].
    apply released_world_policy, torn_down_world_policy.
  - eexists. split; [apply reconnect_ssh_client_closed, H|].
    split; [reflexivity|]. apply torn_down_world_policy.
Qed.

Lemma torn_down_world_spec c cl fmt w :
  handles_paired cl ->
  torn_down_world c cl fmt w = spec_teardown c cl fmt w.
Proof.
  intros Hp. unfold torn_down_world, spec_teardown, remaining_clients,
    teardown_calls, teardown_notice, torn_down, handles_paired in *.
  apply world_eq; simpl; try reflexivity.
  - f_equal. destruct cl as [ip he st se ch tp ev]; simpl in *.
    destruct se, ev; simpl; try reflexivity; now rewrite Hp.
  - destruct (session cl), (ev_ssh cl), fmt; simpl; try reflexivity;
      destruct (filter _ (clients w)); reflexivity.
Qed.

(** C8. On a live client whose handles are paired, [reconnect_ssh_client]
    is exactly the teardown of section 4.4 and [kill_ssh_client] is the same
    teardown followed by the release of the client object.  After the
    teardown the client is out of the session's clients, its state is NONE,
    both handles are null and no readiness notification is pending; after a
    reconnect the object is still allocated but nothing is scheduled for it:
    the reactor has no event left that would run it, and running its state
    machine does nothing. *)
Theorem kill_and_reconnect_same_teardown (c : cid) (cl : tmate_ssh_client)
    (fmt : option string) (w : world) :
  heap w !! c = Some cl ->
  handles_paired cl ->
  reconnect_ssh_client c fmt w = Ret tt (spec_reconnectCandidate c cl fmt w) /\
  kill_ssh_client c fmt w = Ret tt (spec_killCandidate c cl fmt w) /\
  (let w' := spec_reconnectCandidate c cl fmt w in
   (c ∉ clients w') /\
   (exists cl', heap w' !! c = Some cl' /\ state cl' = SSH_NONE /\
                session cl' = None /\ channel cl' = None /\
                ev_ssh cl' <> EvPending) /\
   (forall e, fire (SocketReady c) e w' = None) /\
   (forall e, on_ssh_client_event e c w' = Ret tt w')) /\
  (let w' := spec_killCandidate c cl fmt w in
   (c ∉ clients w') /\ heap w' !! c = None /\
   clients w' = clients (spec_reconnectCandidate c cl fmt w) /\
   log w' = free c :: log (spec_reconnectCandidate c cl fmt w)).
Proof.
  intros H Hp. split; [|split; [|split]].
  - rewrite (reconnect_ssh_client_closed c cl) by exact H.
    now rewrite torn_down_world_spec.
  - rewrite (kill_ssh_client_closed c cl) by exact H.
    now rewrite torn_down_world_spec.
  - unfold spec_reconnectCandidate, spec_teardown. simpl.
    split; [|split; [|split]].
    + rewrite list_elem_of_filter. tauto.
    + eexists. split; [apply lookup_insert_eq|]. simpl.
      repeat split. destruct (ev_ssh cl); discriminate.
    + intros e. rewrite lookup_insert_eq. simpl. now destruct (ev_ssh cl).
    + intros e. unfold on_ssh_client_event, bind, deref. simpl.
      now rewrite lookup_insert_eq.
  - unfold spec_killCandidate, spec_reconnectCandidate, spec_teardown. simpl.
    split; [|split; [|split]]; try reflexivity.
    + rewrite list_elem_of_filter. tauto.
    + apply lookup_delete_eq.
Qed.

Lemma kill_and_reconnect_same_teardown_witness :
  heap two_connecting !! 0 = Some client0_connecting /\
  handles_paired client0_connecting /\
  reconnect_ssh_client 0 (Some "Disconnected") two_connecting =
    Ret tt (spec_reconnectCandidate 0 client0_connecting (Some "Disconnected")
              two_connecting) /\
  kill_ssh_client 0 (Some "Disconnected") two_connecting =
    Ret tt (spec_killCandidate 0 client0_connecting (Some "Disconnected")
              two_connecting).
Proof.
  assert (H1 : heap two_connecting !! 0 = Some client0_connecting)
    by (vm_compute; reflexivity).
  assert (H2 : handles_paired client0_connecting)
    by (intros H; vm_compute in H; discriminate).
  destruct (kill_and_reconnect_same_teardown 0 client0_connecting
              (Some "Disconnected") two_connecting H1 H2) as (A & B & _).
  split; [exact H1|]. split; [exact H2|]. split; [exact A|exact B].
Defined.

Lemma failure_message_surfaced_iff_last_witness :
  heap two_connecting !! 0 = Some client0_connecting /\
  exists w', kill_ssh_client 0 (Some "Disconnected") two_connecting = Ret tt w' /\
             clients w' = [1] /\
             follows_message_policy client0_connecting (Some "Disconnected")
               two_connecting w'.
Proof.
  assert (H1 : heap two_connecting !! 0 = Some client0_connecting)
    by (vm_compute; reflexivity).
  split; [exact H1|].
  destruct (failure_message_surfaced_iff_last 0 client0_connecting
              (Some "Disconnected") two_connecting H1) as ((w' & A & B & C) & _).
  exists w'. split; [exact A|]. split; [|exact C].
  rewrite B. vm_compute. reflexivity.
Defined.

(** ** Identity path resolution *)

Lemma strchr_None s ch :
  strchr s ch = None <-> ~ In ch (list_ascii_of_string s).
Proof.
  induction s as [|a s IH]; simpl.
  - tauto.
  - destruct (Ascii.eqb_spec a ch) as [->|Hne].
    + split; [discriminate|]. intros H. exfalso. apply H. now left.
    + rewrite IH. split; [intros H [?|?]; congruence || auto|tauto].
Qed.

Lemma strchr_Some s ch :
  is_Some (strchr s ch) <-> In ch (list_ascii_of_string s).
Proof.
  destruct (strchr s ch) eqn:E.
  - split; [intros _|eauto].
    destruct (in_dec Ascii.ascii_dec ch (list_ascii_of_string s)) as [?|Hn];
      [assumption|].
    apply strchr_None in Hn. congruence.
  - split; [intros [? ?]; discriminate|].
    intros Hin. apply strchr_None in E. contradiction.
Qed.

(** C9. For a non-empty "tmate-identity" option, [get_identity] returns the
    string itself when it contains a '/', and "%d/" followed by the string
    when it does not; "id_rsa" becomes "%d/id_rsa" and "/home/u/.ssh/id_rsa"
    is returned unchanged. *)
Theorem get_identity_resolution (w : world) :
  tmate_identity (options w) <> EmptyString ->
  let identity := tmate_identity (options w) in
  (In "/"%char (list_ascii_of_string identity) ->
     get_identity w = Ret (Some identity) w) /\
  (~ In "/"%char (list_ascii_of_string identity) ->
     get_identity w = Ret (Some ("%d/" +:+ identity)) w) /\
  get_identity_of "id_rsa" = Some "%d/id_rsa" /\
  get_identity_of "/home/u/.ssh/id_rsa" = Some "/home/u/.ssh/id_rsa".
Proof.
  intros Hne identity.
  assert (Hlen : Nat.eqb (strlen identity) 0 = false).
  { subst identity. destruct (tmate_identity (options w)); [congruence|reflexivity]. }
  unfold get_identity, bind, gets, ret, get_identity_of. fold identity.
  rewrite Hlen. repeat split.
  - intros Hin. apply strchr_Some in Hin. destruct Hin as [s Hs]. now rewrite Hs.
  - intros Hn. apply strchr_None in Hn. now rewrite Hn.
Qed.

Lemma get_identity_resolution_witness :
  tmate_identity (options two_connecting) <> EmptyString /\
  get_identity two_connecting = Ret (Some "%d/id_rsa") two_connecting.
Proof.
  assert (H : tmate_identity (options two_connecting) <> EmptyString)
    by (vm_compute; discriminate).
  split; [exact H|].
  destruct (get_identity_resolution two_connecting H) as (_ & B & _).
  apply B. apply strchr_None. vm_compute. reflexivity.
Defined.

(** ** Server authentication *)

Lemma string_compare_refl s : String.compare s s = Eq.
Proof.
  pose proof (String.compare_antisym s s) as H.
  destruct (String.compare s s); simpl in H; congruence.
Qed.

Lemma strcmp_zero a b : (strcmp a b =? 0)%Z = true <-> a = b.
Proof.
  unfold strcmp. split.
  - destruct (String.compare a b) eqn:E; try discriminate.
    intros _. now apply String.compare_eq_iff.
  - intros ->. now rewrite string_compare_refl.
Qed.

Lemma released_torn_down_only_killed c cl fmt w :
  only_client_killed c w (released_world c (torn_down_world c cl fmt w)).
Proof.
  unfold only_client_killed, released_world, torn_down_world, remaining_clients.
  simpl. repeat split; try reflexivity.
  - apply lookup_delete_eq.
  - rewrite list_elem_of_filter. tauto.
  - rewrite lookup_delete_ne, lookup_insert_ne by congruence. reflexivity.
  - rewrite list_elem_of_filter. tauto.
  - intros Hin. rewrite list_elem_of_filter. tauto.
Qed.

Lemma on_ssh_client_event_connect_ok e c cl w :
  heap w !! c = Some cl -> state cl = SSH_CONNECT ->
  ssh_connect_rc e = SSH_OK ->
  on_ssh_client_event e c w =
  on_ssh_client_event e c (reaching_auth_server c w) /\
  exists cl', heap (reaching_auth_server c w) !! c = Some cl' /\
              state cl' = SSH_AUTH_SERVER /\ session cl' = session cl.
Proof.
  intros H Hst Hrc.
  unfold on_ssh_client_event at 1, reaching_auth_server, bind at 1.
  rewrite (deref_ok _ _ _ H), Hst.
  unfold case_SSH_CONNECT. rewrite Hrc.
  unfold on_ssh_client_event, register_session_fd_event, bind, update, bind,
    deref, emit, modify, ret.
  rewrite H. destruct cl as [ip he st se ch tp ev]. simpl in *. subst st.
  destruct ev; mrun; (split; [reflexivity|]); eexists; (split; [reflexivity|]);
    simpl; auto.
Qed.

Lemma case_SSH_AUTH_SERVER_mismatch e c cl w hash_str :
  heap w !! c = Some cl -> state cl = SSH_AUTH_SERVER ->
  ssh_get_publickey_ok e = true -> ssh_get_publickey_hash_ok e = true ->
  ssh_get_hexa_str e = Some hash_str ->
  host_key_match (options w) (ssh_key_type_is e) hash_str = false ->
  on_ssh_client_event e c w = kill_ssh_client c (Some msg_cannot_authenticate) w.
Proof.
  intros H Hst Hpk Hh Hx Hm.
  unfold on_ssh_client_event, bind at 1. rewrite (deref_ok _ _ _ H), Hst.
  unfold case_SSH_AUTH_SERVER, bind at 1. rewrite Hpk, Hh, Hx. simpl.
  unfold bind at 1, gets. now rewrite Hm.
Qed.

(** C3. For a client at AUTH_SERVER whose server key and digest have been
    retrieved (the hexadecimal rendering of a digest is never empty): the
    check yields match exactly when the key is RSA or ECDSA and the digest
    string equals the fingerprint configured for that type; a key of any
    other type is compared with the empty string and does not match; on a
    mismatch the state machine does nothing but kill this client with
    "Cannot authenticate server", leaving every sibling and the rest of the
    session as they were; on a match it goes on to the elimination of the
    siblings and to AUTH_CLIENT. *)
Theorem host_key_check (e : answers) (c : cid) (cl : tmate_ssh_client)
    (w : world) (hash_str : string) :
  heap w !! c = Some cl -> state cl = SSH_AUTH_SERVER ->
  ssh_get_publickey_ok e = true -> ssh_get_publickey_hash_ok e = true ->
  ssh_get_hexa_str e = Some hash_str -> hash_str <> EmptyString ->
  let opts := options w in
  let key_type := ssh_key_type_is e in
  let matched := host_key_match opts key_type hash_str in
  (matched = true <->
     (key_type = SSH_KEYTYPE_RSA /\
      hash_str = tmate_server_rsa_fingerprint opts) \/
     (key_type = SSH_KEYTYPE_ECDSA /\
      hash_str = tmate_server_ecdsa_fingerprint opts)) /\
  (key_type <> SSH_KEYTYPE_RSA -> key_type <> SSH_KEYTYPE_ECDSA ->
     server_hash_str opts key_type = EmptyString /\ matched = false) /\
  (matched = false ->
     exists w',
       on_ssh_client_event e c w = Ret tt w' /\
       kill_ssh_client c (Some msg_cannot_authenticate) w = Ret tt w' /\
       only_client_killed c w w' /\
       follows_message_policy cl (Some msg_cannot_authenticate) w w') /\
  (matched = true ->
     on_ssh_client_event e c w =
       (exec emit (tmate_debug ("Connected to " +:+ server_ip cl)) ;;
        exec on_ssh_auth_server_complete c ;;
        exec update c (with_state SSH_AUTH_CLIENT) ;;
        case_SSH_AUTH_CLIENT e c (session cl)) w).
Proof.
  intros H Hst Hpk Hh Hx Hne opts key_type matched.
  assert (Hiff : matched = true <-> hash_str = server_hash_str opts key_type)
    by apply strcmp_zero.
  assert (Hother : key_type <> SSH_KEYTYPE_RSA -> key_type <> SSH_KEYTYPE_ECDSA ->
                   server_hash_str opts key_type = EmptyString).
  { destruct key_type; simpl; congruence. }
  split; [|split; [|split]].
  - rewrite Hiff. split.
    + intros Heq. destruct key_type eqn:E; simpl in Heq; try congruence; auto.
    + intros [[-> ->]|[-> ->]]; reflexivity.
  - intros H1 H2. split; [auto|].
    destruct matched eqn:E; [|reflexivity].
    destruct Hiff as [Hi _]. specialize (Hi eq_refl).
    rewrite Hother in Hi by assumption. congruence.
  - intros Hm.
    exists (released_world c (torn_down_world c cl (Some msg_cannot_authenticate) w)).
    rewrite (case_SSH_AUTH_SERVER_mismatch e c cl w hash_str) by assumption.
    rewrite (kill_ssh_client_closed c cl) by exact H.
    split; [reflexivity|]. split; [reflexivity|]. split.
    + apply released_torn_down_only_killed.
    + apply released_world_policy, torn_down_world_policy.
  - intros Hm.
    unfold on_ssh_client_event, bind at 1. rewrite (deref_ok _ _ _ H), Hst.
    unfold case_SSH_AUTH_SERVER, bind at 1. rewrite Hpk, Hh, Hx. simpl.
    unfold bind at 1, gets. fold opts key_type matched. rewrite Hm. simpl.
    unfold bind at 1. now rewrite (deref_ok _ _ _ H).
Qed.

Lemma host_key_check_witness :
  heap client0_authenticating !! 0 = Some client0_auth_server /\
  host_key_match (options client0_authenticating) SSH_KEYTYPE_DSS
    "1f:5a:c2:33:e0:91:7b:4d:08:6e:aa:15:c7:2b:f4:d9" = false /\
  exists w', on_ssh_client_event dss_key 0 client0_authenticating = Ret tt w' /\
             only_client_killed 0 client0_authenticating w'.
Proof.
  assert (H : heap client0_authenticating !! 0 = Some client0_auth_server)
    by (vm_compute; reflexivity).
  destruct (host_key_check dss_key 0 client0_auth_server client0_authenticating
              "1f:5a:c2:33:e0:91:7b:4d:08:6e:aa:15:c7:2b:f4:d9" H)
    as (_ & B & C & _);
    try (vm_compute; reflexivity); [vm_compute; discriminate|].
  destruct B as [_ Hm]; [vm_compute; discriminate..|].
  destruct (C Hm) as (w' & E & _ & K & _).
  split; [exact H|]. split; [exact Hm|]. exists w'. split; assumption.
Defined.

(** C4, as far as the code goes.  For a client at AUTH_SERVER: when the
    server's public key cannot be retrieved the process stops in
    [tmate_fatal] with "ssh_get_publickey", the client being neither removed
    nor released; when the key is retrieved and its digest cannot be, the
    state machine does nothing but kill this client with "Cannot
    authenticate server": it is removed and released, its siblings and the
    rest of the session are untouched, the process goes on, and no event of
    the reactor will run the client again. *)
Theorem publickey_retrieval_failure (e : answers) (c : cid)
    (cl : tmate_ssh_client) (w : world) :
  heap w !! c = Some cl -> state cl = SSH_AUTH_SERVER ->
  (ssh_get_publickey_ok e = false ->
     on_ssh_client_event e c w = Stop (FatalExit "ssh_get_publickey") w) /\
  (ssh_get_publickey_ok e = true -> ssh_get_publickey_hash_ok e = false ->
     exists w',
       on_ssh_client_event e c w = Ret tt w' /\
       kill_ssh_client c (Some msg_cannot_authenticate) w = Ret tt w' /\
       only_client_killed c w w' /\
       follows_message_policy cl (Some msg_cannot_authenticate) w w' /\
       forall e', fire (SocketReady c) e' w' = None).
Proof.
  intros H Hst. split.
  - intros Hpk. unfold on_ssh_client_event, bind at 1.
    rewrite (deref_ok _ _ _ H), Hst.
    unfold case_SSH_AUTH_SERVER, bind at 1. now rewrite Hpk.
  - intros Hpk Hh.
    exists (released_world c (torn_down_world c cl (Some msg_cannot_authenticate) w)).
    rewrite <- (kill_ssh_client_closed c cl) by exact H.
    split; [|split; [reflexivity|split; [|split]]].
    + unfold on_ssh_client_event, bind at 1.
      rewrite (deref_ok _ _ _ H), Hst.
      unfold case_SSH_AUTH_SERVER, bind at 1. now rewrite Hpk, Hh.
    + apply released_torn_down_only_killed.
    + apply released_world_policy, torn_down_world_policy.
    + intros e'. simpl. now rewrite lookup_delete_eq.
Qed.

Lemma publickey_retrieval_failure_witness :
  heap client0_authenticating !! 0 = Some client0_auth_server /\
  on_ssh_client_event publickey_fails 0 client0_authenticating =
    Stop (FatalExit "ssh_get_publickey") client0_authenticating /\
  exists w',
    on_ssh_client_event publickey_hash_fails 0 client0_authenticating = Ret tt w' /\
    only_client_killed 0 client0_authenticating w'.
Proof.
  assert (H : heap client0_authenticating !! 0 = Some client0_auth_server)
    by (vm_compute; reflexivity).
  destruct (publickey_retrieval_failure publickey_fails 0 client0_auth_server
              client0_authenticating H) as (A & _); [reflexivity|].
  destruct (publickey_retrieval_failure publickey_hash_fails 0 client0_auth_server
              client0_authenticating H) as (_ & B); [reflexivity|].
  destruct B as (w' & E & _ & K & _); [reflexivity..|].
  split; [exact H|]. split; [apply A; reflexivity|].
  exists w'. split; assumption.
Defined.

(** C4 as stated fails.  Client 0 of a two-client session has its socket
    reported ready; the connection is established, so the client arrives at
    AUTH_SERVER, and [ssh_get_publickey] fails.  The process stops in
    [tmate_fatal]; the client has not been killed: it is still among the
    session's clients, still allocated, its handles not freed, and the
    outcome is not the one of killing it with "Cannot authenticate
    server". *)
Lemma publickey_failure_is_fatal :
  ssh_get_publickey_ok publickey_fails = false /\
  (exists cl, heap client0_authenticating !! 0 = Some cl /\
              state cl = SSH_AUTH_SERVER) /\
  fire (SocketReady 0) publickey_fails two_connecting =
    Some (Stop (FatalExit "ssh_get_publickey") client0_authenticating) /\
  on_ssh_client_event publickey_fails 0 client0_authenticating =
    Stop (FatalExit "ssh_get_publickey") client0_authenticating /\
  0 ∈ clients client0_authenticating /\
  ~ In (ssh_free 0) (log client0_authenticating) /\
  on_ssh_client_event publickey_fails 0 client0_authenticating <>
    kill_ssh_client 0 (Some msg_cannot_authenticate) client0_authenticating.
Proof.
  split; [reflexivity|]. split; [eexists; split; vm_compute; reflexivity|].
  split; [vm_compute; reflexivity|]. split; [vm_compute; reflexivity|].
  split; [vm_compute; apply list_elem_of_here|].
  split; [vm_compute; intuition discriminate|].
  vm_compute. discriminate.
Qed.

(** ** Frame conditions of the whole module

    Any relation that is a preorder and is kept by each elementary change of
    the world is kept by every function of the module, and by every run of
    the reactor; a failed assertion can only be reached from a world in
    which some live client has [has_encoder] set. *)
Create HintDb frame.

Section Frame.

Variable R : world -> world -> Prop.
Variable S : world -> stop -> Prop.

Hypothesis R_refl : forall w, R w w.
Hypothesis R_trans : forall w1 w2 w3, R w1 w2 -> R w2 w3 -> R w1 w3.
Hypothesis S_back : forall w w' s, R w w' -> S w' s -> S w s.

Hypothesis R_emit : forall w ev, R w (set_log (ev :: log w) w).
Hypothesis R_update : forall w c cl cl',
  heap w !! c = Some cl -> has_encoder cl' = has_encoder cl ->
  R w (set_heap (<[c := cl']> (heap w)) w).
Hypothesis R_alloc : forall w c e ip,
  R w (set_heap (<[c := xmalloc_fields e (fresh_client ip)]> (heap w)) w).
Hypothesis R_delete : forall w c, R w (set_heap (delete c (heap w)) w).
Hypothesis R_clients : forall w l, R w (set_clients l w).
Hypothesis R_need_passphrase : forall w b, R w (set_need_passphrase b w).
Hypothesis R_passphrase : forall w p, R w (set_passphrase p w).
Hypothesis R_callbacks : forall w enc dec, R w (set_callbacks enc dec w).
Hypothesis R_first_pane : forall w m, R w (set_first_pane m w).
Hypothesis R_next_client : forall w n, R w (set_next_client n w).
Hypothesis R_next_handle : forall w n, R w (set_next_handle n w).

Hypothesis S_fatal : forall w msg, S w (FatalExit msg).
Hypothesis S_use_after_free : forall w c, S w (UseAfterFree c).
Hypothesis S_assert : forall w c cl,
  heap w !! c = Some cl -> has_encoder cl = true -> S w AssertionFailure.

Local Abbreviation ok := (keeps R S).

Lemma keeps_ret {A} (a : A) : ok (ret a).
Proof. intros w. apply R_refl. Qed.

Lemma keeps_bind {A B} (m : M A) (k : A -> M B) :
  ok m -> (forall a, ok (k a)) -> ok (bind m k).
Proof.
  intros Hm Hk w. unfold bind. specialize (Hm w).
  destruct (m w) as [a w1|s w1]; [|exact Hm].
  specialize (Hk a w1). destruct (k a w1) as [b w2|s w2].
  - eauto.
  - destruct Hk. split; eauto.
Qed.

Lemma keeps_gets {A} (f : world -> A) : ok (gets f).
Proof. intros w. apply R_refl. Qed.

Lemma keeps_modify (f : world -> world) : (forall w, R w (f w)) -> ok (modify f).
Proof. intros H w. apply H. Qed.

Lemma keeps_emit ev : ok (emit ev).
Proof. apply keeps_modify. intros w. apply R_emit. Qed.

Lemma keeps_deref c : ok (deref c).
Proof. intros w. unfold deref. destruct (heap w !! c); auto. Qed.

Lemma keeps_tmate_fatal {A} msg : ok (@tmate_fatal A msg).
Proof. intros w. simpl. auto. Qed.

Lemma keeps_update c f :
  (forall cl, has_encoder (f cl) = has_encoder cl) -> ok (update c f).
Proof.
  intros Hf w. unfold update, bind, deref, modify.
  destruct (heap w !! c) eqn:E; eauto.
Qed.

Lemma keeps_fresh_handle : ok fresh_handle.
Proof. intros w. apply R_next_handle. Qed.

Local Hint Resolve keeps_ret keeps_gets keeps_emit keeps_deref
  keeps_tmate_fatal keeps_fresh_handle : frame.

(** Goal-directed decomposition of a computation into calls already known
    to keep the frame. *)
Ltac frame :=
  repeat first
    [ solve [auto with frame]
    | apply keeps_update; intros []; reflexivity
    | apply keeps_bind; [|intros ?]
    | apply keeps_modify; intros ?; solve [auto]
    | match goal with
      | |- keeps _ _ (match ?x with _ => _ end) => destruct x
      | |- keeps _ _ (if ?b then _ else _) => destruct b
      end ].

Lemma keeps_tailq_remove c : ok (tailq_remove c).
Proof. unfold tailq_remove. frame. Qed.

Lemma keeps_tailq_empty : ok tailq_empty.
Proof. unfold tailq_empty. frame. Qed.

Local Hint Resolve keeps_tailq_remove keeps_tailq_empty : frame.

Lemma keeps___kill_ssh_client c fmt : ok (__kill_ssh_client c fmt).
Proof. unfold __kill_ssh_client. frame. Qed.

Lemma keeps_release c : ok (release c).
Proof. unfold release. frame. Qed.

Local Hint Resolve keeps___kill_ssh_client keeps_release : frame.

Lemma keeps_kill_ssh_client c fmt : ok (kill_ssh_client c fmt).
Proof. unfold kill_ssh_client. frame. Qed.

Lemma keeps_reconnect_ssh_client c fmt : ok (reconnect_ssh_client c fmt).
Proof. unfold reconnect_ssh_client. frame. Qed.

Local Hint Resolve keeps_kill_ssh_client keeps_reconnect_ssh_client : frame.

Lemma keeps_get_identity : ok get_identity.
Proof. unfold get_identity. frame. Qed.

Lemma keeps_passphrase_callback c len : ok (passphrase_callback c len).
Proof. unfold passphrase_callback. frame. Qed.

Lemma keeps_request_passphrase c : ok (request_passphrase c).
Proof. unfold request_passphrase. frame. Qed.

Lemma keeps_register_session_fd_event c : ok (register_session_fd_event c).
Proof. unfold register_session_fd_event. frame. Qed.

Local Hint Resolve keeps_get_identity keeps_passphrase_callback
  keeps_request_passphrase keeps_register_session_fd_event : frame.

Lemma keeps_kill_other_clients connected l : ok (kill_other_clients connected l).
Proof.
  induction l as [|c rest IH]; simpl; [frame|].
  destruct (Nat.eqb c connected); [exact IH|].
  intros w. unfold bind at 1, deref.
  destruct (heap w !! c) as [cl|] eqn:E; [|auto].
  destruct (has_encoder cl) eqn:He.
  - simpl. eauto.
  - assert (Hk : ok (exec kill_ssh_client c None ;;
                     kill_other_clients connected rest)) by frame.
    exact (Hk w).
Qed.

Local Hint Resolve keeps_kill_other_clients : frame.

Lemma keeps_on_ssh_auth_server_complete c : ok (on_ssh_auth_server_complete c).
Proof. unfold on_ssh_auth_server_complete. frame. Qed.

Lemma keeps_read_channel_loop c err lens : ok (read_channel_loop c err lens).
Proof. induction lens as [|len rest IH]; simpl; frame. Qed.

Local Hint Resolve keeps_on_ssh_auth_server_complete keeps_read_channel_loop : frame.

Lemma keeps_read_channel e c : ok (read_channel e c).
Proof. unfold read_channel. frame. Qed.

Lemma keeps_on_encoder_write c err writes :
  forall len, ok (on_encoder_write c err writes len).
Proof.
  induction writes as [|written rest IH]; intros len; simpl; frame.
Qed.

Local Hint Resolve keeps_read_channel keeps_on_encoder_write : frame.

Lemma keeps_case_SSH_READY e c session : ok (case_SSH_READY e c session).
Proof. unfold case_SSH_READY. frame. Qed.
Local Hint Resolve keeps_case_SSH_READY : frame.

Lemma keeps_case_SSH_BOOTSTRAP e c session : ok (case_SSH_BOOTSTRAP e c session).
Proof. unfold case_SSH_BOOTSTRAP. frame. Qed.
Local Hint Resolve keeps_case_SSH_BOOTSTRAP : frame.

Lemma keeps_case_SSH_OPEN_CHANNEL e c session :
  ok (case_SSH_OPEN_CHANNEL e c session).
Proof. unfold case_SSH_OPEN_CHANNEL. frame. Qed.
Local Hint Resolve keeps_case_SSH_OPEN_CHANNEL : frame.

Lemma keeps_switch_ssh_userauth_autopubkey e c session :
  ok (switch_ssh_userauth_autopubkey e c session).
Proof. unfold switch_ssh_userauth_autopubkey. frame. Qed.
Local Hint Resolve keeps_switch_ssh_userauth_autopubkey : frame.

Lemma keeps_case_SSH_AUTH_CLIENT e c session :
  ok (case_SSH_AUTH_CLIENT e c session).
Proof. unfold case_SSH_AUTH_CLIENT. frame. Qed.
Local Hint Resolve keeps_case_SSH_AUTH_CLIENT : frame.

Lemma keeps_case_SSH_AUTH_SERVER e c session :
  ok (case_SSH_AUTH_SERVER e c session).
Proof. unfold case_SSH_AUTH_SERVER. frame. Qed.
Local Hint Resolve keeps_case_SSH_AUTH_SERVER : frame.

Lemma keeps_case_SSH_CONNECT e c session : ok (case_SSH_CONNECT e c session).
Proof. unfold case_SSH_CONNECT. frame. Qed.
Local Hint Resolve keeps_case_SSH_CONNECT : frame.

Lemma keeps_case_SSH_INIT e c : ok (case_SSH_INIT e c).
Proof. unfold case_SSH_INIT. frame. Qed.
Local Hint Resolve keeps_case_SSH_INIT : frame.

Lemma keeps_on_ssh_client_event e c : ok (on_ssh_client_event e c).
Proof. unfold on_ssh_client_event. frame. Qed.
Local Hint Resolve keeps_on_ssh_client_event : frame.

Lemma keeps_on_passphrase_read e pass c : ok (on_passphrase_read e pass c).
Proof. unfold on_passphrase_read. frame. Qed.

Lemma keeps_connect_ssh_client e c : ok (connect_ssh_client e c).
Proof. unfold connect_ssh_client. frame. Qed.
Local Hint Resolve keeps_on_passphrase_read keeps_connect_ssh_client : frame.

Lemma keeps_tmate_ssh_client_alloc e ip : ok (tmate_ssh_client_alloc e ip).
Proof. unfold tmate_ssh_client_alloc. frame. Qed.

Lemma keeps_fire a e w r :
  fire a e w = Some r ->
  match r with
  | Ret _ w' => R w w'
  | Stop s w' => R w w' /\ S w s
  end.
Proof.
  destruct a as [ip|c|text|len writes]; simpl.
  - intros [= <-].
    assert (Hk : ok (c <- tmate_ssh_client_alloc e ip ;; ret tt)).
    { apply keeps_bind; [apply keeps_tmate_ssh_client_alloc|intros ?; frame]. }
    exact (Hk w).
  - destruct (heap w !! c) as [cl|]; [|discriminate].
    destruct (ev_ssh cl); try discriminate. intros [= <-].
    exact (keeps_on_ssh_client_event e c w).
  - destruct (first_pane w) as [| |prompt c]; try discriminate. intros [= <-].
    pose proof (keeps_on_passphrase_read e text c (set_first_pane NoMode w)) as Hk.
    destruct (on_passphrase_read e text c (set_first_pane NoMode w)) as [u w'|s w'].
    + eauto.
    + destruct Hk. split; eauto.
  - destruct (encoder_ready_cb w) as [c|]; [|discriminate]. intros [= <-].
    exact (keeps_on_encoder_write c _ writes len w).
Qed.

Lemma keeps_run script : forall w w', run script w = Some w' -> R w w'.
Proof.
  induction script as [|[a e] rest IH]; simpl; intros w w'.
  - intros [= <-]. apply R_refl.
  - destruct (fire a e w) as [[u w1|s w1]|] eqn:E; try discriminate.
    intros Hrun. apply keeps_fire in E. eauto.
Qed.

End Frame.

(** ** The [has_encoder] flag is never set *)

Lemma encoder_never_set_update w c cl cl' :
  heap w !! c = Some cl -> has_encoder cl' = has_encoder cl ->
  encoder_never_set w -> encoder_never_set (set_heap (<[c := cl']> (heap w)) w).
Proof.
  intros H He I c0 cl0. simpl.
  rewrite lookup_insert. case_decide; [|apply I].
  intros [= <-]. rewrite He. eauto.
Qed.

Lemma encoder_never_set_alloc w c e ip :
  encoder_never_set w ->
  encoder_never_set
    (set_heap (<[c := xmalloc_fields e (fresh_client ip)]> (heap w)) w).
Proof.
  intros I c0 cl0. simpl.
  rewrite lookup_insert. case_decide; [|apply I]. now intros [= <-].
Qed.

Lemma encoder_never_set_delete w c :
  encoder_never_set w -> encoder_never_set (set_heap (delete c (heap w)) w).
Proof.
  intros I c0 cl0 H. simpl in H.
  apply lookup_delete_Some in H. destruct H. eauto.
Qed.

Lemma encoder_never_set_assert w c cl :
  heap w !! c = Some cl -> has_encoder cl = true ->
  encoder_never_set w -> AssertionFailure <> AssertionFailure.
Proof. intros H He I. apply I in H. congruence. Qed.

(** Discharges the frame hypotheses for the [has_encoder] invariant. *)
Ltac encoder_frame :=
  first [ exact encoder_never_set_update | exact encoder_never_set_alloc
        | exact encoder_never_set_delete | exact encoder_never_set_assert
        | solve [intros; assumption] | solve [intros; discriminate]
        | solve [auto] ].

Lemma encoder_never_set_fire a e w r :
  fire a e w = Some r ->
  match r with
  | Ret _ w' => encoder_never_set w -> encoder_never_set w'
  | Stop s w' =>
      (encoder_never_set w -> encoder_never_set w') /\
      (encoder_never_set w -> s <> AssertionFailure)
  end.
Proof.
  apply (keeps_fire (fun w w' => encoder_never_set w -> encoder_never_set w')
                    (fun w s => encoder_never_set w -> s <> AssertionFailure));
    encoder_frame.
Qed.

Lemma encoder_never_set_run script w w' :
  run script w = Some w' -> encoder_never_set w -> encoder_never_set w'.
Proof.
  apply (keeps_run (fun w w' => encoder_never_set w -> encoder_never_set w')
                   (fun w s => encoder_never_set w -> s <> AssertionFailure));
    encoder_frame.
Qed.

Lemma encoder_never_set_elimination c w :
  match on_ssh_auth_server_complete c w with
  | Ret _ w' => encoder_never_set w -> encoder_never_set w'
  | Stop s w' =>
      (encoder_never_set w -> encoder_never_set w') /\
      (encoder_never_set w -> s <> AssertionFailure)
  end.
Proof.
  apply (keeps_on_ssh_auth_server_complete
           (fun w w' => encoder_never_set w -> encoder_never_set w')
           (fun w s => encoder_never_set w -> s <> AssertionFailure));
    encoder_frame.
Qed.

Lemma encoder_never_set_boot opts : encoder_never_set (boot opts).
Proof. intros c cl H. simpl in H. now rewrite lookup_empty in H. Qed.

(** C10. [tmate_ssh_client_alloc] starts a client with [has_encoder = 0],
    and in every world the reactor can reach from a fresh session, through
    allocations, socket events, pass-phrase submissions and encoder
    flushes, every allocated client still has [has_encoder = 0]; hence the
    assertion of the sibling elimination never fails, neither when the
    elimination is run in such a world nor inside any reactor event.  This
    includes a sibling that is READY with the encoder and decoder callbacks
    wired to it: in [winner_and_latecomer] client 0 is in that position,
    its flag is 0, and the elimination on behalf of client 1 kills it
    without the assertion failing. *)
Theorem has_encoder_never_set (opts : global_options)
    (script : list (action * answers)) (w : world) :
  run script (boot opts) = Some w ->
  (forall ip, has_encoder (fresh_client ip) = false) /\
  (forall c cl, heap w !! c = Some cl -> has_encoder cl = false) /\
  (forall c w', on_ssh_auth_server_complete c w <> Stop AssertionFailure w') /\
  (forall a e w', fire a e w <> Some (Stop AssertionFailure w')) /\
  (exists cl w',
     heap winner_and_latecomer !! 0 = Some cl /\ state cl = SSH_READY /\
     has_encoder cl = false /\
     encoder_ready_cb winner_and_latecomer = Some 0 /\
     decoder_cb winner_and_latecomer = Some 0 /\
     clients winner_and_latecomer = [0; 1] /\
     on_ssh_auth_server_complete 1 winner_and_latecomer = Ret tt w' /\
     heap w' !! 0 = None /\ clients w' = [1]).
Proof.
  intros Hrun.
  assert (I : encoder_never_set w)
    by (eapply encoder_never_set_run; [exact Hrun|apply encoder_never_set_boot]).
  split; [reflexivity|]. split; [exact I|]. split; [|split].
  - intros c w' E. pose proof (encoder_never_set_elimination c w) as H.
    rewrite E in H. destruct H as [_ H]. now apply H.
  - intros a e w' E. apply encoder_never_set_fire in E.
    destruct E as [_ E]. now apply E.
  - eexists. eexists.
    split; [vm_compute; reflexivity|]. split; [vm_compute; reflexivity|].
    split; [vm_compute; reflexivity|]. split; [vm_compute; reflexivity|].
    split; [vm_compute; reflexivity|]. split; [vm_compute; reflexivity|].
    split; [vm_compute; reflexivity|]. split; vm_compute; reflexivity.
Qed.

Lemma has_encoder_never_set_witness :
  run [(Alloc "10.0.0.1", all_ok); (Alloc "10.0.0.2", connect_again)] (boot opts0)
    = Some winner_and_latecomer /\
  (forall c cl, heap winner_and_latecomer !! c = Some cl -> has_encoder cl = false) /\
  (forall c w', on_ssh_auth_server_complete c winner_and_latecomer
                <> Stop AssertionFailure w').
Proof.
  assert (H : run [(Alloc "10.0.0.1", all_ok); (Alloc "10.0.0.2", connect_again)]
                (boot opts0) = Some winner_and_latecomer)
    by (vm_compute; reflexivity).
  destruct (has_encoder_never_set opts0 _ _ H) as (_ & A & B & _).
  split; [exact H|]. split; assumption.
Defined.

(** ** Client authentication *)

Lemma case_SSH_AUTH_CLIENT_attempt e c cl w :
  heap w !! c = Some cl -> state cl = SSH_AUTH_CLIENT ->
  on_ssh_client_event e c w =
  switch_ssh_userauth_autopubkey e c (session cl)
    (after_auth_attempt e c cl w).
Proof.
  intros H Hst. unfold on_ssh_client_event, bind at 1.
  rewrite (deref_ok _ _ _ H), Hst.
  unfold case_SSH_AUTH_CLIENT, after_auth_attempt, passphrase_callback,
    bind, update, bind, deref, gets, emit, modify, ret.
  rewrite H.
  destruct (auth_function_called e), (passphrase w) eqn:Hp; mrun;
    simpl; rewrite ?Hp; simpl; apply f_equal; world_eq.
Qed.

Lemma switch_denied_prompt e c cl session w :
  auth_denied (ssh_userauth_autopubkey_rc e) ->
  need_passphrase w = true ->
  heap w !! c = Some cl ->
  switch_ssh_userauth_autopubkey e c session w =
  Ret tt (set_log (retry_hint (tried_passphrase cl) ++ log (prompt_requested c w))
            (prompt_requested c w)).
Proof.
  intros Hrc Hneed H. unfold switch_ssh_userauth_autopubkey, prompt_requested.
  assert (Hgoal :
    (need <- gets need_passphrase ;;
     exec (if need then request_passphrase c
           else kill_ssh_client c (Some msg_keys_not_found)) ;;
     cl <- deref c ;;
     match tried_passphrase cl with
     | Some _ => emit (tmate_status_message msg_retry_passphrase)
     | None => ret tt
     end) w =
    Ret tt (set_log (retry_hint (tried_passphrase cl) ++
                     log (if is_password_prompt (first_pane w) then w
                          else set_first_pane
                                 (WINDOW_COPY_PASSWORD "SSH key passphrase" c) w))
              (if is_password_prompt (first_pane w) then w
               else set_first_pane
                      (WINDOW_COPY_PASSWORD "SSH key passphrase" c) w))).
  { unfold bind, gets, request_passphrase, bind, gets, modify, deref, emit,
      modify, ret.
    rewrite Hneed.
    destruct (first_pane w) eqn:Hp; simpl; rewrite H;
      destruct (tried_passphrase cl); simpl; world_eq. }
  destruct Hrc as [->|[->| ->]]; exact Hgoal.
Qed.

(** On the kill branch the test of [client->tried_passphrase] finds the
    client released. *)
Lemma switch_denied_kill e c cl session w :
  auth_denied (ssh_userauth_autopubkey_rc e) ->
  need_passphrase w = false ->
  heap w !! c = Some cl ->
  switch_ssh_userauth_autopubkey e c session w =
  Stop (UseAfterFree c)
    (released_world c (torn_down_world c cl (Some msg_keys_not_found) w)).
Proof.
  intros Hrc Hneed H. unfold switch_ssh_userauth_autopubkey.
  assert (Hgoal :
    (need <- gets need_passphrase ;;
     exec (if need then request_passphrase c
           else kill_ssh_client c (Some msg_keys_not_found)) ;;
     cl <- deref c ;;
     match tried_passphrase cl with
     | Some _ => emit (tmate_status_message msg_retry_passphrase)
     | None => ret tt
     end) w =
    Stop (UseAfterFree c)
      (released_world c (torn_down_world c cl (Some msg_keys_not_found) w))).
  { unfold bind at 1, gets. rewrite Hneed. unfold bind at 1.
    rewrite (kill_ssh_client_closed c cl) by exact H.
    unfold bind, deref. simpl. rewrite lookup_delete_eq. reflexivity. }
  destruct Hrc as [->|[->| ->]]; exact Hgoal.
Qed.


Lemma log_extends_refl w : log_extends w w.
Proof. now exists []. Qed.

Lemma log_extends_trans w1 w2 w3 :
  log_extends w1 w2 -> log_extends w2 w3 -> log_extends w1 w3.
Proof.
  intros [l1 H1] [l2 H2]. exists (l2 ++ l1).
  now rewrite H2, H1, app_assoc.
Qed.

Lemma log_extends_emit w ev : log_extends w (set_log (ev :: log w) w).
Proof. now exists [ev]. Qed.

(** Discharges the frame hypotheses for the growth of the log. *)
Ltac log_frame :=
  first [ exact log_extends_refl | exact log_extends_trans
        | exact log_extends_emit
        | solve [intros; exists []; reflexivity]
        | solve [auto] ].

Lemma log_extends_switch e c session w :
  log_extends w (result_world (switch_ssh_userauth_autopubkey e c session w)).
Proof.
  pose proof (keeps_switch_ssh_userauth_autopubkey log_extends (fun _ _ => True))
    as K.
  assert (K' : keeps log_extends (fun _ _ => True)
                 (switch_ssh_userauth_autopubkey e c session))
    by (apply K; log_frame).
  specialize (K' w).
  destruct (switch_ssh_userauth_autopubkey e c session w); simpl; tauto.
Qed.

Lemma log_extends_fire a e w r :
  fire a e w = Some r -> log_extends w (result_world r).
Proof.
  intros E.
  apply (keeps_fire log_extends (fun _ _ => True)) in E; try log_frame.
  destruct r; simpl; tauto.
Qed.

Lemma log_extends_run script w w' : run script w = Some w' -> log_extends w w'.
Proof. apply (keeps_run log_extends (fun _ _ => True)); log_frame. Qed.



(** C6, as far as the code goes.  For a client at AUTH_CLIENT whose attempt
    returns PARTIAL, INFO or DENIED with [need_passphrase] set, so that the
    prompt is requested: the hint "Can't load SSH key. Try typing passphrase
    again in case of typo. ctrl-c to abort." is shown exactly when the
    attempt was made with a pass-phrase, that is when the session had one
    cached from an earlier submission; with none cached nothing is shown to
    the user. *)
Theorem retry_hint_iff_passphrase_tried (e : answers) (c : cid)
    (cl : tmate_ssh_client) (w : world) :
  heap w !! c = Some cl -> state cl = SSH_AUTH_CLIENT ->
  auth_denied (ssh_userauth_autopubkey_rc e) ->
  need_passphrase (after_auth_attempt e c cl w) = true ->
  exists w',
    on_ssh_client_event e c w = Ret tt w' /\
    is_password_prompt (first_pane w') = true /\
    (passphrase w = None ->
       status_messages (log w') = status_messages (log w)) /\
    (forall p, passphrase w = Some p ->
       status_messages (log w') =
       msg_retry_passphrase :: status_messages (log w)).
Proof.
  intros H Hst Hrc Hneed.
  rewrite (case_SSH_AUTH_CLIENT_attempt e c cl w H Hst).
  eexists.
  split; [apply (switch_denied_prompt e c
                   (with_tried_passphrase (passphrase w) cl));
          [assumption|assumption|simpl; apply lookup_insert_eq]|].
  unfold prompt_requested. simpl.
  split; [|split].
  - destruct (first_pane w) eqn:Hp; simpl; rewrite ?Hp; reflexivity.
  - intros Hnone. rewrite Hnone.
    destruct (first_pane w); reflexivity.
  - intros p Hsome. rewrite Hsome.
    destruct (first_pane w); reflexivity.
Qed.

Lemma retry_hint_iff_passphrase_tried_witness :
  heap awaiting_auth !! 0 = Some client0_awaiting_auth /\
  need_passphrase awaiting_auth = true /\
  exists w',
    on_ssh_client_event (with_userauth SSH_AUTH_DENIED None all_ok) 0
      awaiting_auth = Ret tt w' /\
    status_messages (log w') = status_messages (log awaiting_auth).
Proof.
  assert (H : heap awaiting_auth !! 0 = Some client0_awaiting_auth)
    by (vm_compute; reflexivity).
  assert (Hn : need_passphrase awaiting_auth = true) by (vm_compute; reflexivity).
  destruct (retry_hint_iff_passphrase_tried
              (with_userauth SSH_AUTH_DENIED None all_ok) 0
              client0_awaiting_auth awaiting_auth H eq_refl)
    as (w' & E & _ & A & _).
  - right; right; reflexivity.
  - vm_compute; reflexivity.
  - split; [exact H|]. split; [exact Hn|].
    exists w'. split; [exact E|]. apply A. vm_compute. reflexivity.
Defined.

(** C6 as stated fails.  In [awaiting_auth] a pass-phrase has been asked
    for by libssh in an earlier invocation ([need_passphrase] is set) and
    none has been typed.  The socket of the client is reported ready and the
    attempt is denied: the prompt path is taken, the first pane now shows
    the password prompt for this client, the client is not killed, and
    nothing at all is shown to the user, in particular not the retry
    hint. *)
Lemma first_prompt_without_hint :
  need_passphrase awaiting_auth = true /\
  passphrase awaiting_auth = None /\
  heap awaiting_auth !! 0 = Some client0_awaiting_auth /\
  exists w',
    fire (SocketReady 0) (with_userauth SSH_AUTH_DENIED (Some 256) all_ok)
      awaiting_auth = Some (Ret tt w') /\
    first_pane w' = WINDOW_COPY_PASSWORD "SSH key passphrase" 0 /\
    clients w' = [0] /\
    status_messages (log w') = [] /\
    ~ In (tmate_status_message msg_retry_passphrase) (log w').
Proof.
  split; [vm_compute; reflexivity|]. split; [vm_compute; reflexivity|].
  split; [vm_compute; reflexivity|].
  eexists. split; [vm_compute; reflexivity|].
  split; [vm_compute; reflexivity|]. split; [vm_compute; reflexivity|].
  split; [vm_compute; reflexivity|].
  vm_compute. intuition discriminate.
Qed.

(** ** The READY state *)

Lemma ready_read_error_then_disconnected e c cl w len rest :
  heap w !! c = Some cl -> state cl = SSH_READY ->
  ssh_channel_read_nonblocking_lens e = len :: rest -> (len < 0)%Z ->
  ssh_is_connected_now e = false ->
  let w1 := torn_down_world c cl
              (Some ("Error reading from channel: " +:+ ssh_get_error_str e)) w in
  on_ssh_client_event e c w =
  Ret tt (torn_down_world c (torn_down cl) (Some "Disconnected")
            (set_log (ssh_is_connected (session cl) :: log w1) w1)).
Proof.
  intros H Hst Hl Hneg Hc w1.
  unfold on_ssh_client_event, bind at 1. rewrite (deref_ok _ _ _ H), Hst.
  unfold case_SSH_READY, read_channel, bind at 1, bind at 1.
  rewrite (deref_ok _ _ _ H), Hl. simpl.
  apply Z.ltb_lt in Hneg. rewrite Hneg.
  rewrite (reconnect_ssh_client_closed c cl) by exact H. fold w1.
  unfold bind, emit, modify. rewrite Hc.
  apply reconnect_ssh_client_closed. simpl. apply lookup_insert_eq.
Qed.

(** C2 on the code.  The only client of a session is READY; its socket is
    reported ready, the channel read fails and ssh_is_connected then answers
    no.  Within this one invocation the teardown runs twice: the client is
    removed from the TAILQ twice, its readiness event is deleted twice, and
    two messages reach the user, "Error reading from channel: ..." and then
    "Disconnected"; in between, ssh_is_connected is called on the handle
    that the first teardown has freed. *)
Theorem read_error_tears_down_twice :
  heap single_ready !! 0 = Some client0_ready /\
  clients single_ready = [0] /\
  exists w',
    fire (SocketReady 0) read_error single_ready = Some (Ret tt w') /\
    log w' =
      [event_del 0; tmate_status_message "Disconnected"; TAILQ_REMOVE 0;
       ssh_is_connected (Some 0);
       ssh_free 0; event_del 0;
       tmate_status_message
         "Error reading from channel: Socket error: disconnected";
       TAILQ_REMOVE 0] ++ log single_ready /\
    count_removals 0 (log w') = 2 /\
    status_messages (log w') =
      ["Disconnected"; "Error reading from channel: Socket error: disconnected"].
Proof.
  split; [vm_compute; reflexivity|]. split; [vm_compute; reflexivity|].
  eexists. split; [vm_compute; reflexivity|].
  split; [vm_compute; reflexivity|]. split; vm_compute; reflexivity.
Qed.

(** ** The race *)

(** C1 on the code.  Client 0 has reached READY inside its allocation: the
    encoder and decoder callbacks are wired to it.  Client 1 is allocated
    next and waits for its connection.  When the socket of client 1 is
    reported ready and its handshake goes through, the elimination kills
    client 0 without the assertion failing and without a word to the user,
    and client 1 reaches READY in turn: the encoder callback has been set
    twice, for two different clients of the same session. *)
Theorem second_winner_undetected :
  heap winner_and_latecomer !! 0 = Some client0_ready /\
  encoder_ready_cb winner_and_latecomer = Some 0 /\
  clients winner_and_latecomer = [0; 1] /\
  exists w' cl1,
    fire (SocketReady 1) all_ok winner_and_latecomer = Some (Ret tt w') /\
    heap w' !! 0 = None /\
    clients w' = [1] /\
    heap w' !! 1 = Some cl1 /\ state cl1 = SSH_READY /\
    encoder_ready_cb w' = Some 1 /\
    List.filter is_set_ready_callback (log w') =
      [tmate_encoder_set_ready_callback 1; tmate_encoder_set_ready_callback 0] /\
    status_messages (log w') = [].
Proof.
  split; [vm_compute; reflexivity|]. split; [vm_compute; reflexivity|].
  split; [vm_compute; reflexivity|].
  eexists. eexists. split; [vm_compute; reflexivity|].
  split; [vm_compute; reflexivity|]. split; [vm_compute; reflexivity|].
  split; [vm_compute; reflexivity|]. split; [vm_compute; reflexivity|].
  split; [vm_compute; reflexivity|]. split; vm_compute; reflexivity.
Qed.

(** * Further properties of the module *)

(** ** Small helpers: [get_identity], [passphrase_callback],
    [request_passphrase], [register_session_fd_event] *)

Lemma list_ascii_of_string_app a b :
  list_ascii_of_string (a +:+ b) = list_ascii_of_string a ++ list_ascii_of_string b.
Proof. induction a as [|x a IH]; simpl; [reflexivity|now rewrite IH]. Qed.

(** X1. [get_identity] returns NULL exactly for the empty option; whatever
    it returns contains a '/', and is the option itself or "%d/" followed
    by the option. *)
Theorem get_identity_of_shape (identity : string) :
  (get_identity_of identity = None <-> identity = EmptyString) /\
  (forall r, get_identity_of identity = Some r ->
     In "/"%char (list_ascii_of_string r) /\
     (r = identity \/ r = "%d/" +:+ identity)).
Proof.
  unfold get_identity_of. split.
  - destruct identity as [|a s]; simpl; [tauto|].
    destruct (Ascii.eqb a "/"); [split; discriminate|].
    destruct (strchr s "/"); split; discriminate.
  - intros r. destruct (Nat.eqb (strlen identity) 0); [discriminate|].
    destruct (strchr identity "/") eqn:E; intros [= <-].
    + split; [|now left]. apply strchr_Some. rewrite E. eauto.
    + split; [|now right]. simpl. right. right. now left.
Qed.

Lemma substring_0_length n s :
  String.length (substring 0 n s) = Nat.min n (String.length s).
Proof.
  revert s. induction n as [|n IH]; intros [|a s]; simpl; try reflexivity.
  now rewrite IH.
Qed.

Lemma substring_0_prefix n s : String.prefix (substring 0 n s) s = true.
Proof.
  revert s. induction n as [|n IH]; intros [|a s]; simpl; try reflexivity.
  destruct (ascii_dec a a); [apply IH|congruence].
Qed.

Lemma substring_0_all n s : String.length s <= n -> substring 0 n s = s.
Proof.
  revert s. induction n as [|n IH]; intros [|a s]; simpl; intros H;
    try reflexivity; [lia|].
  rewrite IH; [reflexivity|lia].
Qed.

(** X2. Called for an allocated client with a buffer of [len] bytes,
    [passphrase_callback] raises [need_passphrase] and changes nothing
    else: no prompt is opened, nothing is logged.  What it copies is at
    most [len] characters long and a prefix of the cached pass-phrase; it
    is the whole pass-phrase when that fits, and empty when none is
    cached. *)
Theorem passphrase_callback_fills_buffer (c : cid) (cl : tmate_ssh_client)
    (len : nat) (w : world) :
  heap w !! c = Some cl ->
  exists buf,
    passphrase_callback c len w = Ret buf (set_need_passphrase true w) /\
    String.length buf <= len /\
    (passphrase w = None -> buf = EmptyString) /\
    (forall p, passphrase w = Some p ->
       String.prefix buf p = true /\
       (String.length p <= len -> buf = p)).
Proof.
  intros H. unfold passphrase_callback, bind, gets, modify, ret.
  rewrite (deref_ok _ _ _ H). simpl.
  destruct (passphrase w) as [p|] eqn:Hp.
  - exists (substring 0 len p). split; [reflexivity|].
    split; [rewrite substring_0_length; lia|].
    split; [discriminate|]. intros p' [= <-].
    split; [apply substring_0_prefix|apply substring_0_all].
  - exists EmptyString. split; [reflexivity|]. split; [simpl; lia|].
    split; [reflexivity|discriminate].
Qed.

Lemma passphrase_callback_fills_buffer_witness :
  heap awaiting_auth !! 0 = Some client0_awaiting_auth /\
  passphrase_callback 0 256 awaiting_auth =
    Ret EmptyString (set_need_passphrase true awaiting_auth).
Proof.
  assert (H : heap awaiting_auth !! 0 = Some client0_awaiting_auth)
    by (vm_compute; reflexivity).
  split; [exact H|].
  destruct (passphrase_callback_fills_buffer 0 client0_awaiting_auth 256
              awaiting_auth H) as (buf & E & _ & A & _).
  rewrite E. rewrite A; [reflexivity|vm_compute; reflexivity].
Defined.

(** X3. [request_passphrase] always leaves a password prompt on the first
    pane and is idempotent: a second request, for any client, changes
    nothing.  When a prompt is already pending the request changes nothing
    at all, so the callback still belongs to the client that asked
    first. *)
Theorem request_passphrase_idempotent (c c' : cid) (w : world) :
  (exists w',
     request_passphrase c w = Ret tt w' /\
     is_password_prompt (first_pane w') = true /\
     request_passphrase c' w' = Ret tt w') /\
  (is_password_prompt (first_pane w) = true -> request_passphrase c w = Ret tt w) /\
  (is_password_prompt (first_pane w) = false ->
     request_passphrase c w =
     Ret tt (set_first_pane (WINDOW_COPY_PASSWORD "SSH key passphrase" c) w)).
Proof.
  unfold request_passphrase, bind, gets, modify, ret.
  destruct (first_pane w) eqn:Hp; simpl.
  - split; [|split; [discriminate|reflexivity]].
    eexists. split; [reflexivity|]. split; reflexivity.
  - split; [|split; [discriminate|reflexivity]].
    eexists. split; [reflexivity|]. split; reflexivity.
  - split; [|split; [reflexivity|discriminate]].
    exists w. rewrite Hp. split; [reflexivity|]. split; reflexivity.
Qed.

(** X4. [register_session_fd_event] on an allocated client adds the
    readiness event exactly when none was ever assigned, and a second call
    does nothing.  In particular it does nothing for a client whose event
    was deleted by a teardown: event_initialized still holds, so the event
    is not added again. *)
Theorem register_session_fd_event_once (c : cid) (cl : tmate_ssh_client)
    (w : world) :
  heap w !! c = Some cl ->
  exists w',
    register_session_fd_event c w = Ret tt w' /\
    register_session_fd_event c w' = Ret tt w' /\
    (ev_ssh cl = EvUnset ->
       w' = set_heap (<[c := with_ev_ssh EvPending cl]> (heap w))
              (set_log (event_add c :: log w) w)) /\
    (ev_ssh cl <> EvUnset -> w' = w).
Proof.
  intros H.
  destruct (ev_ssh cl) eqn:Hev.
  - exists (set_heap (<[c := with_ev_ssh EvPending cl]> (heap w))
              (set_log (event_add c :: log w) w)).
    unfold register_session_fd_event, bind, deref, emit, update, bind, deref,
      modify, ret.
    rewrite H, Hev. simpl. rewrite H. simpl. rewrite lookup_insert_eq. simpl.
    split; [reflexivity|]. split; [reflexivity|].
    split; [reflexivity|congruence].
  - exists w.
    unfold register_session_fd_event, bind, deref. rewrite H, Hev. simpl.
    split; [reflexivity|]. split; [reflexivity|].
    split; [discriminate|reflexivity].
  - exists w.
    unfold register_session_fd_event, bind, deref. rewrite H, Hev. simpl.
    split; [reflexivity|]. split; [reflexivity|].
    split; [discriminate|reflexivity].
Qed.

Lemma register_session_fd_event_once_witness :
  heap two_connecting !! 0 = Some client0_connecting /\
  register_session_fd_event 0 two_connecting = Ret tt two_connecting.
Proof.
  assert (H : heap two_connecting !! 0 = Some client0_connecting)
    by (vm_compute; reflexivity).
  split; [exact H|].
  destruct (register_session_fd_event_once 0 client0_connecting two_connecting H)
    as (w' & E & _ & _ & A).
  rewrite E. rewrite A; [reflexivity|vm_compute; discriminate].
Defined.

(** ** The state machine, step by step *)

Lemma on_ssh_client_event_dispatch e c cl w :
  heap w !! c = Some cl ->
  on_ssh_client_event e c w =
  match state cl with
  | SSH_NONE => Ret tt w
  | SSH_INIT => case_SSH_INIT e c w
  | SSH_CONNECT => case_SSH_CONNECT e c (session cl) w
  | SSH_AUTH_SERVER => case_SSH_AUTH_SERVER e c (session cl) w
  | SSH_AUTH_CLIENT => case_SSH_AUTH_CLIENT e c (session cl) w
  | SSH_OPEN_CHANNEL => case_SSH_OPEN_CHANNEL e c (session cl) w
  | SSH_BOOTSTRAP => case_SSH_BOOTSTRAP e c (session cl) w
  | SSH_READY => case_SSH_READY e c (session cl) w
  end.
Proof.
  intros H. unfold on_ssh_client_event, bind. rewrite (deref_ok _ _ _ H).
  destruct (state cl); reflexivity.
Qed.

Lemma read_channel_loop_closed c cl err lens w :
  heap w !! c = Some cl ->
  read_channel_loop c err lens w =
  Ret tt (if read_fails lens
          then torn_down_world c cl (Some ("Error reading from channel: " +:+ err))
                 (after_commits lens w)
          else after_commits lens w).
Proof.
  revert w. induction lens as [|len rest IH]; intros w H; simpl.
  - unfold ret, after_commits. simpl. world_eq.
  - destruct (len <? 0)%Z eqn:Hneg.
    + assert (Hpos : (0 <? len)%Z = false) by lia.
      unfold after_commits. simpl. rewrite Hpos. simpl.
      rewrite (reconnect_ssh_client_closed c cl) by exact H.
      apply f_equal. unfold torn_down_world, remaining_clients. simpl.
      reflexivity.
    + destruct (len =? 0)%Z eqn:Hz.
      * assert (Hpos : (0 <? len)%Z = false) by lia.
        unfold ret, after_commits. simpl. rewrite Hpos. simpl. world_eq.
      * assert (Hpos : (0 <? len)%Z = true) by lia.
        unfold bind, emit, modify. rewrite IH by exact H.
        unfold after_commits. simpl. rewrite Hpos. simpl.
        apply f_equal. rewrite <- !app_assoc. simpl.
        destruct (read_fails rest); [unfold torn_down_world, remaining_clients|];
          simpl; world_eq.
Qed.

Lemma case_SSH_READY_closed e c cl w :
  heap w !! c = Some cl ->
  case_SSH_READY e c (session cl) w = Ret tt (after_ready e c cl w).
Proof.
  intros H. unfold case_SSH_READY, read_channel, bind at 1, bind at 1.
  rewrite (deref_ok _ _ _ H).
  rewrite (read_channel_loop_closed c cl) by exact H.
  unfold after_ready, after_read_channel, client_after_read, error_message.
  unfold bind, emit, modify.
  destruct (ssh_is_connected_now e); [reflexivity|].
  apply reconnect_ssh_client_closed.
  destruct (read_fails _); simpl; [apply lookup_insert_eq|exact H].
Qed.

Lemma case_SSH_BOOTSTRAP_step e c cl w :
  heap w !! c = Some cl ->
  case_SSH_BOOTSTRAP e c (session cl) w =
  match ssh_channel_request_subsystem_rc e with
  | SSH_AGAIN => Ret tt w
  | SSH_ERROR =>
      Ret tt (torn_down_world c cl (error_message "Error initializing tmate: " e) w)
  | SSH_OK => case_SSH_READY e c (session cl) (bootstrapped c cl w)
  end.
Proof.
  intros H. unfold case_SSH_BOOTSTRAP.
  destruct (ssh_channel_request_subsystem_rc e).
  - unfold bootstrapped, bind, emit, update, bind, deref, modify.
    mrun. apply f_equal. world_eq.
  - apply reconnect_ssh_client_closed, H.
  - reflexivity.
Qed.

Lemma case_SSH_OPEN_CHANNEL_step e c cl w :
  heap w !! c = Some cl ->
  case_SSH_OPEN_CHANNEL e c (session cl) w =
  match ssh_channel_open_session_rc e with
  | SSH_AGAIN => Ret tt w
  | SSH_ERROR =>
      Ret tt (torn_down_world c cl (error_message "Error opening channel: " e) w)
  | SSH_OK => case_SSH_BOOTSTRAP e c (session cl) (channel_opened c cl w)
  end.
Proof.
  intros H. unfold case_SSH_OPEN_CHANNEL.
  destruct (ssh_channel_open_session_rc e).
  - unfold channel_opened, bind, emit, update, bind, deref, modify.
    mrun. apply f_equal. world_eq.
  - apply reconnect_ssh_client_closed, H.
  - reflexivity.
Qed.

Lemma case_SSH_AUTH_CLIENT_closed e c cl w :
  heap w !! c = Some cl ->
  case_SSH_AUTH_CLIENT e c (session cl) w =
  switch_ssh_userauth_autopubkey e c (session cl)
    (after_auth_attempt e c cl w).
Proof.
  intros H.
  unfold case_SSH_AUTH_CLIENT, after_auth_attempt, passphrase_callback,
    bind, update, bind, deref, gets, emit, modify, ret.
  rewrite H.
  destruct (auth_function_called e), (passphrase w) eqn:Hp; mrun;
    simpl; rewrite ?Hp; simpl; apply f_equal; world_eq.
Qed.

Lemma switch_ssh_userauth_autopubkey_step e c cl w :
  heap w !! c = Some cl ->
  switch_ssh_userauth_autopubkey e c (session cl) w =
  match ssh_userauth_autopubkey_rc e with
  | SSH_AUTH_AGAIN => Ret tt w
  | SSH_AUTH_PARTIAL | SSH_AUTH_INFO | SSH_AUTH_DENIED =>
      if need_passphrase w then
        Ret tt (set_log (retry_hint (tried_passphrase cl)
                         ++ log (prompt_requested c w))
                  (prompt_requested c w))
      else
        Stop (UseAfterFree c)
          (released_world c (torn_down_world c cl (Some msg_keys_not_found) w))
  | SSH_AUTH_ERROR =>
      Ret tt (torn_down_world c cl (error_message "Auth error: " e) w)
  | SSH_AUTH_SUCCESS =>
      case_SSH_OPEN_CHANNEL e c (session cl) (client_authenticated c cl w)
  end.
Proof.
  intros H.
  destruct (ssh_userauth_autopubkey_rc e) eqn:Hrc.
  - unfold switch_ssh_userauth_autopubkey. rewrite Hrc.
    unfold client_authenticated, bind, emit, update, bind, deref, modify.
    mrun. apply f_equal. world_eq.
  - destruct (need_passphrase w) eqn:Hn.
    + apply switch_denied_prompt; [right; right; exact Hrc|exact Hn|exact H].
    + apply (switch_denied_kill e c cl); [right; right; exact Hrc|exact Hn|exact H].
  - destruct (need_passphrase w) eqn:Hn.
    + apply switch_denied_prompt; [left; exact Hrc|exact Hn|exact H].
    + apply (switch_denied_kill e c cl); [left; exact Hrc|exact Hn|exact H].
  - destruct (need_passphrase w) eqn:Hn.
    + apply switch_denied_prompt; [right; left; exact Hrc|exact Hn|exact H].
    + apply (switch_denied_kill e c cl); [right; left; exact Hrc|exact Hn|exact H].
  - unfold switch_ssh_userauth_autopubkey. now rewrite Hrc.
  - unfold switch_ssh_userauth_autopubkey. rewrite Hrc.
    apply reconnect_ssh_client_closed, H.
Qed.

Lemma register_session_fd_event_closed c cl w :
  heap w !! c = Some cl ->
  register_session_fd_event c w = Ret tt (registered c cl w) /\
  heap (registered c cl w) !! c = Some (registered_client cl).
Proof.
  intros H. unfold register_session_fd_event, registered, registered_client,
    bind, deref, emit, update, bind, deref, modify, ret.
  rewrite H. destruct (event_initialized (ev_ssh cl)); simpl.
  - split; [reflexivity|exact H].
  - rewrite H. simpl. split; [reflexivity|apply lookup_insert_eq].
Qed.

Lemma case_SSH_CONNECT_step e c cl w :
  heap w !! c = Some cl ->
  case_SSH_CONNECT e c (session cl) w =
  match ssh_connect_rc e with
  | SSH_AGAIN => Ret tt (registered c cl w)
  | SSH_ERROR =>
      Ret tt (torn_down_world c cl (error_message "Error connecting: " e) w)
  | SSH_OK => case_SSH_AUTH_SERVER e c (session cl) (connected c cl w)
  end.
Proof.
  intros H. destruct (register_session_fd_event_closed c cl w H) as [Hr Hl].
  unfold case_SSH_CONNECT. destruct (ssh_connect_rc e).
  - unfold bind at 1. rewrite Hr.
    unfold connected, bind, emit, update, bind, deref, modify.
    rewrite Hl. simpl. rewrite Hl. simpl.
    assert (server_ip (registered_client cl) = server_ip cl) as ->
      by (unfold registered_client; destruct (event_initialized _); reflexivity).
    reflexivity.
  - apply reconnect_ssh_client_closed, H.
  - exact Hr.
Qed.

Lemma case_SSH_INIT_step e c cl w :
  heap w !! c = Some cl ->
  case_SSH_INIT e c w =
  if ssh_new_ok e && ssh_channel_new_ok e
  then case_SSH_CONNECT e c (Some (next_handle w)) (initialised c cl w)
  else Stop (FatalExit "cannot initialize") (init_failed e c cl w).
Proof.
  intros H.
  unfold case_SSH_INIT, init_failed, initialised, get_identity, tmate_fatal, halt,
    fresh_handle, bind, emit, update, bind, deref, gets, modify, ret.
  destruct (ssh_new_ok e), (ssh_channel_new_ok e); mrun; simpl.
  - destruct (get_identity_of (tmate_identity (options w))); mrun; simpl;
      apply f_equal; world_eq.
  - world_eq.
  - world_eq.
  - world_eq.
Qed.

Lemma kill_other_clients_closed connected :
  forall l w,
    NoDup l -> siblings_killable connected l w ->
    kill_other_clients connected l w =
    Ret tt (kill_other_clients_world connected l w).
Proof.
  induction l as [|c rest IH]; intros w Hnd Hk; simpl; [reflexivity|].
  apply NoDup_cons in Hnd. destruct Hnd as [Hnotin Hnd].
  destruct (Nat.eqb_spec c connected) as [->|Hne].
  - apply IH; [exact Hnd|]. intros x Hx. apply Hk. now right.
  - destruct (Hk c) as (cl & Hcl & He); [now left|exact Hne|].
    unfold bind at 1. rewrite (deref_ok _ _ _ Hcl). rewrite He. simpl.
    unfold bind at 1, ret. unfold bind at 1.
    rewrite (kill_ssh_client_closed c cl) by exact Hcl. rewrite Hcl.
    apply IH; [exact Hnd|].
    intros x Hx Hxc. destruct (Hk x) as (clx & Hclx & Hex); [now right|exact Hxc|].
    exists clx. split; [|exact Hex]. simpl.
    assert (x <> c) by (intros ->; contradiction).
    rewrite lookup_delete_ne, lookup_insert_ne by congruence. exact Hclx.
Qed.

Lemma same_session_state_refl w : same_session_state w w.
Proof. repeat split. Qed.

Lemma same_session_state_trans w1 w2 w3 :
  same_session_state w1 w2 -> same_session_state w2 w3 ->
  same_session_state w1 w3.
Proof.
  unfold same_session_state. intros (A1&A2&A3&A4&A5&A6&A7&A8) (B1&B2&B3&B4&B5&B6&B7&B8).
  repeat split; congruence.
Qed.

Lemma status_messages_released_torn_down_silent c cl w :
  status_messages (log (released_world c (torn_down_world c cl None w))) =
  status_messages (log w).
Proof.
  simpl. rewrite status_messages_app, status_messages_teardown_calls.
  reflexivity.
Qed.

(** Membership in an explicit list, by cases. *)
Ltac membership :=
  rewrite ?elem_of_cons, ?not_elem_of_cons in *;
  intuition (subst; try congruence; eauto).

Lemma kill_other_clients_world_spec connected :
  forall l w,
    NoDup l -> siblings_killable connected l w ->
    let w' := kill_other_clients_world connected l w in
    clients w' = filter (λ x, x = connected \/ x ∉ l) (clients w) /\
    (forall x, heap w' !! x =
               if decide (x ∈ l /\ x <> connected) then None else heap w !! x) /\
    same_session_state w w' /\
    status_messages (log w') = status_messages (log w).
Proof.
  induction l as [|c rest IH]; intros w Hnd Hk; cbv zeta;
    cbn [kill_other_clients_world].
  - split; [|split; [|split]].
    + symmetry. induction (clients w) as [|a l' IHl]; [reflexivity|].
      rewrite filter_cons. case_decide as Hn.
      * f_equal. exact IHl.
      * exfalso. apply Hn. right. apply not_elem_of_nil.
    + intros x. case_decide as Hd; [|reflexivity].
      destruct Hd as [Hin _]. now apply not_elem_of_nil in Hin.
    + apply same_session_state_refl.
    + reflexivity.
  - apply NoDup_cons in Hnd. destruct Hnd as [Hnotin Hnd].
    destruct (Nat.eqb_spec c connected) as [->|Hne].
    + destruct (IH w Hnd) as (A & B & C & D).
      { intros x Hx. apply Hk. now right. }
      split; [|split; [|split]]; [| |exact C|exact D].
      * rewrite A. apply list_filter_iff. intros x.
        rewrite not_elem_of_cons. destruct (decide (x = connected)); tauto.
      * intros x. rewrite B.
        repeat case_decide; try reflexivity; exfalso; membership.
    + destruct (Hk c) as (cl & Hcl & He); [now left|exact Hne|].
      rewrite Hcl.
      set (w1 := released_world c (torn_down_world c cl None w)).
      destruct (IH w1 Hnd) as (A & B & C & D).
      { intros x Hx Hxc.
        destruct (Hk x) as (clx & Hclx & Hex); [now right|exact Hxc|].
        exists clx. split; [|exact Hex]. subst w1. cbn.
        assert (x <> c) by (intros ->; contradiction).
        rewrite lookup_delete_ne, lookup_insert_ne by congruence. exact Hclx. }
      split; [|split; [|split]].
      * rewrite A. subst w1. cbn. unfold remaining_clients.
        rewrite list_filter_filter. apply list_filter_iff. intros x.
        rewrite not_elem_of_cons.
        assert (connected <> c) by congruence.
        destruct (decide (x = connected)); [subst; tauto|tauto].
      * intros x. rewrite B. subst w1. cbn.
        destruct (decide (x = c)) as [->|Hxc].
        { rewrite lookup_delete_eq.
          repeat case_decide; try reflexivity; exfalso; membership. }
        { rewrite lookup_delete_ne, lookup_insert_ne by congruence.
          repeat case_decide; try reflexivity; exfalso; membership. }
      * eapply same_session_state_trans; [|exact C].
        subst w1. repeat split.
      * rewrite D. subst w1. apply status_messages_released_torn_down_silent.
Qed.

(** ** The replay of the TAILQ calls *)

Lemma tailq_of_cons_other ev l :
  is_tailq_call ev = false -> tailq_of (ev :: l) = tailq_of l.
Proof.
  intros H. simpl. destruct (tailq_of l) as [[q last]|]; [|reflexivity].
  destruct ev; try discriminate; reflexivity.
Qed.

Lemma tailq_of_app_other calls l :
  other_calls calls -> tailq_of (calls ++ l) = tailq_of l.
Proof.
  induction 1 as [|ev calls Hev _ IH]; [reflexivity|].
  change ((ev :: calls) ++ l) with (ev :: (calls ++ l)).
  rewrite tailq_of_cons_other by exact Hev. exact IH.
Qed.

Lemma tailq_of_older calls l :
  is_Some (tailq_of (calls ++ l)) -> is_Some (tailq_of l).
Proof.
  induction calls as [|ev calls IH]; [auto|].
  simpl. destruct (tailq_of (calls ++ l)) as [[q last]|] eqn:E.
  - intros _. apply IH. eauto.
  - intros [x Hx]. discriminate.
Qed.

Lemma removals_exact_is_Some l :
  removals_exact l = true <-> is_Some (tailq_of l).
Proof.
  unfold removals_exact. destruct (tailq_of l); split; eauto.
  - discriminate.
  - intros [x Hx]. discriminate.
Qed.

Lemma removals_exact_older calls l :
  removals_exact (calls ++ l) = true -> removals_exact l = true.
Proof.
  rewrite !removals_exact_is_Some. apply tailq_of_older.
Qed.

Lemma filter_absent (c : cid) (q : list cid) :
  c ∉ q -> filter (λ x, x ≠ c) q = q.
Proof.
  induction q as [|a q IH]; [reflexivity|].
  rewrite not_elem_of_cons. intros [Hne Hq].
  rewrite filter_cons, decide_True by congruence. f_equal. now apply IH.
Qed.

(** An exact removal leaves the replayed TAILQ without the client. *)
Lemma tailq_of_remove c q last l :
  tailq_of l = Some (q, last) ->
  is_Some (tailq_of (TAILQ_REMOVE c :: l)) ->
  exists last',
    tailq_of (TAILQ_REMOVE c :: l) = Some (filter (λ x, x ≠ c) q, last').
Proof.
  intros E. simpl. rewrite E. unfold tailq_step.
  case_bool_decide as Hin; [eauto|].
  case_bool_decide as Hl; [|intros [x Hx]; discriminate].
  intros _. exists last. now rewrite filter_absent.
Qed.

Lemma tailq_of_remove_listed c q last l :
  tailq_of l = Some (q, last) -> c ∈ q ->
  tailq_of (TAILQ_REMOVE c :: l) = Some (filter (λ x, x ≠ c) q, Some c).
Proof.
  intros E Hin. simpl. rewrite E. unfold tailq_step.
  now rewrite bool_decide_eq_true_2.
Qed.

(** The removal that changed the TAILQ last can be repeated. *)
Lemma tailq_of_remove_again c q l :
  tailq_of l = Some (q, Some c) ->
  tailq_of (TAILQ_REMOVE c :: l) = Some (filter (λ x, x ≠ c) q, Some c).
Proof.
  intros E. simpl. rewrite E. unfold tailq_step.
  case_bool_decide as Hin; [reflexivity|].
  rewrite bool_decide_eq_true_2 by reflexivity. now rewrite filter_absent.
Qed.

(** A removal is not exact when the client is not in the TAILQ and another
    change of the TAILQ has come since it left. *)
Lemma tailq_of_remove_stale c q last l :
  tailq_of l = Some (q, last) -> c ∉ q -> last <> Some c ->
  tailq_of (TAILQ_REMOVE c :: l) = None.
Proof.
  intros E Hin Hl. simpl. rewrite E. unfold tailq_step.
  rewrite bool_decide_eq_false_2 by exact Hin.
  now rewrite bool_decide_eq_false_2 by exact Hl.
Qed.

Lemma teardown_calls_other c cl fmt remaining :
  other_calls (teardown_calls c cl fmt remaining).
Proof.
  unfold teardown_calls, teardown_notice, other_calls.
  destruct (session cl), (event_initialized (ev_ssh cl)), fmt as [msg|],
    remaining; simpl; repeat constructor.
Qed.

Lemma tailq_of_torn_down_world c cl fmt w :
  tailq_of (log (torn_down_world c cl fmt w)) = tailq_of (TAILQ_REMOVE c :: log w).
Proof.
  unfold torn_down_world. cbn [log set_heap set_log set_clients].
  apply tailq_of_app_other, teardown_calls_other.
Qed.

Lemma tailq_of_released_world c w :
  tailq_of (log (released_world c w)) = tailq_of (log w).
Proof. now apply tailq_of_cons_other. Qed.

Lemma retry_hint_other tried : other_calls (retry_hint tried).
Proof. destruct tried; repeat constructor. Qed.

Lemma commits_other lens :
  other_calls (rev (map tmate_decoder_commit lens)).
Proof.
  unfold other_calls. apply Forall_rev, Forall_map.
  induction lens; constructor; auto.
Qed.

(** ** Well-formed sessions are kept *)

Lemma wf_weaken (ex ex' : cid -> Prop) w :
  (forall c, ex c -> ex' c) -> wf ex w -> wf ex' w.
Proof.
  intros Hsub [A B C D E F G H I]. constructor; auto.
  intros c1 c2 cl1 cl2 H1 H2. apply E; auto.
Qed.

Lemma wf_emit ex calls w :
  other_calls calls -> wf ex w -> wf ex (set_log (calls ++ log w) w).
Proof.
  intros Hc [A B C D E F G H [last I]]. constructor; try assumption.
  exists last. cbn [log clients set_log]. now rewrite tailq_of_app_other.
Qed.

Lemma wf_emit1 ex ev w :
  is_tailq_call ev = false -> wf ex w -> wf ex (set_log (ev :: log w) w).
Proof.
  intros Hev. apply (wf_emit ex [ev]). now repeat constructor.
Qed.

Lemma wf_set_next_handle ex n w : wf ex w -> wf ex (set_next_handle n w).
Proof. intros [A B C D E F G H I]. constructor; assumption. Qed.

Lemma wf_set_need_passphrase ex b w :
  (need_passphrase w = true -> b = true) ->
  wf ex w -> wf ex (set_need_passphrase b w).
Proof.
  intros Hb [A B C D E F G H I]. constructor; try assumption; simpl; auto.
Qed.

Lemma wf_set_callbacks ex x w : wf ex w -> wf ex (set_callbacks x x w).
Proof. intros [A B C D E F G H I]. constructor; try assumption. reflexivity. Qed.

Lemma wf_set_first_pane ex m w :
  (is_password_prompt m = true -> need_passphrase w = true) ->
  wf ex w -> wf ex (set_first_pane m w).
Proof. intros Hm [A B C D E F G H I]. constructor; assumption. Qed.

Lemma wf_set_passphrase ex p w :
  need_passphrase w = true -> wf ex w -> wf ex (set_passphrase p w).
Proof. intros Hn [A B C D E F G H I]. constructor; try assumption. auto. Qed.

Lemma wf_update ex c cl cl' w :
  ex c -> heap w !! c = Some cl -> has_encoder cl' = false ->
  wf ex w -> wf ex (set_heap (<[c := cl']> (heap w)) w).
Proof.
  intros Hex Hc He [A B C D E F G H I]. constructor; try assumption; simpl.
  - intros x Hx. destruct (decide (x = c)) as [->|Hne].
    + rewrite lookup_insert_eq. eauto.
    + rewrite lookup_insert_ne by congruence. auto.
  - intros x clx. destruct (decide (x = c)) as [->|Hne].
    + rewrite lookup_insert_eq. intros [= <-]. split; [|exact He].
      exact (proj1 (C c cl Hc)).
    + rewrite lookup_insert_ne by congruence. apply C.
  - intros x clx Hnx. destruct (decide (x = c)) as [->|Hne]; [contradiction|].
    rewrite lookup_insert_ne by congruence. apply (D x clx Hnx).
  - intros c1 c2 cl1 cl2 H1 H2 L1 L2.
    assert (c1 <> c) by (intros ->; contradiction).
    assert (c2 <> c) by (intros ->; contradiction).
    rewrite !lookup_insert_ne by congruence. apply E; assumption.
Qed.

Lemma at_rest_transfer w w' c cl :
  (c ∈ clients w' <-> c ∈ clients w) -> at_rest w c cl -> at_rest w' c cl.
Proof.
  intros Hiff [(A & B)|(A & B)]; [left|right]; (split; [|exact B]); tauto.
Qed.

Lemma torn_down_at_rest w c cl :
  (session cl = None -> channel cl = None) ->
  c ∉ clients w -> at_rest w c (torn_down cl).
Proof.
  intros Hp Hc. right. split; [exact Hc|]. split; [reflexivity|].
  split; [reflexivity|]. split.
  - simpl. destruct (session cl); [reflexivity|now apply Hp].
  - simpl. destruct (event_initialized (ev_ssh cl)); discriminate.
Qed.

(** A teardown whose removal is exact. *)
Lemma wf_torn_down c cl fmt w :
  wf (fun x => x = c) w -> heap w !! c = Some cl ->
  (session cl = None -> channel cl = None) ->
  is_Some (tailq_of (TAILQ_REMOVE c :: log w)) ->
  well_formed (torn_down_world c cl fmt w).
Proof.
  intros [A B C D E F G H [last I]] Hc Hp Hx.
  assert (Hmem : forall x, x <> c ->
            (x ∈ clients (torn_down_world c cl fmt w) <-> x ∈ clients w)).
  { intros x Hx'. simpl. unfold remaining_clients.
    rewrite list_elem_of_filter. tauto. }
  constructor; try assumption.
  - simpl. now apply NoDup_filter.
  - intros x Hx'. simpl in *. unfold remaining_clients in Hx'.
    apply list_elem_of_filter in Hx'. destruct Hx' as [Hne Hx'].
    rewrite lookup_insert_ne by congruence. auto.
  - intros x clx. simpl. destruct (decide (x = c)) as [->|Hne].
    + rewrite lookup_insert_eq. intros [= <-].
      split; [exact (proj1 (C c cl Hc))|exact (proj2 (C c cl Hc))].
    + rewrite lookup_insert_ne by congruence. apply C.
  - intros x clx _. simpl heap. destruct (decide (x = c)) as [->|Hne].
    + rewrite lookup_insert_eq. intros [= <-].
      apply torn_down_at_rest; [exact Hp|].
      simpl. unfold remaining_clients. rewrite list_elem_of_filter. tauto.
    + rewrite lookup_insert_ne by congruence. intros Hx'.
      apply (at_rest_transfer w); [now apply Hmem|]. now apply D.
  - intros c1 c2 cl1 cl2 _ _ L1 L2.
    simpl in L1, L2. unfold remaining_clients in L1, L2.
    apply list_elem_of_filter in L1, L2. destruct L1 as [N1 L1], L2 as [N2 L2].
    simpl heap. rewrite !lookup_insert_ne by congruence.
    now apply E.
  - rewrite tailq_of_torn_down_world.
    exact (tailq_of_remove c (clients w) last (log w) I Hx).
Qed.

Lemma wf_killed c cl fmt w :
  wf (fun x => x = c) w -> heap w !! c = Some cl ->
  is_Some (tailq_of (TAILQ_REMOVE c :: log w)) ->
  well_formed (released_world c (torn_down_world c cl fmt w)).
Proof.
  intros [A B C D E F G H [last I]] Hc Hx.
  assert (Hmem : forall x, x <> c ->
            (x ∈ remaining_clients c w <-> x ∈ clients w)).
  { intros x Hx'. unfold remaining_clients.
    rewrite list_elem_of_filter. tauto. }
  assert (Hheap : forall x, x <> c ->
            delete c (<[c := torn_down cl]> (heap w)) !! x = heap w !! x).
  { intros x Hx'. rewrite lookup_delete_ne, lookup_insert_ne by congruence.
    reflexivity. }
  constructor; try assumption.
  - simpl. now apply NoDup_filter.
  - intros x Hx'. simpl in *. unfold remaining_clients in Hx'.
    apply list_elem_of_filter in Hx'. destruct Hx' as [Hne Hx'].
    rewrite Hheap by exact Hne. auto.
  - intros x clx. simpl. destruct (decide (x = c)) as [->|Hne].
    + rewrite lookup_delete_eq. discriminate.
    + rewrite Hheap by exact Hne. apply C.
  - intros x clx _. simpl heap. destruct (decide (x = c)) as [->|Hne].
    + rewrite lookup_delete_eq. discriminate.
    + rewrite Hheap by exact Hne. intros Hx'.
      apply (at_rest_transfer w); [simpl; now apply Hmem|]. now apply D.
  - intros c1 c2 cl1 cl2 _ _ L1 L2.
    simpl in L1, L2. unfold remaining_clients in L1, L2.
    apply list_elem_of_filter in L1, L2. destruct L1 as [N1 L1], L2 as [N2 L2].
    simpl heap. rewrite !Hheap by congruence.
    now apply E.
  - rewrite tailq_of_released_world, tailq_of_torn_down_world.
    exact (tailq_of_remove c (clients w) last (log w) I Hx).
Qed.

Lemma wf_finish c cl w :
  wf (fun x => x = c) w -> heap w !! c = Some cl ->
  at_rest w c cl ->
  (past_auth_server (state cl) = true -> no_other_winner c w) ->
  well_formed w.
Proof.
  intros [A B C D E F G H I] Hc Hr Hw. constructor; try assumption.
  - intros x clx _ Hx. destruct (decide (x = c)) as [->|Hne].
    + rewrite Hc in Hx. injection Hx as <-. exact Hr.
    + now apply D.
  - intros c1 c2 cl1 cl2 _ _ L1 L2 H1 H2 P1 P2.
    destruct (decide (c1 = c)) as [->|N1], (decide (c2 = c)) as [->|N2].
    + reflexivity.
    + rewrite Hc in H1. injection H1 as <-.
      rewrite (Hw P1 c2 cl2 N2 L2 H2) in P2. discriminate.
    + rewrite Hc in H2. injection H2 as <-.
      rewrite (Hw P2 c1 cl1 N1 L1 H1) in P1. discriminate.
    + now apply (E c1 c2 cl1 cl2).
Qed.

Lemma well_formed_no_other_winner c cl w :
  well_formed w -> c ∈ clients w -> heap w !! c = Some cl ->
  past_auth_server (state cl) = true -> no_other_winner c w.
Proof.
  intros W Hin Hc Hp c' cl' Hne Hin' Hc'.
  destruct (past_auth_server (state cl')) eqn:Hp'; [|reflexivity].
  exfalso. apply Hne.
  apply (wf_race _ _ W c' c cl' cl); auto.
Qed.

Lemma no_other_winner_same c w w' :
  clients w' = clients w ->
  (forall x, x <> c -> heap w' !! x = heap w !! x) ->
  no_other_winner c w -> no_other_winner c w'.
Proof.
  intros Hc Hh Hn x clx Hne Hin Hx.
  rewrite Hc in Hin. rewrite Hh in Hx by exact Hne. eauto.
Qed.

(** The heap away from [c] after stores to [c]. *)
Ltac other_clients :=
  intros; simpl; rewrite ?lookup_insert_ne by congruence; reflexivity.

Lemma well_formed_exact ex w : wf ex w -> removals_exact (log w) = true.
Proof.
  intros W. destruct (wf_tailq _ _ W) as [last I].
  unfold removals_exact. now rewrite I.
Qed.

Lemma running_has_encoder c cl w : running c cl w -> has_encoder cl = false.
Proof. intros (W & Hc & _). exact (proj2 (wf_live _ _ W c cl Hc)). Qed.

Lemma running_paired c cl w :
  running c cl w -> session cl = None -> channel cl = None.
Proof. intros (_ & _ & _ & [h Hs] & _) Hn. congruence. Qed.

Lemma running_emit c cl calls w :
  other_calls calls -> running c cl w ->
  running c cl (set_log (calls ++ log w) w).
Proof.
  intros Ho (W & Hc & Hin & Hs & Hch).
  split; [now apply wf_emit|]. repeat (split; [assumption|]). assumption.
Qed.

Lemma running_emit1 c cl ev w :
  is_tailq_call ev = false -> running c cl w ->
  running c cl (set_log (ev :: log w) w).
Proof.
  intros Hev. apply (running_emit c cl [ev]). now repeat constructor.
Qed.

(** A store to the running client that keeps its handles. *)
Lemma running_update c cl cl' w :
  running c cl w -> has_encoder cl' = false ->
  session cl' = session cl -> channel cl' = channel cl ->
  running c cl' (set_heap (<[c := cl']> (heap w)) w).
Proof.
  intros (W & Hc & Hin & Hs & Hch) He Es Ech.
  split; [now apply (wf_update _ c cl)|].
  split; [simpl; apply lookup_insert_eq|].
  split; [exact Hin|]. rewrite Es, Ech. split; assumption.
Qed.

(** The running client is in the TAILQ: its removal is exact, and it is
    then the client removed last. *)
Lemma running_removal c cl fmt w :
  running c cl w ->
  tailq_of (log (torn_down_world c cl fmt w)) =
    Some (remaining_clients c w, Some c) /\
  is_Some (tailq_of (TAILQ_REMOVE c :: log w)).
Proof.
  intros (W & Hc & Hin & _). destruct (wf_tailq _ _ W) as [last I].
  pose proof (tailq_of_remove_listed c (clients w) last (log w) I Hin) as E.
  split; [now rewrite tailq_of_torn_down_world|]. rewrite E. eauto.
Qed.

Lemma running_torn_down c cl fmt w :
  running c cl w -> well_formed (torn_down_world c cl fmt w).
Proof.
  intros R. pose proof (proj2 (running_removal c cl fmt w R)) as Hx.
  destruct R as (W & Hc & Hin & Hs & Hch).
  apply wf_torn_down; [exact W|exact Hc| |exact Hx].
  destruct Hs as [h Hs]. congruence.
Qed.

Lemma running_killed c cl fmt w :
  running c cl w -> well_formed (released_world c (torn_down_world c cl fmt w)).
Proof.
  intros R. pose proof (proj2 (running_removal c cl fmt w R)) as Hx.
  destruct R as (W & Hc & _). now apply wf_killed.
Qed.

Lemma running_finish c cl w :
  running c cl w -> active (state cl) = true -> ev_ssh cl <> EvUnset ->
  (past_auth_server (state cl) = true -> no_other_winner c w) ->
  well_formed w.
Proof.
  intros (W & Hc & Hin & Hs & Hch) Ha Hev Hw.
  apply (wf_finish c cl); try assumption.
  left. repeat (split; [assumption|]). assumption.
Qed.

Lemma case_SSH_READY_outcome e c cl w :
  running c cl w -> state cl = SSH_READY -> ev_ssh cl <> EvUnset ->
  no_other_winner c w ->
  entry_outcome e c (case_SSH_READY e c (session cl) w).
Proof.
  intros R Hst Hev Hw.
  rewrite (case_SSH_READY_closed e c cl w) by apply R.
  unfold entry_outcome, after_ready, after_read_channel, client_after_read.
  assert (R1 : running c cl (after_commits (ssh_channel_read_nonblocking_lens e) w))
    by (apply running_emit; [apply commits_other|exact R]).
  set (w0 := after_commits (ssh_channel_read_nonblocking_lens e) w) in *.
  destruct (read_fails (ssh_channel_read_nonblocking_lens e)).
  - pose proof (running_torn_down c cl
                  (error_message "Error reading from channel: " e) _ R1) as W1.
    pose proof (proj1 (running_removal c cl
                  (error_message "Error reading from channel: " e) _ R1)) as L1.
    set (w1 := torn_down_world c cl
                 (error_message "Error reading from channel: " e) w0) in *.
    destruct (ssh_is_connected_now e); [now apply wf_emit1|].
    apply wf_torn_down.
    + apply wf_emit1; [reflexivity|].
      apply (wf_weaken (fun _ => False)); [intros ? []|exact W1].
    + simpl. apply lookup_insert_eq.
    + intros _. simpl. destruct R as (_ & _ & _ & [h ->] & _). reflexivity.
    + cbn [log set_log].
      rewrite (tailq_of_remove_again c (remaining_clients c w0)
                 (ssh_is_connected (session cl) :: log w1)); [eauto|].
      now rewrite tailq_of_cons_other.
  - destruct (ssh_is_connected_now e).
    + apply (running_finish c cl); [apply running_emit1; [reflexivity|exact R1]| | |].
      * now rewrite Hst.
      * exact Hev.
      * intros _. revert Hw. apply no_other_winner_same; [reflexivity|].
        other_clients.
    + apply running_torn_down, running_emit1; [reflexivity|exact R1].
Qed.

Lemma case_SSH_BOOTSTRAP_outcome e c cl w :
  running c cl w -> state cl = SSH_BOOTSTRAP -> ev_ssh cl <> EvUnset ->
  no_other_winner c w ->
  entry_outcome e c (case_SSH_BOOTSTRAP e c (session cl) w).
Proof.
  intros R Hst Hev Hw.
  rewrite (case_SSH_BOOTSTRAP_step e c cl w) by apply R.
  destruct (ssh_channel_request_subsystem_rc e).
  - apply (case_SSH_READY_outcome e c (with_state SSH_READY cl)).
    + unfold bootstrapped.
      assert (Ho : other_calls
                     [tmate_decoder_init c; tmate_encoder_set_ready_callback c;
                      ssh_set_blocking (session cl) true; tmate_debug "Ready"])
        by (repeat constructor).
      destruct (running_update c cl (with_state SSH_READY cl) _
                  (running_emit c cl _ w Ho R))
        as (W & Hc & Hin & Hs & Hch);
        [apply (running_has_encoder c cl w R)|reflexivity|reflexivity|].
      split; [now apply wf_set_callbacks|].
      repeat (split; [assumption|]). assumption.
    + reflexivity.
    + exact Hev.
    + revert Hw. apply no_other_winner_same; [reflexivity|]. other_clients.
  - simpl. now apply running_torn_down.
  - simpl. apply (running_finish c cl); try assumption.
    + now rewrite Hst.
    + intros _. exact Hw.
Qed.

Lemma case_SSH_OPEN_CHANNEL_outcome e c cl w :
  running c cl w -> state cl = SSH_OPEN_CHANNEL -> ev_ssh cl <> EvUnset ->
  no_other_winner c w ->
  entry_outcome e c (case_SSH_OPEN_CHANNEL e c (session cl) w).
Proof.
  intros R Hst Hev Hw.
  rewrite (case_SSH_OPEN_CHANNEL_step e c cl w) by apply R.
  destruct (ssh_channel_open_session_rc e).
  - apply (case_SSH_BOOTSTRAP_outcome e c (with_state SSH_BOOTSTRAP cl)).
    + unfold channel_opened.
      apply (running_update c cl _
               (set_log (tmate_debug "Session opened, initalizing tmate"
                         :: log w) w));
        [apply running_emit1; [reflexivity|exact R]
        |apply (running_has_encoder c cl w R)|reflexivity|reflexivity].
    + reflexivity.
    + exact Hev.
    + revert Hw. apply no_other_winner_same; [reflexivity|]. other_clients.
  - simpl. now apply running_torn_down.
  - simpl. apply (running_finish c cl); try assumption.
    + now rewrite Hst.
    + intros _. exact Hw.
Qed.

Lemma kill_other_clients_world_self c cl l w :
  NoDup l -> siblings_killable c l w -> heap w !! c = Some cl ->
  heap (kill_other_clients_world c l w) !! c = Some cl.
Proof.
  intros Hnd Hk Hc.
  destruct (kill_other_clients_world_spec c l w Hnd Hk) as (_ & B & _).
  rewrite B. case_decide as Hd; [|exact Hc]. destruct Hd as [_ Hd]. congruence.
Qed.

(** The elimination removes clients that are in the TAILQ: its removals
    are exact. *)
Lemma kill_other_clients_world_tailq connected :
  forall l w last,
    NoDup l -> siblings_killable connected l w ->
    (forall x, x ∈ l -> x ∈ clients w) ->
    tailq_of (log w) = Some (clients w, last) ->
    exists last',
      tailq_of (log (kill_other_clients_world connected l w)) =
      Some (clients (kill_other_clients_world connected l w), last').
Proof.
  induction l as [|c rest IH]; intros w last Hnd Hk Hsub I;
    cbn [kill_other_clients_world]; [eauto|].
  apply NoDup_cons in Hnd. destruct Hnd as [Hnotin Hnd].
  destruct (Nat.eqb_spec c connected) as [->|Hne].
  - apply (IH w last); [exact Hnd| |intros x Hx; apply Hsub; now right|exact I].
    intros x Hx. apply Hk. now right.
  - destruct (Hk c) as (cl & Hcl & He); [now left|exact Hne|].
    rewrite Hcl.
    set (w1 := released_world c (torn_down_world c cl None w)).
    assert (Hin : c ∈ clients w) by (apply Hsub; now left).
    apply (IH w1 (Some c)); [exact Hnd| | |].
    + intros x Hx Hxc.
      destruct (Hk x) as (clx & Hclx & Hex); [now right|exact Hxc|].
      exists clx. split; [|exact Hex]. subst w1. cbn.
      assert (x <> c) by (intros ->; contradiction).
      rewrite lookup_delete_ne, lookup_insert_ne by congruence. exact Hclx.
    + intros x Hx. subst w1. cbn. unfold remaining_clients.
      rewrite list_elem_of_filter. split; [intros ->; contradiction|].
      apply Hsub. now right.
    + subst w1. rewrite tailq_of_released_world, tailq_of_torn_down_world.
      exact (tailq_of_remove_listed c (clients w) last (log w) I Hin).
Qed.

Lemma case_SSH_AUTH_SERVER_step e c cl w :
  heap w !! c = Some cl ->
  NoDup (clients w) -> siblings_killable c (clients w) w ->
  case_SSH_AUTH_SERVER e c (session cl) w =
  if negb (ssh_get_publickey_ok e) then Stop (FatalExit "ssh_get_publickey") w
  else if negb (ssh_get_publickey_hash_ok e) then
    Ret tt (released_world c
              (torn_down_world c cl (Some msg_cannot_authenticate) w))
  else
    match ssh_get_hexa_str e with
    | None => Stop (FatalExit "malloc failed") w
    | Some hash_str =>
        if negb (host_key_match (options w) (ssh_key_type_is e) hash_str) then
          Ret tt (released_world c
                    (torn_down_world c cl (Some msg_cannot_authenticate) w))
        else case_SSH_AUTH_CLIENT e c (session cl) (race_won c cl w)
    end.
Proof.
  intros H Hnd Hk. unfold case_SSH_AUTH_SERVER, bind at 1.
  destruct (ssh_get_publickey_ok e); [|reflexivity]. simpl.
  destruct (ssh_get_publickey_hash_ok e); simpl;
    [|apply kill_ssh_client_closed, H].
  destruct (ssh_get_hexa_str e) as [hash_str|]; [|reflexivity].
  unfold bind at 1, gets.
  destruct (host_key_match (options w) (ssh_key_type_is e) hash_str); simpl;
    [|apply kill_ssh_client_closed, H].
  unfold bind at 1. rewrite (deref_ok _ _ _ H).
  unfold bind at 1, emit, modify.
  set (w0 := set_log (tmate_debug ("Connected to " +:+ server_ip cl) :: log w) w).
  unfold bind at 1, on_ssh_auth_server_complete, bind at 1, gets.
  assert (Hk0 : siblings_killable c (clients w0) w0) by exact Hk.
  rewrite (kill_other_clients_closed c (clients w0) w0 Hnd Hk0).
  unfold bind at 1, update, bind at 1.
  rewrite (deref_ok _ cl) by (apply kill_other_clients_world_self; assumption).
  reflexivity.
Qed.

Lemma filter_self_or_absent c :
  forall l l0 : list cid, NoDup l -> (forall x, x ∈ l -> x ∈ l0) ->
    filter (λ x, x = c \/ x ∉ l0) l = if decide (c ∈ l) then [c] else [].
Proof.
  induction l as [|a l IH]; intros l0 Hnd Hsub.
  - case_decide as Hd; [now apply not_elem_of_nil in Hd|reflexivity].
  - apply NoDup_cons in Hnd. destruct Hnd as [Ha Hnd].
    rewrite filter_cons.
    rewrite (IH l0 Hnd) by (intros x Hx; apply Hsub; now right).
    destruct (decide (a = c)) as [->|Hne].
    + repeat case_decide; try reflexivity; exfalso; membership.
    + assert (a ∈ l0) by (apply Hsub; now left).
      repeat case_decide; try reflexivity; exfalso; membership.
Qed.

Lemma wf_siblings_killable ex c w : wf ex w -> siblings_killable c (clients w) w.
Proof.
  intros W x Hx _. destruct (wf_listed _ _ W x Hx) as [cl Hcl].
  exists cl. split; [exact Hcl|]. exact (proj2 (wf_live _ _ W x cl Hcl)).
Qed.

Lemma running_race_won c cl w :
  running c cl w ->
  running c (with_state SSH_AUTH_CLIENT cl) (race_won c cl w) /\
  no_other_winner c (race_won c cl w).
Proof.
  intros R. pose proof (running_has_encoder c cl w R) as He.
  assert (R0 : running c cl
                 (set_log (tmate_debug ("Connected to " +:+ server_ip cl)
                           :: log w) w))
    by (apply running_emit1; [reflexivity|exact R]).
  set (w0 := set_log (tmate_debug ("Connected to " +:+ server_ip cl) :: log w) w)
    in *.
  destruct R0 as (W & Hc & Hin & Hs & Hch).
  pose proof (wf_nodup _ _ W) as Hnd.
  pose proof (wf_siblings_killable _ c w0 W) as Hk.
  destruct (wf_tailq _ _ W) as [last I].
  destruct (kill_other_clients_world_spec c (clients w0) w0 Hnd Hk)
    as (A & B & C & D).
  destruct (kill_other_clients_world_tailq c (clients w0) w0 last Hnd Hk
              (fun x Hx => Hx) I) as [last1 I1].
  set (w1 := kill_other_clients_world c (clients w0) w0) in *.
  assert (Hcl1 : clients w1 = [c]).
  { rewrite A.
    rewrite (filter_self_or_absent c (clients w0) (clients w0) Hnd) by auto.
    now rewrite decide_True by exact Hin. }
  assert (Hself : heap w1 !! c = Some cl)
    by (apply kill_other_clients_world_self; assumption).
  destruct C as (C1 & C2 & C3 & C4 & C5 & C6 & C7 & C8).
  assert (W1 : wf (fun x => x = c) w1).
  { destruct W as [WA WB WC WD WE WF WG WH WI]. constructor.
    - rewrite Hcl1. apply NoDup_singleton.
    - intros x Hx. rewrite Hcl1 in Hx. apply list_elem_of_singleton in Hx.
      subst x. rewrite Hself. eauto.
    - intros x clx Hx. rewrite B in Hx. case_decide; [discriminate|].
      rewrite C7. now apply WC.
    - intros x clx Hne Hx. rewrite B in Hx. case_decide as Hd; [discriminate|].
      assert (Hnot : x ∉ clients w0) by tauto.
      destruct (WD x clx Hne Hx) as [(L & _)|(L & S1 & S2 & S3 & S4)];
        [contradiction|].
      right. split; [|auto]. rewrite Hcl1. intros Hx'.
      apply list_elem_of_singleton in Hx'. contradiction.
    - intros c1 c2 cl1 cl2 N1 N2 L1. rewrite Hcl1 in L1.
      apply list_elem_of_singleton in L1. contradiction.
    - now rewrite C3, C4.
    - now rewrite C5, C1.
    - now rewrite C2, C1.
    - exists last1. exact I1. }
  split.
  - unfold race_won, server_authenticated. fold w0 w1.
    split; [now apply (wf_update _ c cl)|].
    split; [simpl; apply lookup_insert_eq|].
    split; [change (c ∈ clients w1); rewrite Hcl1; apply list_elem_of_here|].
    split; assumption.
  - intros x clx Hne Hx. unfold race_won, server_authenticated in Hx.
    fold w0 w1 in Hx. change (x ∈ clients w1) in Hx. rewrite Hcl1 in Hx.
    apply list_elem_of_singleton in Hx. contradiction.
Qed.

Lemma running_set_need_passphrase c cl b w :
  (need_passphrase w = true -> b = true) ->
  running c cl w -> running c cl (set_need_passphrase b w).
Proof.
  intros Hb (W & Hc & Hin & Hs & Hch).
  split; [now apply wf_set_need_passphrase|].
  repeat (split; [assumption|]). assumption.
Qed.

Lemma running_set_first_pane c cl m w :
  (is_password_prompt m = true -> need_passphrase w = true) ->
  running c cl w -> running c cl (set_first_pane m w).
Proof.
  intros Hm (W & Hc & Hin & Hs & Hch).
  split; [now apply wf_set_first_pane|].
  repeat (split; [assumption|]). assumption.
Qed.

Lemma running_after_auth_attempt e c cl w :
  running c cl w ->
  running c (with_tried_passphrase (passphrase w) cl) (after_auth_attempt e c cl w).
Proof.
  intros R. unfold after_auth_attempt.
  apply running_set_need_passphrase.
  - simpl. destruct (auth_function_called e); auto.
  - apply (running_update c cl _
             (set_log (ssh_userauth_autopubkey (session cl) (passphrase w)
                       :: log w) w));
      [apply running_emit1; [reflexivity|exact R]
      |apply (running_has_encoder c cl w R)|reflexivity|reflexivity].
Qed.

Lemma case_SSH_AUTH_CLIENT_outcome e c cl w :
  running c cl w -> state cl = SSH_AUTH_CLIENT -> ev_ssh cl <> EvUnset ->
  no_other_winner c w ->
  entry_outcome e c (case_SSH_AUTH_CLIENT e c (session cl) w).
Proof.
  intros R Hst Hev Hw.
  rewrite (case_SSH_AUTH_CLIENT_closed e c cl w) by apply R.
  pose proof (running_after_auth_attempt e c cl w R) as R1.
  set (cl1 := with_tried_passphrase (passphrase w) cl) in *.
  set (w1 := after_auth_attempt e c cl w) in *.
  assert (Hst1 : state cl1 = SSH_AUTH_CLIENT) by exact Hst.
  assert (Hev1 : ev_ssh cl1 <> EvUnset) by exact Hev.
  assert (Hw1 : no_other_winner c w1).
  { revert Hw. apply no_other_winner_same; [reflexivity|].
    subst w1. unfold after_auth_attempt. other_clients. }
  change (session cl) with (session cl1).
  rewrite (switch_ssh_userauth_autopubkey_step e c cl1 w1)
    by apply R1.
  assert (Hdenied : auth_denied (ssh_userauth_autopubkey_rc e) ->
    entry_outcome e c
      (if need_passphrase w1
       then Ret tt (set_log (retry_hint (tried_passphrase cl1)
                             ++ log (prompt_requested c w1))
                      (prompt_requested c w1))
       else Stop (UseAfterFree c)
              (released_world c
                 (torn_down_world c cl1 (Some msg_keys_not_found) w1)))).
  { intros Hrc. destruct (need_passphrase w1) eqn:Hn; simpl.
    - apply wf_emit; [apply retry_hint_other|]. unfold prompt_requested.
      destruct (is_password_prompt (first_pane w1)).
      + apply (running_finish c cl1); try assumption; [now rewrite Hst1|auto].
      + apply (running_finish c cl1 _
                 (running_set_first_pane c cl1 _ w1 (fun _ => Hn) R1));
          [now rewrite Hst1|exact Hev1|].
        intros _. revert Hw1. apply no_other_winner_same; [reflexivity|].
        other_clients.
    - right. split; [reflexivity|]. split; [exact Hrc|].
      split; [exact Hn|]. split; [apply lookup_delete_eq|].
      now apply running_killed. }
  destruct (ssh_userauth_autopubkey_rc e) eqn:Hrc.
  - apply (case_SSH_OPEN_CHANNEL_outcome e c (with_state SSH_OPEN_CHANNEL cl1)).
    + unfold client_authenticated.
      apply (running_update c cl1 _
               (set_log (tmate_debug "Auth successful" :: log w1) w1));
        [apply running_emit1; [reflexivity|exact R1]
        |apply (running_has_encoder c cl1 w1 R1)|reflexivity|reflexivity].
    + reflexivity.
    + exact Hev1.
    + revert Hw1. apply no_other_winner_same; [reflexivity|].
      unfold client_authenticated. other_clients.
  - apply Hdenied. right. right. reflexivity.
  - apply Hdenied. left. reflexivity.
  - apply Hdenied. right. left. reflexivity.
  - simpl. apply (running_finish c cl1); try assumption; [now rewrite Hst1|auto].
  - simpl. now apply running_torn_down.
Qed.

Lemma case_SSH_AUTH_SERVER_outcome e c cl w :
  running c cl w -> ev_ssh cl <> EvUnset ->
  entry_outcome e c (case_SSH_AUTH_SERVER e c (session cl) w).
Proof.
  intros R Hev.
  rewrite (case_SSH_AUTH_SERVER_step e c cl w);
    [|apply R|apply (wf_nodup _ _ (proj1 R))
     |apply (wf_siblings_killable _ c w (proj1 R))].
  destruct (ssh_get_publickey_ok e); simpl; [|eauto].
  destruct (ssh_get_publickey_hash_ok e); simpl; [|now apply running_killed].
  destruct (ssh_get_hexa_str e) as [hash_str|]; [|simpl; eauto].
  destruct (host_key_match (options w) (ssh_key_type_is e) hash_str); simpl;
    [|now apply running_killed].
  destruct (running_race_won c cl w R) as [R1 Hw1].
  apply (case_SSH_AUTH_CLIENT_outcome e c (with_state SSH_AUTH_CLIENT cl));
    [exact R1|reflexivity|exact Hev|exact Hw1].
Qed.

Lemma registered_client_initialized cl : ev_ssh (registered_client cl) <> EvUnset.
Proof.
  unfold registered_client.
  destruct (ev_ssh cl) eqn:E; simpl; rewrite ?E; discriminate.
Qed.

Lemma case_SSH_CONNECT_outcome e c cl w :
  running c cl w -> state cl = SSH_CONNECT ->
  entry_outcome e c (case_SSH_CONNECT e c (session cl) w).
Proof.
  intros R Hst.
  rewrite (case_SSH_CONNECT_step e c cl w) by apply R.
  assert (Hreg : running c (registered_client cl) (registered c cl w) /\
                 session (registered_client cl) = session cl /\
                 state (registered_client cl) = state cl).
  { unfold registered, registered_client.
    destruct (ev_ssh cl) eqn:E; simpl.
    - split; [|auto].
      apply (running_update c cl _ (set_log (event_add c :: log w) w));
        [apply running_emit1; [reflexivity|exact R]
        |apply (running_has_encoder c cl w R)|reflexivity|reflexivity].
    - split; [exact R|auto].
    - split; [exact R|auto]. }
  destruct Hreg as (R1 & Hs1 & Hst1).
  pose proof (registered_client_initialized cl) as Hev1.
  destruct (ssh_connect_rc e).
  - rewrite <- Hs1.
    apply (case_SSH_AUTH_SERVER_outcome e c
             (with_state SSH_AUTH_SERVER (registered_client cl))); [|exact Hev1].
    unfold connected.
    apply (running_update c (registered_client cl) _
             (set_log (tmate_debug ("Establishing connection to " +:+ server_ip cl)
                       :: log (registered c cl w)) (registered c cl w)));
      [apply running_emit1; [reflexivity|exact R1]
      |apply (running_has_encoder c _ _ R1)|reflexivity|reflexivity].
  - simpl. now apply running_torn_down.
  - simpl. apply (running_finish c (registered_client cl)); try assumption.
    + now rewrite Hst1, Hst.
    + rewrite Hst1, Hst. discriminate.
Qed.

Lemma initialised_calls_other (session : option handle) opts ip :
  other_calls
    (match get_identity_of (tmate_identity opts) with
     | Some i => [ssh_options_set session (SSH_OPTIONS_IDENTITY i)]
     | None => []
     end ++
     [ssh_options_set session (SSH_OPTIONS_COMPRESSION "yes");
      ssh_options_set session (SSH_OPTIONS_USER "tmate");
      ssh_options_set session (SSH_OPTIONS_PORT (tmate_server_port opts));
      ssh_options_set session
        (SSH_OPTIONS_LOG_VERBOSITY (SSH_LOG_NOLOG + log_level opts)%Z);
      ssh_options_set session (SSH_OPTIONS_HOST ip);
      ssh_set_blocking session false]).
Proof.
  unfold other_calls. apply Forall_app. split.
  - destruct (get_identity_of _); repeat constructor.
  - repeat constructor.
Qed.

Lemma case_SSH_INIT_outcome e c cl w :
  wf (fun x => x = c) w -> heap w !! c = Some cl -> c ∈ clients w ->
  entry_outcome e c (case_SSH_INIT e c w).
Proof.
  intros W Hc Hin.
  rewrite (case_SSH_INIT_step e c cl w) by exact Hc.
  destruct (ssh_new_ok e && ssh_channel_new_ok e); [|simpl; eauto].
  set (cl' := with_state SSH_CONNECT
                (with_channel (Some (S (next_handle w)))
                   (with_session (Some (next_handle w)) cl))).
  change (Some (next_handle w)) with (session cl').
  apply (case_SSH_CONNECT_outcome e c cl').
  - unfold initialised. fold cl'.
    split; [|split; [simpl; apply lookup_insert_eq
                    |split; [exact Hin|split; simpl; eauto]]].
    match goal with
    | |- wf _ (set_heap _ ?w0) => apply (wf_update _ c cl cl' w0)
    end; [reflexivity|exact Hc| |].
    + exact (proj2 (wf_live _ _ W c cl Hc)).
    + rewrite app_assoc.
      apply (wf_emit _ _ (set_next_handle (S (S (next_handle w))) w));
        [apply initialised_calls_other|now apply wf_set_next_handle].
  - reflexivity.
Qed.

(** The state machine on any allocated client of a well-formed session. *)
Lemma on_ssh_client_event_outcome e c cl w :
  well_formed w -> heap w !! c = Some cl ->
  entry_outcome e c (on_ssh_client_event e c w).
Proof.
  intros W Hc.
  rewrite (on_ssh_client_event_dispatch e c cl w Hc).
  destruct (wf_rest _ _ W c cl (fun f => f) Hc)
    as [(Hin & Ha & Hs & Hch & Hev)|(Hin & Hst & _)].
  - assert (R : running c cl w).
    { split; [apply (wf_weaken (fun _ => False)); [intros ? []|exact W]|].
      repeat (split; [assumption|]). assumption. }
    assert (Hw : past_auth_server (state cl) = true -> no_other_winner c w)
      by (apply (well_formed_no_other_winner c cl w W Hin Hc)).
    destruct (state cl) eqn:Hst; try discriminate.
    + apply case_SSH_CONNECT_outcome; [exact R|exact Hst].
    + apply case_SSH_AUTH_CLIENT_outcome; auto.
    + apply case_SSH_OPEN_CHANNEL_outcome; auto.
    + apply case_SSH_BOOTSTRAP_outcome; auto.
    + apply case_SSH_READY_outcome; auto.
  - rewrite Hst. exact W.
Qed.

Lemma tmate_ssh_client_alloc_step e ip w :
  tmate_ssh_client_alloc e ip w =
  match case_SSH_INIT e (next_client w) (entering_init e ip w) with
  | Ret _ w' => Ret (next_client w) w'
  | Stop s w' => Stop s w'
  end.
Proof.
  unfold tmate_ssh_client_alloc, connect_ssh_client, entering_init, allocated,
    new_client, on_ssh_client_event, bind, gets, modify, emit, update, bind,
    deref, modify, ret.
  simpl. rewrite lookup_insert_eq. simpl. rewrite lookup_insert_eq. simpl.
  rewrite lookup_insert_eq. simpl. reflexivity.
Qed.

Lemma wf_entering_init e ip w :
  well_formed w ->
  wf (fun x => x = next_client w) (entering_init e ip w) /\
  heap (entering_init e ip w) !! next_client w
    = Some (with_state SSH_INIT (new_client e ip)) /\
  next_client w ∈ clients (entering_init e ip w).
Proof.
  intros W. set (c := next_client w).
  assert (Hfresh : heap w !! c = None).
  { destruct (heap w !! c) as [cl|] eqn:E; [|reflexivity].
    pose proof (proj1 (wf_live _ _ W c cl E)). subst c. lia. }
  assert (Hnotin : c ∉ clients w).
  { intros Hin. destruct (wf_listed _ _ W c Hin) as [cl Hcl]. congruence. }
  assert (Hheap : forall x, x <> c ->
            heap (entering_init e ip w) !! x = heap w !! x).
  { intros x Hx. unfold entering_init, allocated. fold c. simpl.
    rewrite !lookup_insert_ne by congruence. reflexivity. }
  assert (Hmem : forall x, x <> c ->
            (x ∈ clients (entering_init e ip w) <-> x ∈ clients w)).
  { intros x Hx. unfold entering_init, allocated. fold c. simpl.
    rewrite elem_of_app, list_elem_of_singleton. tauto. }
  split; [|split].
  - destruct W as [A B C D E F G H [last I]]. constructor; try assumption.
    + unfold entering_init, allocated. fold c. simpl.
      apply NoDup_app. split; [exact A|]. split; [|apply NoDup_singleton].
      intros x Hx Hx'. apply list_elem_of_singleton in Hx'. congruence.
    + intros x Hx. destruct (decide (x = c)) as [->|Hne].
      * unfold entering_init. simpl. fold c. rewrite lookup_insert_eq. eauto.
      * rewrite Hheap by exact Hne. apply B. now apply Hmem.
    + intros x clx. destruct (decide (x = c)) as [->|Hne].
      * unfold entering_init. simpl. fold c. rewrite lookup_insert_eq.
        intros [= <-]. split; [lia|reflexivity].
      * rewrite Hheap by exact Hne. intros Hx.
        destruct (C x clx Hx) as [C1 C2]. split; [|exact C2].
        unfold entering_init, allocated. simpl. lia.
    + intros x clx Hne. rewrite Hheap by exact Hne. intros Hx.
      apply (at_rest_transfer w); [now apply Hmem|]. now apply D.
    + intros c1 c2 cl1 cl2 N1 N2 L1 L2.
      rewrite !Hheap by assumption.
      apply Hmem in L1, L2; try assumption. now apply E.
    + exists None. unfold entering_init, allocated. fold c.
      cbn [log clients set_heap set_log set_clients set_next_client tailq_of].
      rewrite I. reflexivity.
  - unfold entering_init. simpl. fold c. apply lookup_insert_eq.
  - unfold entering_init, allocated. fold c. simpl.
    rewrite elem_of_app, list_elem_of_singleton. now right.
Qed.

Lemma tmate_ssh_client_alloc_outcome e ip w :
  well_formed w ->
  entry_outcome e (next_client w) (tmate_ssh_client_alloc e ip w).
Proof.
  intros W. rewrite tmate_ssh_client_alloc_step.
  destruct (wf_entering_init e ip w W) as (W1 & Hc & Hin).
  pose proof (case_SSH_INIT_outcome e (next_client w) _ _ W1 Hc Hin) as S.
  destruct (case_SSH_INIT e (next_client w) (entering_init e ip w)); exact S.
Qed.

(** A failed write tears the encoder's client down wherever it is: the
    session stays well-formed if that removal was exact. *)
Lemma on_encoder_write_outcome c cl err writes :
  forall len w,
    well_formed w -> heap w !! c = Some cl ->
    event_outcome (on_encoder_write c err writes len w).
Proof.
  induction writes as [|written rest IH]; intros len w W Hc; simpl.
  - destruct (len =? 0)%Z; [intros _; exact W|].
    unfold bind. rewrite (deref_ok _ _ _ Hc). simpl. intros _.
    now apply wf_emit1.
  - destruct (len =? 0)%Z; [intros _; exact W|].
    unfold bind at 1. rewrite (deref_ok _ _ _ Hc).
    destruct (written <? 0)%Z.
    + rewrite (reconnect_ssh_client_closed c cl) by exact Hc.
      cbn [event_outcome]. intros Hx.
      apply removals_exact_is_Some in Hx.
      rewrite tailq_of_torn_down_world in Hx.
      apply wf_torn_down;
        [apply (wf_weaken (fun _ => False)); [intros ? []|exact W]|exact Hc|
        |exact Hx].
      intros Hs.
      destruct (wf_rest _ _ W c cl (fun f => f) Hc)
        as [(_ & _ & [h Hh] & _)|(_ & _ & _ & Hch & _)]; congruence.
    + unfold bind, emit, modify.
      apply IH; [now apply wf_emit1|exact Hc].
Qed.

Lemma entry_outcome_event e c (r : result unit) :
  entry_outcome e c r -> event_outcome r.
Proof.
  destruct r as [a w'|s w']; simpl; [auto|].
  intros [F|(U & _)]; [now left|right; eauto].
Qed.

Lemma well_formed_boot opts : well_formed (boot opts).
Proof.
  constructor; unfold boot; cbn [clients heap need_passphrase passphrase
    encoder_ready_cb decoder_cb first_pane next_client log].
  - apply NoDup_nil_2.
  - intros c Hc. now apply not_elem_of_nil in Hc.
  - intros c cl H. now rewrite lookup_empty in H.
  - intros c cl _ H. now rewrite lookup_empty in H.
  - intros c1 c2 cl1 cl2 _ _ H. now apply not_elem_of_nil in H.
  - reflexivity.
  - discriminate.
  - congruence.
  - exists None. reflexivity.
Qed.

Lemma fire_event_outcome a e w r :
  well_formed w -> fire a e w = Some r -> event_outcome r.
Proof.
  intros W. destruct a as [ip|c|text|len writes]; simpl.
  - intros [= <-].
    pose proof (tmate_ssh_client_alloc_outcome e ip w W) as S.
    unfold bind. destruct (tmate_ssh_client_alloc e ip w) as [c w'|s w'].
    + intros _. exact S.
    + destruct S as [F|(U & _)]; [now left|right; eauto].
  - destruct (heap w !! c) as [cl|] eqn:Hc; [|discriminate].
    destruct (ev_ssh cl); try discriminate. intros [= <-].
    exact (entry_outcome_event _ _ _ (on_ssh_client_event_outcome e c cl w W Hc)).
  - destruct (first_pane w) as [| |prompt c] eqn:Hp; try discriminate.
    intros [= <-]. unfold on_passphrase_read, bind at 1, deref. simpl.
    destruct (heap w !! c) as [cl|] eqn:Hc; [|simpl; eauto].
    unfold bind, modify.
    assert (Hn : need_passphrase w = true)
      by (apply (wf_prompt _ _ W); now rewrite Hp).
    assert (W1 : well_formed
                   (set_passphrase (Some text) (set_first_pane NoMode w))).
    { apply wf_set_passphrase; [exact Hn|].
      apply wf_set_first_pane; [discriminate|exact W]. }
    exact (entry_outcome_event _ _ _ (on_ssh_client_event_outcome e c cl _ W1 Hc)).
  - destruct (encoder_ready_cb w) as [c|]; [|discriminate]. intros [= <-].
    destruct (heap w !! c) as [cl|] eqn:Hc.
    + exact (on_encoder_write_outcome c cl (ssh_get_error_str e) writes len w W Hc).
    + destruct writes as [|written rest]; simpl;
        (destruct (len =? 0)%Z; [intros _; exact W|]);
        unfold bind, deref; rewrite Hc; simpl; eauto.
Qed.

Lemma well_formed_run script :
  forall w w', well_formed w -> run script w = Some w' ->
    removals_exact (log w') = true -> well_formed w'.
Proof.
  induction script as [|[a e] rest IH]; simpl; intros w w' W.
  - now intros [= <-].
  - destruct (fire a e w) as [[u w1|s w1]|] eqn:E; try discriminate.
    intros Hrun Hx. apply (IH w1); [|exact Hrun|exact Hx].
    apply (fire_event_outcome a e w _ W E).
    destruct (log_extends_run rest w1 w' Hrun) as [calls Hc].
    rewrite Hc in Hx. now apply removals_exact_older in Hx.
Qed.

(** ** What holds of every session the reactor can reach

    The sessions are those reached from a fresh one by a run of the
    reactor that has made no removal on stale links: [removals_exact] of
    the log.  Up to such a removal the TAILQ of the code is [clients]. *)

Lemma reachable_well_formed opts script w :
  run script (boot opts) = Some w -> removals_exact (log w) = true ->
  well_formed w.
Proof. apply well_formed_run, well_formed_boot. Qed.

(** X5. The race, as the code keeps it: in every session reached from a
    fresh one by allocations, socket events, pass-phrase submissions and
    encoder flushes, in any order and with any answers of libssh and of
    the allocator, without a removal on stale links, at most one client of
    the session's TAILQ is past the authentication of the server
    (AUTH_CLIENT, OPEN_CHANNEL, BOOTSTRAP or READY); in particular at most
    one listed client is READY. *)
Theorem at_most_one_listed_winner (opts : global_options)
    (script : list (action * answers)) (w : world) :
  run script (boot opts) = Some w -> removals_exact (log w) = true ->
  forall c1 c2 cl1 cl2,
    c1 ∈ clients w -> c2 ∈ clients w ->
    heap w !! c1 = Some cl1 -> heap w !! c2 = Some cl2 ->
    (past_auth_server (state cl1) = true ->
     past_auth_server (state cl2) = true -> c1 = c2) /\
    (state cl1 = SSH_READY -> state cl2 = SSH_READY -> c1 = c2).
Proof.
  intros Hrun Hx c1 c2 cl1 cl2 L1 L2 H1 H2.
  pose proof (reachable_well_formed _ _ _ Hrun Hx) as W.
  split.
  - apply (wf_race _ _ W c1 c2 cl1 cl2); auto.
  - intros S1 S2. apply (wf_race _ _ W c1 c2 cl1 cl2); auto.
    + now rewrite S1.
    + now rewrite S2.
Qed.

Lemma at_most_one_listed_winner_witness :
  run [(Alloc "10.0.0.1", all_ok); (Alloc "10.0.0.2", connect_again)] (boot opts0)
    = Some winner_and_latecomer /\
  removals_exact (log winner_and_latecomer) = true /\
  forall c1 c2 cl1 cl2,
    c1 ∈ clients winner_and_latecomer -> c2 ∈ clients winner_and_latecomer ->
    heap winner_and_latecomer !! c1 = Some cl1 ->
    heap winner_and_latecomer !! c2 = Some cl2 ->
    state cl1 = SSH_READY -> state cl2 = SSH_READY -> c1 = c2.
Proof.
  assert (Hrun : run [(Alloc "10.0.0.1", all_ok); (Alloc "10.0.0.2", connect_again)]
                   (boot opts0) = Some winner_and_latecomer)
    by (vm_compute; reflexivity).
  assert (Hx : removals_exact (log winner_and_latecomer) = true)
    by (vm_compute; reflexivity).
  split; [exact Hrun|]. split; [exact Hx|].
  intros c1 c2 cl1 cl2 L1 L2 H1 H2.
  exact (proj2 (at_most_one_listed_winner opts0 _ _ Hrun Hx
                  c1 c2 cl1 cl2 L1 L2 H1 H2)).
Defined.

(** X6. The session's TAILQ stays sound: in every session reached without
    a removal on stale links, the TAILQ is the list that the insertions
    and removals of the log make of the empty one; it has no duplicates,
    and every client in it is allocated: it never holds a released
    client. *)
Theorem tailq_holds_only_live_clients (opts : global_options)
    (script : list (action * answers)) (w : world) :
  run script (boot opts) = Some w -> removals_exact (log w) = true ->
  (exists last, tailq_of (log w) = Some (clients w, last)) /\
  NoDup (clients w) /\
  (forall c, c ∈ clients w -> is_Some (heap w !! c)).
Proof.
  intros Hrun Hx. pose proof (reachable_well_formed _ _ _ Hrun Hx) as W.
  split; [apply (wf_tailq _ _ W)|].
  split; [apply (wf_nodup _ _ W)|apply (wf_listed _ _ W)].
Qed.

Lemma tailq_holds_only_live_clients_witness :
  run winner_lost (boot opts0) = Some (world_after winner_lost) /\
  removals_exact (log (world_after winner_lost)) = true /\
  NoDup (clients (world_after winner_lost)).
Proof.
  assert (Hrun : run winner_lost (boot opts0) = Some (world_after winner_lost))
    by (vm_compute; reflexivity).
  assert (Hx : removals_exact (log (world_after winner_lost)) = true)
    by (vm_compute; reflexivity).
  split; [exact Hrun|]. split; [exact Hx|].
  exact (proj1 (proj2 (tailq_holds_only_live_clients opts0 _ _ Hrun Hx))).
Defined.

(** X7. Between two reactor events of a run without a removal on stale
    links, every allocated client is in one of two conditions: listed in
    the TAILQ, in one of the states CONNECT, AUTH_CLIENT, OPEN_CHANNEL,
    BOOTSTRAP, READY, with both handles set and an [ev_ssh] of which
    event_initialized holds; or torn down: not listed, state NONE, both
    handles null, no event pending.  So INIT and AUTH_SERVER are never
    seen between events, a channel handle never outlives its session
    handle, and the reactor has a socket event only for a client that is
    listed. *)
Theorem clients_at_rest_between_events (opts : global_options)
    (script : list (action * answers)) (w : world) :
  run script (boot opts) = Some w -> removals_exact (log w) = true ->
  forall c cl, heap w !! c = Some cl ->
    at_rest w c cl /\
    handles_paired cl /\
    state cl <> SSH_INIT /\ state cl <> SSH_AUTH_SERVER /\
    (ev_ssh cl = EvPending -> c ∈ clients w) /\
    (c ∈ clients w -> event_initialized (ev_ssh cl) = true) /\
    (c ∈ clients w <-> state cl <> SSH_NONE).
Proof.
  intros Hrun Hx c cl Hc. pose proof (reachable_well_formed _ _ _ Hrun Hx) as W.
  pose proof (wf_rest _ _ W c cl (fun f => f) Hc) as Hr.
  split; [exact Hr|].
  destruct Hr as [(Hin & Ha & [h Hs] & Hch & Hev)|(Hin & Hst & Hs & Hch & Hev)].
  - split; [intros Hn; congruence|].
    split; [intros E; rewrite E in Ha; discriminate|].
    split; [intros E; rewrite E in Ha; discriminate|].
    split; [auto|].
    split; [intros _; destruct (ev_ssh cl); [congruence|reflexivity|reflexivity]|].
    split; [intros _ E; rewrite E in Ha; discriminate|auto].
  - split; [intros _; exact Hch|].
    split; [congruence|]. split; [congruence|].
    split; [intros E; congruence|]. split; [tauto|]. split; [tauto|congruence].
Qed.

Lemma clients_at_rest_between_events_witness :
  run winner_lost (boot opts0) = Some (world_after winner_lost) /\
  removals_exact (log (world_after winner_lost)) = true /\
  heap (world_after winner_lost) !! 0 = Some (torn_down client0_ready) /\
  at_rest (world_after winner_lost) 0 (torn_down client0_ready).
Proof.
  assert (Hrun : run winner_lost (boot opts0) = Some (world_after winner_lost))
    by (vm_compute; reflexivity).
  assert (Hx : removals_exact (log (world_after winner_lost)) = true)
    by (vm_compute; reflexivity).
  assert (H : heap (world_after winner_lost) !! 0 = Some (torn_down client0_ready))
    by (vm_compute; reflexivity).
  split; [exact Hrun|]. split; [exact Hx|]. split; [exact H|].
  exact (proj1 (clients_at_rest_between_events opts0 _ _ Hrun Hx
                  0 (torn_down client0_ready) H)).
Defined.

(** X8. From a session reached without a removal on stale links, an
    allocation or a socket event ends in one of three ways.  It returns,
    leaving a well-formed session, and every removal it has made was
    exact.  Or it stops the process in [tmate_fatal].  Or it stops at the
    test of [client->tried_passphrase] that follows the kill for want of a
    key: the attempt of the client was denied with [need_passphrase]
    clear, the client has been killed and released, the session is
    well-formed, and the test reads the released client.  It never fails
    the assertion of the elimination and dereferences no other released
    client. *)
Theorem socket_event_outcomes (opts : global_options)
    (script : list (action * answers)) (w : world) :
  run script (boot opts) = Some w -> removals_exact (log w) = true ->
  forall e,
    (forall ip, entry_outcome e (next_client w) (tmate_ssh_client_alloc e ip w)) /\
    (forall c r, fire (SocketReady c) e w = Some r -> entry_outcome e c r) /\
    (forall ip c w', tmate_ssh_client_alloc e ip w = Ret c w' ->
       removals_exact (log w') = true) /\
    (forall c w', fire (SocketReady c) e w = Some (Ret tt w') ->
       removals_exact (log w') = true).
Proof.
  intros Hrun Hx e. pose proof (reachable_well_formed _ _ _ Hrun Hx) as W.
  assert (Hsock : forall c r, fire (SocketReady c) e w = Some r ->
                              entry_outcome e c r).
  { intros c r. simpl.
    destruct (heap w !! c) as [cl|] eqn:Hc; [|discriminate].
    destruct (ev_ssh cl); try discriminate. intros [= <-].
    exact (on_ssh_client_event_outcome e c cl w W Hc). }
  split; [|split; [exact Hsock|split]].
  - intros ip. now apply tmate_ssh_client_alloc_outcome.
  - intros ip c w' E. pose proof (tmate_ssh_client_alloc_outcome e ip w W) as S.
    rewrite E in S. exact (well_formed_exact _ _ S).
  - intros c w' E. exact (well_formed_exact _ _ (Hsock c _ E)).
Qed.

Lemma socket_event_outcomes_witness :
  run [(Alloc "10.0.0.1", all_ok); (Alloc "10.0.0.2", connect_again)] (boot opts0)
    = Some winner_and_latecomer /\
  removals_exact (log winner_and_latecomer) = true /\
  entry_outcome all_ok 2
    (tmate_ssh_client_alloc all_ok "10.0.0.3" winner_and_latecomer).
Proof.
  assert (Hrun : run [(Alloc "10.0.0.1", all_ok); (Alloc "10.0.0.2", connect_again)]
                   (boot opts0) = Some winner_and_latecomer)
    by (vm_compute; reflexivity).
  assert (Hx : removals_exact (log winner_and_latecomer) = true)
    by (vm_compute; reflexivity).
  split; [exact Hrun|]. split; [exact Hx|].
  exact (proj1 (socket_event_outcomes opts0 _ _ Hrun Hx all_ok) "10.0.0.3").
Defined.

(** X9. In every session reached without a removal on stale links the
    encoder and the decoder callbacks belong to the same client, and
    [need_passphrase] is set whenever a password prompt is pending or a
    pass-phrase is cached. *)
Theorem session_flags_consistent (opts : global_options)
    (script : list (action * answers)) (w : world) :
  run script (boot opts) = Some w -> removals_exact (log w) = true ->
  encoder_ready_cb w = decoder_cb w /\
  (is_password_prompt (first_pane w) = true -> need_passphrase w = true) /\
  (passphrase w <> None -> need_passphrase w = true).
Proof.
  intros Hrun Hx. pose proof (reachable_well_formed _ _ _ Hrun Hx) as W.
  split; [apply (wf_callbacks _ _ W)|]. split; [apply (wf_prompt _ _ W)|].
  apply (wf_passphrase _ _ W).
Qed.

Lemma session_flags_consistent_witness :
  run denied_then_typed (boot opts0) = Some (world_after denied_then_typed) /\
  removals_exact (log (world_after denied_then_typed)) = true /\
  need_passphrase (world_after denied_then_typed) = true.
Proof.
  assert (Hrun : run denied_then_typed (boot opts0)
                 = Some (world_after denied_then_typed))
    by (vm_compute; reflexivity).
  assert (Hx : removals_exact (log (world_after denied_then_typed)) = true)
    by (vm_compute; reflexivity).
  split; [exact Hrun|]. split; [exact Hx|].
  apply (proj2 (proj2 (session_flags_consistent opts0 _ _ Hrun Hx))).
  vm_compute. discriminate.
Defined.

Lemma on_encoder_write_succeeds c err writes :
  Forall (fun n => (0 <= n)%Z) writes ->
  forall len w w',
    well_formed w -> on_encoder_write c err writes len w = Ret tt w' ->
    well_formed w'.
Proof.
  induction 1 as [|written rest Hw _ IH]; intros len w w' W; simpl.
  - destruct (len =? 0)%Z; [now intros [= <-]|].
    unfold bind, deref. destruct (heap w !! c); [|discriminate].
    intros [= <-]. now apply wf_emit1.
  - destruct (len =? 0)%Z; [now intros [= <-]|].
    unfold bind at 1, deref. destruct (heap w !! c); [|discriminate].
    assert (Hn : (written <? 0)%Z = false) by lia. rewrite Hn.
    unfold bind, emit, modify. apply IH. now apply wf_emit1.
Qed.

(** X22. Only a failed write of the encoder can unlink a client on stale
    links: a run of the reactor in which every ssh_channel_write of the
    encoder succeeds makes exact removals only, whatever libssh and the
    allocator answer otherwise. *)
Theorem removals_exact_unless_write_fails (opts : global_options)
    (script : list (action * answers)) (w : world) :
  run script (boot opts) = Some w -> writes_succeed script ->
  removals_exact (log w) = true.
Proof.
  intros Hrun Hs. apply (well_formed_exact (fun _ => False)).
  revert Hrun. generalize (well_formed_boot opts). generalize (boot opts).
  induction Hs as [|[a e] rest Ha _ IH]; simpl; intros w0 W.
  - now intros [= <-].
  - destruct (fire a e w0) as [[u w1|s w1]|] eqn:E; try discriminate.
    apply IH. destruct a as [ip|c|text|len writes].
    + simpl in E. injection E as E.
      pose proof (tmate_ssh_client_alloc_outcome e ip w0 W) as S.
      unfold bind in E. destruct (tmate_ssh_client_alloc e ip w0) as [c w2|s w2];
        [|discriminate].
      unfold ret in E. injection E as _ Hw. rewrite <- Hw. exact S.
    + simpl in E. destruct (heap w0 !! c) as [cl|] eqn:Hc; [|discriminate].
      destruct (ev_ssh cl); try discriminate. injection E as E.
      pose proof (on_ssh_client_event_outcome e c cl w0 W Hc) as S.
      unfold __on_ssh_client_event in E. rewrite E in S. exact S.
    + simpl in E. destruct (first_pane w0) as [| |prompt c] eqn:Hp;
        try discriminate.
      injection E as E. unfold on_passphrase_read, bind at 1, deref in E.
      simpl in E. destruct (heap w0 !! c) as [cl|] eqn:Hc; [|discriminate].
      unfold bind, modify in E.
      assert (Hn : need_passphrase w0 = true)
        by (apply (wf_prompt _ _ W); now rewrite Hp).
      assert (W1 : well_formed
                     (set_passphrase (Some text) (set_first_pane NoMode w0))).
      { apply wf_set_passphrase; [exact Hn|].
        apply wf_set_first_pane; [discriminate|exact W]. }
      pose proof (on_ssh_client_event_outcome e c cl _ W1 Hc) as S.
      rewrite E in S. exact S.
    + simpl in E. destruct (encoder_ready_cb w0) as [c|]; [|discriminate].
      injection E as E. destruct u.
      exact (on_encoder_write_succeeds c _ writes Ha len w0 w1 W E).
Qed.

Lemma removals_exact_unless_write_fails_witness :
  run winner_lost (boot opts0) = Some (world_after winner_lost) /\
  writes_succeed winner_lost /\
  removals_exact (log (world_after winner_lost)) = true.
Proof.
  assert (Hrun : run winner_lost (boot opts0) = Some (world_after winner_lost))
    by (vm_compute; reflexivity).
  assert (Hs : writes_succeed winner_lost) by (repeat constructor).
  split; [exact Hrun|]. split; [exact Hs|].
  exact (removals_exact_unless_write_fails opts0 _ _ Hrun Hs).
Defined.

(** ** The elimination of the siblings *)

(** X10. Run for a listed client [c] of a session whose TAILQ has no
    duplicates and whose other listed clients are allocated with their
    [has_encoder] flag clear, [on_ssh_auth_server_complete] returns with
    [c] as the only client left in the TAILQ: every other listed client has
    been released, [c] and the clients that were not listed are untouched,
    the session-wide state is as before, and nothing has been shown to the
    user. *)
Theorem elimination_leaves_only_the_winner (c : cid) (w : world) :
  NoDup (clients w) -> c ∈ clients w ->
  siblings_killable c (clients w) w ->
  exists w',
    on_ssh_auth_server_complete c w = Ret tt w' /\
    clients w' = [c] /\
    (forall x, x ∈ clients w -> x <> c -> heap w' !! x = None) /\
    (forall x, x ∉ clients w \/ x = c -> heap w' !! x = heap w !! x) /\
    same_session_state w w' /\
    status_messages (log w') = status_messages (log w).
Proof.
  intros Hnd Hin Hk.
  exists (kill_other_clients_world c (clients w) w).
  destruct (kill_other_clients_world_spec c (clients w) w Hnd Hk)
    as (A & B & C & D).
  split; [|split; [|split; [|split; [|split]]]].
  - unfold on_ssh_auth_server_complete, bind, gets.
    now apply kill_other_clients_closed.
  - rewrite A, (filter_self_or_absent c (clients w) (clients w) Hnd) by auto.
    now rewrite decide_True by exact Hin.
  - intros x Hx Hne. rewrite B. now rewrite decide_True by tauto.
  - intros x Hx. rewrite B. rewrite decide_False; [reflexivity|]. tauto.
  - exact C.
  - exact D.
Qed.

Lemma elimination_leaves_only_the_winner_witness :
  NoDup (clients winner_and_latecomer) /\
  exists w',
    on_ssh_auth_server_complete 1 winner_and_latecomer = Ret tt w' /\
    clients w' = [1].
Proof.
  assert (Hnd : NoDup (clients winner_and_latecomer)).
  { vm_compute. apply NoDup_cons. split.
    - intros H. apply list_elem_of_singleton in H. discriminate.
    - apply NoDup_singleton. }
  assert (Hin : 1 ∈ clients winner_and_latecomer)
    by (vm_compute; right; left).
  assert (Hk : siblings_killable 1 (clients winner_and_latecomer)
                 winner_and_latecomer).
  { intros x Hx Hne. vm_compute in Hx.
    apply elem_of_cons in Hx. destruct Hx as [->|Hx].
    - exists client0_ready. split; vm_compute; reflexivity.
    - apply list_elem_of_singleton in Hx. congruence. }
  split; [exact Hnd|].
  destruct (elimination_leaves_only_the_winner 1 winner_and_latecomer Hnd Hin Hk)
    as (w' & A & B & _).
  exists w'. split; [exact A|exact B].
Defined.

(** ** [read_channel] and the READY state *)

Lemma committed_prefix lens :
  (lens = committed lens /\ read_fails lens = false) \/
  (exists len rest, lens = committed lens ++ len :: rest /\ (len <= 0)%Z /\
                    read_fails lens = (len <? 0)%Z).
Proof.
  induction lens as [|len rest IH]; simpl; [now left|].
  destruct (0 <? len)%Z eqn:Hpos.
  - assert (Hneg : (len <? 0)%Z = false) by lia.
    assert (Hz : (len =? 0)%Z = false) by lia.
    rewrite Hneg, Hz.
    destruct IH as [[E F]|(l & r & E & L & F)].
    + left. split; [now rewrite <- E|exact F].
    + right. exists l, r. split; [simpl; now rewrite <- E|]. split; assumption.
  - right. exists len, rest. split; [reflexivity|]. split; [lia|].
    destruct (len <? 0)%Z eqn:Hneg; [reflexivity|].
    assert (Hz : (len =? 0)%Z = true) by lia. now rewrite Hz.
Qed.

Lemma committed_positive lens : Forall (fun len => (0 < len)%Z) (committed lens).
Proof.
  induction lens as [|len rest IH]; simpl; [constructor|].
  destruct (0 <? len)%Z eqn:Hpos; constructor; [lia|exact IH].
Qed.

(** X11. [read_channel] on an allocated client commits to the decoder
    exactly the lengths read before the first result that is not positive,
    in order, all of them positive, and looks at nothing after that result.
    When that result is 0, or the reads run out, nothing but the log
    changes; when it is negative the client is torn down once, with the
    message "Error reading from channel: <error>": it leaves the TAILQ, its
    handle is freed, its state becomes NONE. *)
Theorem read_channel_commits_until_error (e : answers) (c : cid)
    (cl : tmate_ssh_client) (w : world) :
  heap w !! c = Some cl ->
  let lens := ssh_channel_read_nonblocking_lens e in
  let commits := rev (map tmate_decoder_commit (committed lens)) in
  Forall (fun len => (0 < len)%Z) (committed lens) /\
  ((lens = committed lens /\ read_fails lens = false) \/
   (exists len rest, lens = committed lens ++ len :: rest /\ (len <= 0)%Z /\
                     read_fails lens = (len <? 0)%Z)) /\
  (read_fails lens = false ->
     read_channel e c w = Ret tt (set_log (commits ++ log w) w)) /\
  (read_fails lens = true ->
     exists w',
       read_channel e c w = Ret tt w' /\
       (c ∉ clients w') /\
       heap w' !! c = Some (torn_down cl) /\
       log w' =
         teardown_calls c cl (error_message "Error reading from channel: " e)
           (remaining_clients c w)
         ++ TAILQ_REMOVE c :: commits ++ log w).
Proof.
  intros H lens commits.
  split; [apply committed_positive|]. split; [apply committed_prefix|].
  assert (E : read_channel e c w =
              Ret tt (if read_fails lens
                      then torn_down_world c cl
                             (error_message "Error reading from channel: " e)
                             (after_commits lens w)
                      else after_commits lens w)).
  { unfold read_channel, bind. rewrite (deref_ok _ _ _ H).
    now apply read_channel_loop_closed. }
  split.
  - intros F. rewrite E, F. reflexivity.
  - intros F. rewrite E, F. eexists. split; [reflexivity|].
    split; [|split].
    + simpl. unfold remaining_clients. rewrite list_elem_of_filter. tauto.
    + simpl. apply lookup_insert_eq.
    + reflexivity.
Qed.

Lemma read_channel_commits_until_error_witness :
  heap single_ready !! 0 = Some client0_ready /\
  read_channel (with_channel_io [5; 7; 0; 9]%Z true all_ok) 0 single_ready =
    Ret tt (set_log ([tmate_decoder_commit 7; tmate_decoder_commit 5]
                     ++ log single_ready) single_ready).
Proof.
  assert (H : heap single_ready !! 0 = Some client0_ready)
    by (vm_compute; reflexivity).
  split; [exact H|].
  destruct (read_channel_commits_until_error
              (with_channel_io [5; 7; 0; 9]%Z true all_ok) 0 client0_ready
              single_ready H) as (_ & _ & A & _).
  apply A. reflexivity.
Defined.

(** X12. A READY client whose reads do not fail: if the session is still
    connected nothing changes but the log, and the client stays READY; if
    ssh_is_connected answers no, the client is torn down exactly once, with
    the message "Disconnected": one removal from the TAILQ, after the call
    of ssh_is_connected. *)
Theorem ready_without_read_error (e : answers) (c : cid)
    (cl : tmate_ssh_client) (w : world) :
  heap w !! c = Some cl -> state cl = SSH_READY ->
  read_fails (ssh_channel_read_nonblocking_lens e) = false ->
  let commits :=
    rev (map tmate_decoder_commit
           (committed (ssh_channel_read_nonblocking_lens e))) in
  let w2 := set_log (ssh_is_connected (session cl) :: commits ++ log w) w in
  (ssh_is_connected_now e = true -> on_ssh_client_event e c w = Ret tt w2) /\
  (ssh_is_connected_now e = false ->
     exists w',
       on_ssh_client_event e c w = Ret tt w' /\
       w' = torn_down_world c cl (Some "Disconnected") w2 /\
       log w' =
         teardown_calls c cl (Some "Disconnected") (remaining_clients c w)
         ++ TAILQ_REMOVE c :: ssh_is_connected (session cl)
         :: commits ++ log w).
Proof.
  intros H Hst F commits w2.
  rewrite (on_ssh_client_event_dispatch e c cl w H), Hst.
  rewrite (case_SSH_READY_closed e c cl w H).
  unfold after_ready, after_read_channel, client_after_read. rewrite F.
  split; intros Hc; rewrite Hc.
  - apply f_equal. unfold w2, after_commits. world_eq.
  - eexists. split; [reflexivity|]. split; [|reflexivity].
    unfold w2, after_commits, torn_down_world, remaining_clients. world_eq.
Qed.

Lemma ready_without_read_error_witness :
  heap single_ready !! 0 = Some client0_ready /\
  on_ssh_client_event (with_channel_io [0%Z] false all_ok) 0 single_ready =
    Ret tt (torn_down_world 0 client0_ready (Some "Disconnected")
              (set_log (ssh_is_connected (Some 0) :: log single_ready)
                 single_ready)).
Proof.
  assert (H : heap single_ready !! 0 = Some client0_ready)
    by (vm_compute; reflexivity).
  split; [exact H|].
  destruct (ready_without_read_error (with_channel_io [0%Z] false all_ok) 0
              client0_ready single_ready H eq_refl eq_refl) as (_ & B).
  destruct (B eq_refl) as (w' & E & -> & _). exact E.
Defined.

(** ** One invocation of the state machine, case by case *)

(** X13. Falling through is the same as dispatching again: when a step of
    the handshake succeeds, the rest of the invocation is what
    [on_ssh_client_event] does when entered afresh in the world the step
    has produced, where the client is in the next state.  This holds for
    INIT, CONNECT, AUTH_CLIENT, OPEN_CHANNEL and BOOTSTRAP. *)
Theorem fallthrough_is_redispatch (e : answers) (c : cid)
    (cl : tmate_ssh_client) (w : world) :
  heap w !! c = Some cl ->
  (state cl = SSH_INIT -> ssh_new_ok e = true -> ssh_channel_new_ok e = true ->
     on_ssh_client_event e c w = on_ssh_client_event e c (initialised c cl w)) /\
  (state cl = SSH_CONNECT -> ssh_connect_rc e = SSH_OK ->
     on_ssh_client_event e c w = on_ssh_client_event e c (connected c cl w)) /\
  (state cl = SSH_AUTH_CLIENT ->
     ssh_userauth_autopubkey_rc e = SSH_AUTH_SUCCESS ->
     on_ssh_client_event e c w =
     on_ssh_client_event e c
       (client_authenticated c (with_tried_passphrase (passphrase w) cl)
          (after_auth_attempt e c cl w))) /\
  (state cl = SSH_OPEN_CHANNEL -> ssh_channel_open_session_rc e = SSH_OK ->
     on_ssh_client_event e c w = on_ssh_client_event e c (channel_opened c cl w)) /\
  (state cl = SSH_BOOTSTRAP -> ssh_channel_request_subsystem_rc e = SSH_OK ->
     on_ssh_client_event e c w = on_ssh_client_event e c (bootstrapped c cl w)).
Proof.
  intros H. rewrite (on_ssh_client_event_dispatch e c cl w H).
  split; [|split; [|split; [|split]]].
  - intros Hst Hn Hch. rewrite Hst, (case_SSH_INIT_step e c cl w H), Hn, Hch.
    simpl. symmetry.
    erewrite on_ssh_client_event_dispatch
      by (unfold initialised; simpl; apply lookup_insert_eq).
    reflexivity.
  - intros Hst Hrc. rewrite Hst, (case_SSH_CONNECT_step e c cl w H), Hrc.
    symmetry.
    erewrite on_ssh_client_event_dispatch
      by (unfold connected; simpl; apply lookup_insert_eq).
    simpl. unfold registered_client.
    destruct (event_initialized (ev_ssh cl)); reflexivity.
  - intros Hst Hrc. rewrite Hst, (case_SSH_AUTH_CLIENT_closed e c cl w H).
    change (session cl) with (session (with_tried_passphrase (passphrase w) cl)).
    rewrite (switch_ssh_userauth_autopubkey_step e c
               (with_tried_passphrase (passphrase w) cl))
      by (simpl; apply lookup_insert_eq).
    rewrite Hrc. symmetry.
    erewrite on_ssh_client_event_dispatch
      by (unfold client_authenticated; simpl; apply lookup_insert_eq).
    reflexivity.
  - intros Hst Hrc. rewrite Hst, (case_SSH_OPEN_CHANNEL_step e c cl w H), Hrc.
    symmetry.
    erewrite on_ssh_client_event_dispatch
      by (unfold channel_opened; simpl; apply lookup_insert_eq).
    reflexivity.
  - intros Hst Hrc. rewrite Hst, (case_SSH_BOOTSTRAP_step e c cl w H), Hrc.
    symmetry.
    erewrite on_ssh_client_event_dispatch
      by (unfold bootstrapped; simpl; apply lookup_insert_eq).
    reflexivity.
Qed.

Lemma fallthrough_is_redispatch_witness :
  heap two_connecting !! 0 = Some client0_connecting /\
  on_ssh_client_event all_ok 0 two_connecting =
  on_ssh_client_event all_ok 0 (connected 0 client0_connecting two_connecting).
Proof.
  assert (H : heap two_connecting !! 0 = Some client0_connecting)
    by (vm_compute; reflexivity).
  split; [exact H|].
  destruct (fallthrough_is_redispatch all_ok 0 client0_connecting two_connecting H)
    as (_ & B & _).
  apply B; reflexivity.
Defined.

(** X14. The suspension points.  When the call of the current state would
    block (SSH_AGAIN, SSH_AUTH_AGAIN) the invocation returns with the
    client in the same state: in OPEN_CHANNEL and BOOTSTRAP nothing at all
    has changed; in CONNECT the only change is the registration of the
    readiness event, if it was not registered; in AUTH_CLIENT the only
    changes are those of the attempt itself (the trial pass-phrase recorded,
    [need_passphrase] raised if libssh asked for one). *)
Theorem would_block_suspends (e : answers) (c : cid)
    (cl : tmate_ssh_client) (w : world) :
  heap w !! c = Some cl ->
  (state cl = SSH_CONNECT -> ssh_connect_rc e = SSH_AGAIN ->
     on_ssh_client_event e c w = Ret tt (registered c cl w) /\
     (event_initialized (ev_ssh cl) = true -> registered c cl w = w)) /\
  (state cl = SSH_AUTH_CLIENT ->
     ssh_userauth_autopubkey_rc e = SSH_AUTH_AGAIN ->
     on_ssh_client_event e c w = Ret tt (after_auth_attempt e c cl w)) /\
  (state cl = SSH_OPEN_CHANNEL -> ssh_channel_open_session_rc e = SSH_AGAIN ->
     on_ssh_client_event e c w = Ret tt w) /\
  (state cl = SSH_BOOTSTRAP -> ssh_channel_request_subsystem_rc e = SSH_AGAIN ->
     on_ssh_client_event e c w = Ret tt w).
Proof.
  intros H. rewrite (on_ssh_client_event_dispatch e c cl w H).
  split; [|split; [|split]].
  - intros Hst Hrc. rewrite Hst, (case_SSH_CONNECT_step e c cl w H), Hrc.
    split; [reflexivity|]. intros Hi. unfold registered. now rewrite Hi.
  - intros Hst Hrc. rewrite Hst, (case_SSH_AUTH_CLIENT_closed e c cl w H).
    change (session cl) with (session (with_tried_passphrase (passphrase w) cl)).
    rewrite (switch_ssh_userauth_autopubkey_step e c
               (with_tried_passphrase (passphrase w) cl))
      by (simpl; apply lookup_insert_eq).
    now rewrite Hrc.
  - intros Hst Hrc.
    now rewrite Hst, (case_SSH_OPEN_CHANNEL_step e c cl w H), Hrc.
  - intros Hst Hrc.
    now rewrite Hst, (case_SSH_BOOTSTRAP_step e c cl w H), Hrc.
Qed.

Lemma would_block_suspends_witness :
  heap two_connecting !! 0 = Some client0_connecting /\
  on_ssh_client_event connect_again 0 two_connecting = Ret tt two_connecting.
Proof.
  assert (H : heap two_connecting !! 0 = Some client0_connecting)
    by (vm_compute; reflexivity).
  split; [exact H|].
  destruct (would_block_suspends connect_again 0 client0_connecting
              two_connecting H) as (A & _).
  destruct (A eq_refl eq_refl) as [E R]. rewrite E, R; reflexivity.
Defined.

(** X15. Protocol errors.  When ssh_connect, ssh_userauth_autopubkey,
    ssh_channel_open_session or ssh_channel_request_subsystem reports an
    error, the client is torn down through [reconnect_ssh_client] with the
    message "Error connecting: ", "Auth error: ", "Error opening channel: "
    or "Error initializing tmate: " followed by the text of ssh_get_error;
    the client object is not released: it stays allocated, out of the
    TAILQ, in state NONE. *)
Theorem protocol_error_tears_down (e : answers) (c : cid)
    (cl : tmate_ssh_client) (w : world) :
  heap w !! c = Some cl ->
  (state cl = SSH_CONNECT -> ssh_connect_rc e = SSH_ERROR ->
     on_ssh_client_event e c w =
     Ret tt (torn_down_world c cl (error_message "Error connecting: " e) w)) /\
  (state cl = SSH_AUTH_CLIENT ->
     ssh_userauth_autopubkey_rc e = SSH_AUTH_ERROR ->
     on_ssh_client_event e c w =
     Ret tt (torn_down_world c (with_tried_passphrase (passphrase w) cl)
               (error_message "Auth error: " e) (after_auth_attempt e c cl w))) /\
  (state cl = SSH_OPEN_CHANNEL -> ssh_channel_open_session_rc e = SSH_ERROR ->
     on_ssh_client_event e c w =
     Ret tt (torn_down_world c cl (error_message "Error opening channel: " e) w)) /\
  (state cl = SSH_BOOTSTRAP -> ssh_channel_request_subsystem_rc e = SSH_ERROR ->
     on_ssh_client_event e c w =
     Ret tt (torn_down_world c cl (error_message "Error initializing tmate: " e) w)) /\
  (forall cl0 fmt w0,
     (c ∉ clients (torn_down_world c cl0 fmt w0)) /\
     exists cl', heap (torn_down_world c cl0 fmt w0) !! c = Some cl' /\
                 state cl' = SSH_NONE /\ session cl' = None).
Proof.
  intros H. rewrite (on_ssh_client_event_dispatch e c cl w H).
  split; [|split; [|split; [|split]]].
  - intros Hst Hrc.
    now rewrite Hst, (case_SSH_CONNECT_step e c cl w H), Hrc.
  - intros Hst Hrc. rewrite Hst, (case_SSH_AUTH_CLIENT_closed e c cl w H).
    change (session cl) with (session (with_tried_passphrase (passphrase w) cl)).
    rewrite (switch_ssh_userauth_autopubkey_step e c
               (with_tried_passphrase (passphrase w) cl))
      by (simpl; apply lookup_insert_eq).
    now rewrite Hrc.
  - intros Hst Hrc.
    now rewrite Hst, (case_SSH_OPEN_CHANNEL_step e c cl w H), Hrc.
  - intros Hst Hrc.
    now rewrite Hst, (case_SSH_BOOTSTRAP_step e c cl w H), Hrc.
  - intros cl0 fmt w0. split.
    + simpl. unfold remaining_clients. rewrite list_elem_of_filter. tauto.
    + eexists. split; [simpl; apply lookup_insert_eq|]. split; reflexivity.
Qed.

Lemma protocol_error_tears_down_witness :
  heap two_connecting !! 0 = Some client0_connecting /\
  on_ssh_client_event (with_channel_io [] true
                         {| ssh_new_ok := true; ssh_channel_new_ok := true;
                            ssh_connect_rc := SSH_ERROR;
                            ssh_get_publickey_ok := true;
                            ssh_get_publickey_hash_ok := true;
                            ssh_get_hexa_str := None;
                            ssh_key_type_is := SSH_KEYTYPE_RSA;
                            ssh_userauth_autopubkey_rc := SSH_AUTH_SUCCESS;
                            auth_function_called := None;
                            ssh_channel_open_session_rc := SSH_OK;
                            ssh_channel_request_subsystem_rc := SSH_OK;
                            ssh_channel_read_nonblocking_lens := [];
                            ssh_is_connected_now := true;
                            ssh_get_error_str := "Connection refused";
                            xmalloc_ev_ssh_initialized := false;
                            xmalloc_tried_passphrase := None |})
    0 two_connecting =
  Ret tt (torn_down_world 0 client0_connecting
            (Some "Error connecting: Connection refused") two_connecting).
Proof.
  assert (H : heap two_connecting !! 0 = Some client0_connecting)
    by (vm_compute; reflexivity).
  split; [exact H|].
  match goal with
  | |- on_ssh_client_event ?e _ _ = _ =>
      destruct (protocol_error_tears_down e 0 client0_connecting
                  two_connecting H) as (A & _)
  end.
  apply A; reflexivity.
Defined.

(** X16. Allocation failures in INIT stop the process: if ssh_new fails,
    or if it succeeds and ssh_channel_new fails, the invocation ends in
    [tmate_fatal] with "cannot initialize".  In the second case the session
    handle just obtained is stored in the client and is not freed.  In both
    cases the client is still in the TAILQ, in state INIT. *)
Theorem init_allocation_failure_is_fatal (e : answers) (c : cid)
    (cl : tmate_ssh_client) (w : world) :
  heap w !! c = Some cl -> state cl = SSH_INIT ->
  ssh_new_ok e && ssh_channel_new_ok e = false ->
  on_ssh_client_event e c w =
    Stop (FatalExit "cannot initialize") (init_failed e c cl w) /\
  clients (init_failed e c cl w) = clients w /\
  log (init_failed e c cl w) = log w /\
  (exists cl', heap (init_failed e c cl w) !! c = Some cl' /\
               state cl' = SSH_INIT /\
               session cl' =
                 if ssh_new_ok e then Some (next_handle w) else None).
Proof.
  intros H Hst Hf.
  rewrite (on_ssh_client_event_dispatch e c cl w H), Hst.
  rewrite (case_SSH_INIT_step e c cl w H), Hf.
  split; [reflexivity|]. unfold init_failed.
  destruct (ssh_new_ok e); simpl.
  - split; [reflexivity|]. split; [reflexivity|].
    eexists. split; [apply lookup_insert_eq|]. simpl. auto.
  - split; [reflexivity|]. split; [reflexivity|].
    eexists. split; [apply lookup_insert_eq|]. simpl. auto.
Qed.

Lemma init_allocation_failure_is_fatal_witness :
  heap first_client_in_init !! 0
    = Some (with_state SSH_INIT (fresh_client "10.0.0.1")) /\
  on_ssh_client_event (with_init_answers true false SSH_OK all_ok) 0
    first_client_in_init =
  Stop (FatalExit "cannot initialize")
    (init_failed (with_init_answers true false SSH_OK all_ok) 0
       (with_state SSH_INIT (fresh_client "10.0.0.1")) first_client_in_init).
Proof.
  assert (H : heap first_client_in_init !! 0
              = Some (with_state SSH_INIT (fresh_client "10.0.0.1")))
    by (vm_compute; reflexivity).
  split; [exact H|].
  exact (proj1 (init_allocation_failure_is_fatal
                  (with_init_answers true false SSH_OK all_ok) 0 _
                  first_client_in_init H eq_refl eq_refl)).
Defined.

(** ** Allocation *)

(** X17. [tmate_ssh_client_alloc] in a well-formed session takes an address
    that is neither allocated nor in the TAILQ, and when it returns it
    returns that address and the session is well-formed again, every
    removal it has made having been exact.  When both libssh objects are
    obtained and ssh_connect would block, the new client is at the tail of
    the TAILQ, in state CONNECT, and the clients that were there are still
    there, in the same order.  Nothing assigns [ev_ssh] before
    [register_session_fd_event] asks event_initialized of it: the readiness
    event is added when the memory xmalloc returned does not look like an
    initialised event; when it does, no event is added and no socket event
    can reach the new client. *)
Theorem alloc_appends_a_fresh_client (e : answers) (ip : string) (w : world) :
  well_formed w ->
  heap w !! next_client w = None /\
  (next_client w ∉ clients w) /\
  (forall c w', tmate_ssh_client_alloc e ip w = Ret c w' ->
     c = next_client w /\ well_formed w' /\
     removals_exact (log w') = true) /\
  (ssh_new_ok e = true -> ssh_channel_new_ok e = true ->
   ssh_connect_rc e = SSH_AGAIN ->
   exists w' cl',
     tmate_ssh_client_alloc e ip w = Ret (next_client w) w' /\
     clients w' = clients w ++ [next_client w] /\
     heap w' !! next_client w = Some cl' /\
     state cl' = SSH_CONNECT /\
     server_ip cl' = ip /\ has_encoder cl' = false /\
     (xmalloc_ev_ssh_initialized e = false ->
        ev_ssh cl' = EvPending /\
        exists calls, log w' = event_add (next_client w) :: calls) /\
     (xmalloc_ev_ssh_initialized e = true ->
        ev_ssh cl' = EvDeleted /\
        forall e', fire (SocketReady (next_client w)) e' w' = None)).
Proof.
  intros W.
  assert (Hfresh : heap w !! next_client w = None).
  { destruct (heap w !! next_client w) as [cl|] eqn:E; [|reflexivity].
    pose proof (proj1 (wf_live _ _ W _ cl E)). lia. }
  split; [exact Hfresh|]. split.
  { intros Hin. destruct (wf_listed _ _ W _ Hin) as [cl Hcl]. congruence. }
  split.
  - intros c w' E. pose proof (tmate_ssh_client_alloc_outcome e ip w W) as S.
    rewrite E in S. rewrite tmate_ssh_client_alloc_step in E.
    destruct (case_SSH_INIT e (next_client w) (entering_init e ip w));
      [|discriminate].
    injection E as <- <-. split; [reflexivity|].
    split; [exact S|exact (well_formed_exact _ _ S)].
  - intros Hn Hch Hrc. rewrite tmate_ssh_client_alloc_step.
    set (c := next_client w).
    set (cl1 := with_state SSH_INIT (new_client e ip)).
    set (w1 := entering_init e ip w).
    assert (H1 : heap w1 !! c = Some cl1) by (apply lookup_insert_eq).
    rewrite (case_SSH_INIT_step e c cl1 w1 H1), Hn, Hch. cbn [andb].
    set (cl2 := with_state SSH_CONNECT
                  (with_channel (Some (S (next_handle w1)))
                     (with_session (Some (next_handle w1)) cl1))).
    assert (H2 : heap (initialised c cl1 w1) !! c = Some cl2)
      by (apply lookup_insert_eq).
    change (Some (next_handle w1)) with (session cl2).
    rewrite (case_SSH_CONNECT_step e c cl2 _ H2), Hrc.
    exists (registered c cl2 (initialised c cl1 w1)), (registered_client cl2).
    split; [reflexivity|].
    assert (Hev : ev_ssh cl2 =
                  if xmalloc_ev_ssh_initialized e then EvDeleted else EvUnset)
      by reflexivity.
    unfold registered, registered_client. rewrite Hev.
    destruct (xmalloc_ev_ssh_initialized e); cbn [event_initialized].
    + split; [reflexivity|]. split; [exact H2|].
      split; [reflexivity|]. split; [reflexivity|]. split; [reflexivity|].
      split; [discriminate|]. intros _. split; [exact Hev|].
      intros e'. unfold fire. rewrite H2, Hev. reflexivity.
    + split; [reflexivity|]. split; [apply lookup_insert_eq|].
      split; [reflexivity|]. split; [reflexivity|]. split; [reflexivity|].
      split; [|discriminate]. intros _. split; [reflexivity|].
      eexists. reflexivity.
Qed.

Lemma alloc_appends_a_fresh_client_witness :
  well_formed (boot opts0) /\
  exists w',
    tmate_ssh_client_alloc (with_xmalloc true None connect_again) "10.0.0.1"
      (boot opts0) = Ret 0 w' /\
    clients w' = [0] /\
    forall e', fire (SocketReady 0) e' w' = None.
Proof.
  pose proof (well_formed_boot opts0) as W.
  split; [exact W|].
  destruct (alloc_appends_a_fresh_client (with_xmalloc true None connect_again)
              "10.0.0.1" (boot opts0) W)
    as (_ & _ & _ & A).
  destruct (A eq_refl eq_refl eq_refl)
    as (w' & cl' & E & C & _ & _ & _ & _ & _ & G).
  exists w'. split; [exact E|]. split; [exact C|].
  exact (proj2 (G eq_refl)).
Defined.

(** ** Teardown, again *)

Lemma torn_down_idempotent cl : torn_down (torn_down cl) = torn_down cl.
Proof.
  unfold torn_down. simpl.
  destruct (event_initialized (ev_ssh cl)); reflexivity.
Qed.

Lemma remaining_clients_torn_down_world c cl fmt w :
  remaining_clients c (torn_down_world c cl fmt w) = remaining_clients c w.
Proof.
  unfold remaining_clients. simpl. unfold remaining_clients.
  rewrite list_filter_filter. apply list_filter_iff. tauto.
Qed.

(** X18. Tearing a client down a second time changes nothing of the
    session but its log: after [reconnect_ssh_client] on an allocated
    client, a second [reconnect_ssh_client] leaves the TAILQ, the heap and
    the rest of the session as the first one left them and frees no
    handle; what it repeats is the removal from the TAILQ, the deletion of
    the readiness event if one had been assigned, and the notice, which is
    again the message when the TAILQ is empty. *)
Theorem second_teardown_repeats_only_calls (c : cid) (cl : tmate_ssh_client)
    (fmt1 fmt2 : option string) (w : world) :
  heap w !! c = Some cl ->
  exists w2,
    (exec reconnect_ssh_client c fmt1 ;; reconnect_ssh_client c fmt2) w
      = Ret tt w2 /\
    clients w2 = clients (torn_down_world c cl fmt1 w) /\
    heap w2 = heap (torn_down_world c cl fmt1 w) /\
    same_session_state (torn_down_world c cl fmt1 w) w2 /\
    log w2 =
      (if event_initialized (ev_ssh cl) then [event_del c] else []) ++
      [teardown_notice cl fmt2 (remaining_clients c w); TAILQ_REMOVE c] ++
      log (torn_down_world c cl fmt1 w).
Proof.
  intros H.
  exists (torn_down_world c (torn_down cl) fmt2 (torn_down_world c cl fmt1 w)).
  assert (H1 : heap (torn_down_world c cl fmt1 w) !! c = Some (torn_down cl))
    by (simpl; apply lookup_insert_eq).
  split; [|split; [|split; [|split]]].
  - unfold bind. rewrite (reconnect_ssh_client_closed c cl) by exact H.
    apply reconnect_ssh_client_closed. exact H1.
  - unfold torn_down_world at 1. cbn [clients set_heap set_log set_clients].
    apply remaining_clients_torn_down_world.
  - unfold torn_down_world at 1. cbn [heap set_heap set_log set_clients].
    rewrite torn_down_idempotent. simpl. apply insert_insert_eq.
  - repeat split.
  - unfold torn_down_world at 1. cbn [log set_heap set_log set_clients].
    rewrite remaining_clients_torn_down_world.
    unfold teardown_calls, teardown_notice. simpl.
    destruct (event_initialized (ev_ssh cl)); reflexivity.
Qed.

Lemma second_teardown_repeats_only_calls_witness :
  heap single_ready !! 0 = Some client0_ready /\
  exists w2,
    (exec reconnect_ssh_client 0 (Some "first") ;;
     reconnect_ssh_client 0 (Some "second")) single_ready = Ret tt w2 /\
    heap w2 = heap (torn_down_world 0 client0_ready (Some "first") single_ready).
Proof.
  assert (H : heap single_ready !! 0 = Some client0_ready)
    by (vm_compute; reflexivity).
  split; [exact H|].
  destruct (second_teardown_repeats_only_calls 0 client0_ready (Some "first")
              (Some "second") single_ready H) as (w2 & E & _ & Hh & _).
  exists w2. split; [exact E|exact Hh].
Defined.

(** X19. [on_encoder_write] does nothing on an empty buffer.  When the
    first write fails it tears its client down with "Error writing to
    channel: <error>" and writes no more, and it does so without looking
    at the state of the client.  For a client in the TAILQ this is the
    teardown of a listed client.  For a client that has been torn down
    before, TAILQ_REMOVE runs on a client that is not in the TAILQ: unless
    that client is the one removed by the last change of the TAILQ, the
    removal is on stale links. *)
Theorem encoder_write_error_tears_down (c : cid) (cl : tmate_ssh_client)
    (err : string) (w : world) :
  heap w !! c = Some cl ->
  (forall writes, on_encoder_write c err writes 0 w = Ret tt w) /\
  (forall len written rest, len <> 0%Z -> (written < 0)%Z ->
     c ∈ clients w ->
     on_encoder_write c err (written :: rest) len w =
     Ret tt (torn_down_world c cl (Some ("Error writing to channel: " +:+ err)) w)) /\
  (forall len written rest q last, len <> 0%Z -> (written < 0)%Z ->
     tailq_of (log w) = Some (q, last) -> c ∉ q -> last <> Some c ->
     (exists calls,
        log (result_world (on_encoder_write c err (written :: rest) len w)) =
        calls ++ TAILQ_REMOVE c :: log w) /\
     removals_exact
       (log (result_world (on_encoder_write c err (written :: rest) len w)))
     = false).
Proof.
  intros H.
  assert (E : forall len written rest, len <> 0%Z -> (written < 0)%Z ->
     on_encoder_write c err (written :: rest) len w =
     Ret tt (torn_down_world c cl (Some ("Error writing to channel: " +:+ err)) w)).
  { intros len written rest Hl Hw. simpl.
    assert (Hz : (len =? 0)%Z = false) by lia.
    assert (Hn : (written <? 0)%Z = true) by lia.
    rewrite Hz. unfold bind. rewrite (deref_ok _ _ _ H), Hn.
    apply reconnect_ssh_client_closed, H. }
  split; [|split].
  - intros [|written rest]; reflexivity.
  - intros len written rest Hl Hw _. now apply E.
  - intros len written rest q last Hl Hw I Hq Hlast.
    rewrite (E len written rest Hl Hw). cbn [result_world]. split.
    + eexists. reflexivity.
    + unfold removals_exact. rewrite tailq_of_torn_down_world.
      now rewrite (tailq_of_remove_stale c q last (log w) I Hq Hlast).
Qed.

Lemma encoder_write_error_tears_down_witness :
  heap (world_after encoder_client_stale) !! 0 = Some (torn_down client0_ready) /\
  tailq_of (log (world_after encoder_client_stale)) = Some ([], Some 1) /\
  fire (EncoderReady 10 [(-1)%Z]) all_ok (world_after encoder_client_stale) =
    Some (on_encoder_write 0 "Socket error: disconnected" [(-1)%Z] 10
            (world_after encoder_client_stale)) /\
  removals_exact
    (log (result_world
            (on_encoder_write 0 "Socket error: disconnected" [(-1)%Z] 10
               (world_after encoder_client_stale)))) = false.
Proof.
  assert (H : heap (world_after encoder_client_stale) !! 0
              = Some (torn_down client0_ready))
    by (vm_compute; reflexivity).
  assert (I : tailq_of (log (world_after encoder_client_stale))
              = Some ([], Some 1))
    by (vm_compute; reflexivity).
  split; [exact H|]. split; [exact I|].
  split; [vm_compute; reflexivity|].
  destruct (encoder_write_error_tears_down 0 (torn_down client0_ready)
              "Socket error: disconnected" (world_after encoder_client_stale) H)
    as (_ & _ & A).
  apply (A 10%Z (-1)%Z [] [] (Some 1)).
  - discriminate.
  - reflexivity.
  - exact I.
  - apply not_elem_of_nil.
  - discriminate.
Defined.

(** ** The cached pass-phrase *)

Ltac cache_frame :=
  first [ solve [intros; split; reflexivity]
        | solve [intros ? ? ? [? ?] [? ?]; split; congruence]
        | solve [auto] ].

Lemma cache_kept_on_ssh_client_event e c w :
  cache_kept w (result_world (on_ssh_client_event e c w)).
Proof.
  pose proof (keeps_on_ssh_client_event cache_kept (fun _ _ => True)) as K.
  assert (K' : keeps cache_kept (fun _ _ => True) (on_ssh_client_event e c))
    by (apply K; cache_frame).
  specialize (K' w). destruct (on_ssh_client_event e c w); simpl; tauto.
Qed.

Lemma cache_kept_tmate_ssh_client_alloc e ip w :
  cache_kept w (result_world (tmate_ssh_client_alloc e ip w)).
Proof.
  pose proof (keeps_tmate_ssh_client_alloc cache_kept (fun _ _ => True)) as K.
  assert (K' : keeps cache_kept (fun _ _ => True) (tmate_ssh_client_alloc e ip))
    by (apply K; cache_frame).
  specialize (K' w). destruct (tmate_ssh_client_alloc e ip w); simpl; tauto.
Qed.

Lemma cache_kept_on_encoder_write c err writes len w :
  cache_kept w (result_world (on_encoder_write c err writes len w)).
Proof.
  pose proof (keeps_on_encoder_write cache_kept (fun _ _ => True)) as K.
  assert (K' : keeps cache_kept (fun _ _ => True)
                 (on_encoder_write c err writes len))
    by (apply K; cache_frame).
  specialize (K' w). destruct (on_encoder_write c err writes len w); simpl; tauto.
Qed.

Lemma cache_fire a e w u w' :
  fire a e w = Some (Ret u w') ->
  options w' = options w /\
  passphrase w' =
    match a with PassphraseTyped text => Some text | _ => passphrase w end.
Proof.
  destruct a as [ip|c|text|len writes]; simpl.
  - intros [= E]. pose proof (cache_kept_tmate_ssh_client_alloc e ip w) as K.
    unfold bind in E. destruct (tmate_ssh_client_alloc e ip w); [|discriminate].
    injection E as _ <-. exact K.
  - destruct (heap w !! c) as [cl|]; [|discriminate].
    destruct (ev_ssh cl); try discriminate. intros [= E].
    pose proof (cache_kept_on_ssh_client_event e c w) as K.
    unfold __on_ssh_client_event in E. rewrite E in K. exact K.
  - destruct (first_pane w) as [| |prompt c]; try discriminate. intros [= E].
    unfold on_passphrase_read, bind, deref, modify in E. simpl in E.
    destruct (heap w !! c) as [cl|]; [|discriminate].
    pose proof (cache_kept_on_ssh_client_event e c
                  (set_passphrase (Some text) (set_first_pane NoMode w))) as K.
    rewrite E in K. exact K.
  - destruct (encoder_ready_cb w) as [c|]; [|discriminate]. intros [= E].
    pose proof (cache_kept_on_encoder_write c (ssh_get_error_str e) writes len w)
      as K.
    rewrite E in K. exact K.
Qed.

Lemma cache_run script : forall w w',
  run script w = Some w' ->
  options w' = options w /\ passphrase w' = last_typed script (passphrase w).
Proof.
  induction script as [|[a e] rest IH]; simpl; intros w w'.
  - intros [= <-]. split; reflexivity.
  - destruct (fire a e w) as [[u w1|s w1]|] eqn:E; try discriminate.
    intros Hrun. apply cache_fire in E. destruct E as [Eo Ep].
    destruct (IH _ _ Hrun) as [Io Ip]. split; [congruence|].
    rewrite Ip, Ep. destruct a; reflexivity.
Qed.

(** X20. The pass-phrase cache.  In a session reached from a fresh one the
    options are those the session started with, and the cached pass-phrase
    is the one typed last, whatever has happened since (no failure, no
    teardown and no later client clears it); it is absent only if none was
    ever typed.  Hence the next authentication attempt of any client at
    AUTH_CLIENT is made with the pass-phrase typed last. *)
Theorem cached_passphrase_is_last_typed (opts : global_options)
    (script : list (action * answers)) (w : world) :
  run script (boot opts) = Some w ->
  options w = opts /\
  passphrase w = last_typed script None /\
  forall e c cl, heap w !! c = Some cl -> state cl = SSH_AUTH_CLIENT ->
    exists calls,
      log (result_world (on_ssh_client_event e c w)) =
      calls ++ ssh_userauth_autopubkey (session cl) (last_typed script None)
            :: log w.
Proof.
  intros Hrun. destruct (cache_run _ _ _ Hrun) as [Ho Hp].
  split; [exact Ho|]. split; [exact Hp|].
  intros e c cl H Hst.
  rewrite (case_SSH_AUTH_CLIENT_attempt e c cl w H Hst).
  destruct (log_extends_switch e c (session cl)
              (after_auth_attempt e c cl w)) as [calls Hc].
  exists calls. rewrite Hc. simpl. rewrite Hp. reflexivity.
Qed.

Lemma cached_passphrase_is_last_typed_witness :
  run denied_then_typed (boot opts0) = Some (world_after denied_then_typed) /\
  passphrase (world_after denied_then_typed) = Some "secret".
Proof.
  assert (Hrun : run denied_then_typed (boot opts0)
                 = Some (world_after denied_then_typed))
    by (vm_compute; reflexivity).
  split; [exact Hrun|].
  exact (proj1 (proj2 (cached_passphrase_is_last_typed opts0 _ _ Hrun))).
Defined.

(** ** The reconnection timer *)

(** X21. [on_reconnect_timer] does nothing for a client that has a
    transport session.  For a client without one (a torn-down client) it
    runs the handshake again from INIT; when ssh_connect would block the
    client ends in state CONNECT with new handles, but the TAILQ is as it
    was, and the readiness event is added only if none was ever assigned.
    So a client torn down after its event was registered is not put back
    in the TAILQ and gets no socket event: no invocation of
    [__on_ssh_client_event] can reach it. *)
Theorem reconnect_timer_restarts_unlisted (e : answers) (c : cid)
    (cl : tmate_ssh_client) (w : world) :
  heap w !! c = Some cl ->
  (session cl <> None -> on_reconnect_timer e c w = Ret tt w) /\
  (session cl = None -> ssh_new_ok e = true -> ssh_channel_new_ok e = true ->
   ssh_connect_rc e = SSH_AGAIN ->
   exists w' cl',
     on_reconnect_timer e c w = Ret tt w' /\
     clients w' = clients w /\
     heap w' !! c = Some cl' /\
     state cl' = SSH_CONNECT /\
     session cl' = Some (next_handle w) /\
     channel cl' = Some (S (next_handle w)) /\
     ev_ssh cl' = (if event_initialized (ev_ssh cl) then ev_ssh cl else EvPending) /\
     (ev_ssh cl = EvDeleted ->
        (event_add c ∈ log w' -> event_add c ∈ log w) /\
        forall e', fire (SocketReady c) e' w' = None)).
Proof.
  intros H. split.
  - intros Hs. unfold on_reconnect_timer, connect_ssh_client, bind.
    rewrite (deref_ok _ _ _ H). destruct (session cl); [reflexivity|congruence].
  - intros Hs Hn Hch Hrc.
    unfold on_reconnect_timer, connect_ssh_client, bind at 1.
    rewrite (deref_ok _ _ _ H), Hs. unfold bind at 1.
    rewrite (update_ok c cl _ w H).
    set (cl1 := with_state SSH_INIT cl).
    set (w1 := set_heap (<[c := cl1]> (heap w)) w).
    assert (H1 : heap w1 !! c = Some cl1) by (apply lookup_insert_eq).
    rewrite (on_ssh_client_event_dispatch e c cl1 w1 H1).
    change (state cl1) with SSH_INIT. cbv iota.
    rewrite (case_SSH_INIT_step e c cl1 w1 H1), Hn, Hch. cbn [andb].
    set (cl2 := with_state SSH_CONNECT
                  (with_channel (Some (S (next_handle w1)))
                     (with_session (Some (next_handle w1)) cl1))).
    assert (H2 : heap (initialised c cl1 w1) !! c = Some cl2)
      by (apply lookup_insert_eq).
    change (Some (next_handle w1)) with (session cl2).
    rewrite (case_SSH_CONNECT_step e c cl2 _ H2), Hrc.
    exists (registered c cl2 (initialised c cl1 w1)), (registered_client cl2).
    split; [reflexivity|].
    assert (Hev : ev_ssh cl2 = ev_ssh cl) by reflexivity.
    unfold registered, registered_client. rewrite Hev.
    destruct (event_initialized (ev_ssh cl)) eqn:Hi.
    + split; [reflexivity|]. split; [exact H2|].
      split; [reflexivity|]. split; [reflexivity|]. split; [reflexivity|].
      split; [exact Hev|]. intros Hd. split.
      * unfold initialised. cbn [log set_heap set_log set_next_handle].
        intros Hin. apply elem_of_app in Hin. destruct Hin as [Hin|Hin].
        -- exfalso. destruct (get_identity_of _);
             [apply list_elem_of_singleton in Hin; discriminate
             |now apply not_elem_of_nil in Hin].
        -- simpl in Hin.
           repeat (apply elem_of_cons in Hin; destruct Hin as [Hin|Hin];
                   [discriminate|]).
           exact Hin.
      * intros e'. unfold fire. rewrite H2. rewrite Hev, Hd. reflexivity.
    + split; [reflexivity|]. split; [apply lookup_insert_eq|].
      split; [reflexivity|]. split; [reflexivity|]. split; [reflexivity|].
      split; [reflexivity|]. intros Hd. rewrite Hd in Hi. discriminate.
Qed.

Lemma reconnect_timer_restarts_unlisted_witness :
  heap (torn_down_world 0 client0_ready (Some "Disconnected") single_ready) !! 0
    = Some (torn_down client0_ready) /\
  exists w',
    on_reconnect_timer connect_again 0
      (torn_down_world 0 client0_ready (Some "Disconnected") single_ready)
      = Ret tt w' /\
    clients w' = [].
Proof.
  assert (H : heap (torn_down_world 0 client0_ready (Some "Disconnected")
                      single_ready) !! 0
              = Some (torn_down client0_ready))
    by (vm_compute; reflexivity).
  split; [exact H|].
  destruct (reconnect_timer_restarts_unlisted connect_again 0 _ _ H) as [_ A].
  destruct (A eq_refl eq_refl eq_refl eq_refl) as (w' & cl' & E & C & _).
  exists w'. split; [exact E|]. rewrite C. vm_compute. reflexivity.
Defined.

(** ** Instances *)

Lemma get_identity_of_shape_witness :
  get_identity_of "id_rsa" = Some "%d/id_rsa" /\
  In "/"%char (list_ascii_of_string "%d/id_rsa").
Proof.
  assert (H : get_identity_of "id_rsa" = Some "%d/id_rsa")
    by (vm_compute; reflexivity).
  split; [exact H|].
  exact (proj1 (proj2 (get_identity_of_shape "id_rsa") _ H)).
Defined.

Lemma request_passphrase_idempotent_witness :
  is_password_prompt (first_pane awaiting_auth) = false /\
  request_passphrase 0 awaiting_auth =
  Ret tt (set_first_pane (WINDOW_COPY_PASSWORD "SSH key passphrase" 0)
            awaiting_auth).
Proof.
  assert (H : is_password_prompt (first_pane awaiting_auth) = false)
    by (vm_compute; reflexivity).
  split; [exact H|].
  exact (proj2 (proj2 (request_passphrase_idempotent 0 0 awaiting_auth)) H).
Defined.
